(** * olova-builder: the Vite plugin for [.olova] single-file components

    A shallow embedding of [vite-plugin-olova] (the plugin file with
    [olovaPlugin], [simpleHash] and [transformScopedCss]) and of the runtime
    helper [mount] of [src/olova.js], with the properties the specification
    states about them.

    JavaScript strings are sequences of UTF-16 code units; they are modelled
    as lists of integers, and the string methods the plugin calls are written
    out below with the behaviour ECMAScript gives them. *)

From Stdlib Require Import ZArith List Bool Ascii Lia.
From Stdlib Require String.
Import String.StringSyntax.
Delimit Scope string_scope with string.
Import ListNotations.
Open Scope Z_scope.

(** ** JavaScript strings *)

Module Js.

Definition jsstring := list Z.

(** A literal of the source text, as code units. *)
Definition lit (s : String.string) : jsstring :=
  map (fun a => Z.of_N (N_of_ascii a)) (String.list_ascii_of_string s).
Arguments lit s%_string.

Definition nl : jsstring := [10].
Definition dquote : jsstring := [34].
Definition backtick : jsstring := [96].
Definition backslash : jsstring := [92].

(** A source line followed by its line feed. *)
Definition ln (s : String.string) : jsstring := lit s ++ nl.
Arguments ln s%_string.

Definition jseqb (a b : jsstring) : bool :=
  if list_eq_dec Z.eq_dec a b then true else false.

(** [s.length] *)
Definition len (s : jsstring) : Z := Z.of_nat (length s).

(** ECMAScript WhiteSpace and LineTerminator code points: what [trim] strips
    and what [\s] matches. *)
Definition isWhiteSpace (c : Z) : bool :=
  (c =? 9) || (c =? 10) || (c =? 11) || (c =? 12) || (c =? 13) || (c =? 32)
  || (c =? 160) || (c =? 5760) || ((8192 <=? c) && (c <=? 8202))
  || (c =? 8232) || (c =? 8233) || (c =? 8239) || (c =? 8287)
  || (c =? 12288) || (c =? 65279).

(** LineTerminator: what [.] does not match. *)
Definition isLineTerminator (c : Z) : bool :=
  (c =? 10) || (c =? 13) || (c =? 8232) || (c =? 8233).

(** [\w] *)
Definition isWordChar (c : Z) : bool :=
  ((48 <=? c) && (c <=? 57)) || ((65 <=? c) && (c <=? 90))
  || ((97 <=? c) && (c <=? 122)) || (c =? 95).

Fixpoint dropWhile (p : Z -> bool) (s : jsstring) : jsstring :=
  match s with
  | [] => []
  | c :: s' => if p c then dropWhile p s' else s
  end.

Definition trimStart (s : jsstring) : jsstring := dropWhile isWhiteSpace s.
Definition trimEnd (s : jsstring) : jsstring :=
  rev (dropWhile isWhiteSpace (rev s)).
(** [s.trim()] *)
Definition trim (s : jsstring) : jsstring := trimEnd (trimStart s).

(** [s.startsWith(p)] *)
Fixpoint startsWith (s p : jsstring) : bool :=
  match p, s with
  | [], _ => true
  | _ :: _, [] => false
  | a :: p', b :: s' => (a =? b) && startsWith s' p'
  end.

(** [s.endsWith(p)] *)
Definition endsWith (s p : jsstring) : bool := startsWith (rev s) (rev p).

(** Index of the first occurrence of [p] in [s] at or after offset [i]. *)
Fixpoint indexFrom (i : Z) (s p : jsstring) : Z :=
  if startsWith s p then i
  else match s with
       | [] => -1
       | _ :: s' => indexFrom (i + 1) s' p
       end.

(** [s.indexOf(p)], [-1] when [p] does not occur. *)
Definition indexOf (s p : jsstring) : Z := indexFrom 0 s p.

(** [s.includes(p)] *)
Definition includes (s p : jsstring) : bool := negb (indexOf s p =? -1).

(** [s.substring(a, b)]: both ends are clamped to [0 .. s.length] and
    swapped when [a > b]. *)
Definition clamp (s : jsstring) (i : Z) : Z := Z.min (Z.max i 0) (len s).
Definition substring (s : jsstring) (a b : Z) : jsstring :=
  let a' := clamp s a in
  let b' := clamp s b in
  let from := Z.min a' b' in
  let to := Z.max a' b' in
  firstn (Z.to_nat (to - from)) (skipn (Z.to_nat from) s).

(** [s.substring(a)] *)
Definition substringFrom (s : jsstring) (a : Z) : jsstring :=
  substring s a (len s).

(** [s.charAt(0)] and [s.slice(1)] *)
Definition charAt0 (s : jsstring) : jsstring := firstn 1 s.
Definition slice1 (s : jsstring) : jsstring := skipn 1 s.

(** [s.split(sep)] for a separator of one code unit, the only kind the
    plugin uses ("\n" and ","). The empty string splits into one empty
    piece. *)
Fixpoint split (sep : Z) (s : jsstring) : list jsstring :=
  match s with
  | [] => [[]]
  | c :: s' =>
      if c =? sep then [] :: split sep s'
      else match split sep s' with
           | [] => [[c]]
           | piece :: pieces => (c :: piece) :: pieces
           end
  end.

(** [pieces.join(sep)] *)
Fixpoint join (sep : jsstring) (pieces : list jsstring) : jsstring :=
  match pieces with
  | [] => []
  | [p] => p
  | p :: ps => p ++ sep ++ join sep ps
  end.

(** GetSubstitution for a pattern without capture groups: in the replacement
    text [$$] is a dollar sign, [$&] the matched text, [$`] the text before
    the match and [$'] the text after it; any other [$] stands for itself. *)
Fixpoint getSubstitution (matched before after tpl : jsstring) : jsstring :=
  match tpl with
  | [] => []
  | c :: rest =>
      if c =? 36 then
        match rest with
        | d :: rest' =>
            if d =? 36 then 36 :: getSubstitution matched before after rest'
            else if d =? 38 then
              matched ++ getSubstitution matched before after rest'
            else if d =? 96 then
              before ++ getSubstitution matched before after rest'
            else if d =? 39 then
              after ++ getSubstitution matched before after rest'
            else 36 :: getSubstitution matched before after rest
        | [] => [36]
        end
      else c :: getSubstitution matched before after rest
  end.

(** [s.replace(p, r)] with a string pattern: the first occurrence only. *)
Definition replaceString (s p r : jsstring) : jsstring :=
  let pos := indexOf s p in
  if pos =? -1 then s
  else
    let before := substring s 0 pos in
    let after := substringFrom s (pos + len p) in
    before ++ getSubstitution p before after r ++ after.

(** [n.toString(16)] for a non-negative integer [n]. *)
Definition hexDigit (d : Z) : Z := if d <? 10 then 48 + d else 87 + d.

Fixpoint toHexDigits (fuel : nat) (n : Z) (acc : jsstring) : jsstring :=
  match fuel with
  | O => acc
  | S fuel' =>
      let acc' := hexDigit (n mod 16) :: acc in
      if n / 16 =? 0 then acc' else toHexDigits fuel' (n / 16) acc'
  end.

(** One round per bit is more than the digits need. *)
Definition toString16 (n : Z) : jsstring :=
  toHexDigits (S (Z.to_nat (Z.log2 n))) n [].

(** The value a string of lower-case hexadecimal digits denotes. *)
Definition hexValue (c : Z) : Z := if c <? 58 then c - 48 else c - 87.
Definition parseHex (s : jsstring) : Z :=
  fold_left (fun v c => v * 16 + hexValue c) s 0.

(** The characters [toString(16)] produces. *)
Definition isHexDigit (c : Z) : Prop := 48 <= c <= 57 \/ 97 <= c <= 102.

(** ToInt32: the integer modulo 2^32, read as a signed 32-bit value. *)
Definition toInt32 (z : Z) : Z := (z + 2 ^ 31) mod 2 ^ 32 - 2 ^ 31.

(** [a << n] and [a & b] on Numbers holding integers. *)
Definition shl (a n : Z) : Z := toInt32 (Z.shiftl (toInt32 a) (n mod 32)).
Definition band (a b : Z) : Z := toInt32 (Z.land (toInt32 a) (toInt32 b)).

End Js.

Import Js.

(** ** The scope token: [simpleHash] *)

Module Hash.

(** The loop body of [simpleHash]: [hash = (hash << 5) - hash + char;
    hash = hash & hash]. *)
Definition hashStep (hash char : Z) : Z :=
  let hash := shl hash 5 - hash + char in
  band hash hash.

Definition hashLoop (str : jsstring) : Z := fold_left hashStep str 0.

(** [simpleHash(str)]: [Math.abs(hash).toString(16)]. *)
Definition simpleHash (str : jsstring) : jsstring :=
  toString16 (Z.abs (hashLoop str)).

(** [const hash = simpleHash(id).substring(0, 8)] in [transform]. *)
Definition scopeToken (id : jsstring) : jsstring :=
  substring (simpleHash id) 0 8.

(** [const scopeId = `data-v-${hash}`] *)
Definition scopeId (id : jsstring) : jsstring :=
  lit "data-v-" ++ scopeToken id.

(** The accumulation as the specification words it:
    [hash = hash*31 - hash + charCode] kept in a signed 32-bit integer. *)
Definition specStep (hash char : Z) : Z := toInt32 (hash * 31 - hash + char).

Definition specScopeToken (id : jsstring) : jsstring :=
  substring (toString16 (Z.abs (fold_left specStep id 0))) 0 8.

(** The accumulation the loop performs: [hash*32 - hash + charCode], kept in
    a signed 32-bit integer. *)
Definition amendedStep (hash char : Z) : Z :=
  toInt32 (hash * 32 - hash + char).

End Hash.

(** ** [simpleHash] as it runs

    The [for] loop of [simpleHash] one round at a time: the variables [i]
    and [hash], a round for every [i < str.length] with
    [char = str.charCodeAt(i)], and the [return] once the test fails. *)

Module HashRun.

Record vars := mkVars {
  i : nat;
  hash : Z
}.

(** [let hash = 0] and [let i = 0] *)
Definition entry : vars := mkVars 0 0.

(** One round of the loop, with [i++]. *)
Inductive round (str : jsstring) : vars -> vars -> Prop :=
| round_body (v : vars) (char : Z) :
    nth_error str (i v) = Some char ->
    round str v (mkVars (S (i v)) (Hash.hashStep (hash v) char)).

(** From [v] on, the call returns [result]:
    [Math.abs(hash).toString(16)] when [i < str.length] fails. *)
Inductive returnsFrom (str : jsstring) : vars -> jsstring -> Prop :=
| return_now (v : vars) :
    nth_error str (i v) = None ->
    returnsFrom str v (toString16 (Z.abs (hash v)))
| return_later (v v' : vars) (result : jsstring) :
    round str v v' -> returnsFrom str v' result ->
    returnsFrom str v result.

(** A call [simpleHash(str)] returns [result]. *)
Definition returns (str result : jsstring) : Prop :=
  returnsFrom str entry result.

End HashRun.

(** ** The CSS scoper: [transformScopedCss] *)

Module Css.

(** The variables the loop of [transformScopedCss] updates. *)
Record scoper := mkScoper {
  processedCss : jsstring;
  inRule : bool;
  currentSelectors : list jsstring
}.

Definition initial : scoper := mkScoper [] false [].

(** The callback of [currentSelectors.map]: at-rules stay, [:root] is
    replaced by the bracketed scope id, any other selector is prefixed. *)
Definition transformSelector (scopeId selector : jsstring) : jsstring :=
  if startsWith selector (lit "@") then selector
  else if includes selector (lit ":root") then
    replaceString selector (lit ":root") (lit "[" ++ scopeId ++ lit "]")
  else lit "[" ++ scopeId ++ lit "] " ++ selector.

(** [currentSelectors] of a line that opens a rule: the text before the
    first brace, split at commas, each piece trimmed. *)
Definition selectorsOf (trimmedLine : jsstring) : list jsstring :=
  let selectorPart :=
    trim (substring trimmedLine 0 (indexOf trimmedLine (lit "{"))) in
  map trim (split 44 selectorPart).

(** What such a line adds to [processedCss]: the transformed selectors, then
    the brace and whatever followed it on the line. *)
Definition ruleStart (scopeId trimmedLine : jsstring) : jsstring :=
  let transformedSelectors :=
    map (transformSelector scopeId) (selectorsOf trimmedLine) in
  join (lit ", ") transformedSelectors ++ lit " {" ++
  substringFrom trimmedLine (indexOf trimmedLine (lit "{") + 1) ++ nl.

(** One round of [for (const line of lines)]. *)
Definition scopeLine (scopeId : jsstring) (st : scoper) (line : jsstring)
  : scoper :=
  let trimmedLine := trim line in
  match trimmedLine with
  | [] => mkScoper (processedCss st ++ nl) (inRule st) (currentSelectors st)
  | _ :: _ =>
      if includes trimmedLine (lit "{") && negb (inRule st) then
        mkScoper (processedCss st ++ ruleStart scopeId trimmedLine)
          true (selectorsOf trimmedLine)
      else if includes trimmedLine (lit "}") && inRule st then
        mkScoper (processedCss st ++ (trimmedLine ++ nl)) false []
      else if startsWith trimmedLine (lit "@") && includes trimmedLine (lit "{")
      then mkScoper (processedCss st ++ (trimmedLine ++ nl))
             (inRule st) (currentSelectors st)
      else mkScoper (processedCss st ++ (trimmedLine ++ nl))
             (inRule st) (currentSelectors st)
  end.

Definition scopeLines (scopeId : jsstring) (lines : list jsstring)
  (st : scoper) : scoper :=
  fold_left (scopeLine scopeId) lines st.

(** [transformScopedCss(css, scopeId)] *)
Definition transformScopedCss (css scopeId : jsstring) : jsstring :=
  processedCss (scopeLines scopeId (split 10 css) initial).

End Css.

(** ** Regular expressions

    A backtracking matcher in continuation-passing style for the fragment of
    ECMAScript patterns the plugin uses: literals, character classes,
    sequence, alternation, greedy and lazy repetition of a character class,
    the greedy optional and numbered capture groups. Alternatives are tried
    in the order the language prescribes, so the first success is the match
    the engine reports. *)

Module Regex.

Inductive regex : Type :=
| Eps
| Chr (c : Z)
| Cls (p : Z -> bool)
| Seq (r1 r2 : regex)
| Alt (r1 r2 : regex)
| Star (p : Z -> bool)
| LazyStar (p : Z -> bool)
| Opt (r : regex)
| Group (n : nat) (r : regex).

Notation "r1 ;; r2" := (Seq r1 r2) (at level 61, right associativity).

(** [p+] and [p+?] *)
Definition Plus (p : Z -> bool) : regex := Cls p ;; Star p.
Definition LazyPlus (p : Z -> bool) : regex := Cls p ;; LazyStar p.

(** A run of literal characters. *)
Fixpoint str (s : jsstring) : regex :=
  match s with
  | [] => Eps
  | [c] => Chr c
  | c :: s' => Chr c ;; str s'
  end.

Definition text (s : String.string) : regex := str (lit s).
Arguments text s%_string.

(** The classes of the plugin's patterns. *)
Definition space : Z -> bool := isWhiteSpace.
Definition word : Z -> bool := isWordChar.
Definition dot (c : Z) : bool := negb (isLineTerminator c).
Definition any (c : Z) : bool := true.
Definition quote (c : Z) : bool := (c =? 39) || (c =? 34).
Definition notc (d c : Z) : bool := negb (c =? d).

(** The captures recorded so far, latest first. *)
Definition captures := list (nat * jsstring).

Fixpoint capture (cs : captures) (n : nat) : option jsstring :=
  match cs with
  | [] => None
  | (m, v) :: cs' => if Nat.eqb m n then Some v else capture cs' n
  end.

Section Matcher.
Context {A : Type}.

Definition orElse (a b : option A) : option A :=
  match a with
  | Some _ => a
  | None => b
  end.

Fixpoint star (p : Z -> bool) (s : jsstring) (k : jsstring -> option A)
  : option A :=
  match s with
  | c :: s' => if p c then orElse (star p s' k) (k s) else k s
  | [] => k s
  end.

Fixpoint lazyStar (p : Z -> bool) (s : jsstring) (k : jsstring -> option A)
  : option A :=
  match k s with
  | Some r => Some r
  | None =>
      match s with
      | c :: s' => if p c then lazyStar p s' k else None
      | [] => None
      end
  end.

(** [matcher r s cs k]: match [r] at the head of [s] with the captures [cs],
    then continue with [k] on what remains. *)
Fixpoint matcher (r : regex) (s : jsstring) (cs : captures)
  (k : jsstring -> captures -> option A) : option A :=
  match r with
  | Eps => k s cs
  | Chr c =>
      match s with
      | d :: s' => if d =? c then k s' cs else None
      | [] => None
      end
  | Cls p =>
      match s with
      | d :: s' => if p d then k s' cs else None
      | [] => None
      end
  | Seq r1 r2 => matcher r1 s cs (fun s1 cs1 => matcher r2 s1 cs1 k)
  | Alt r1 r2 => orElse (matcher r1 s cs k) (matcher r2 s cs k)
  | Star p => star p s (fun s' => k s' cs)
  | LazyStar p => lazyStar p s (fun s' => k s' cs)
  | Opt r1 => orElse (matcher r1 s cs k) (k s cs)
  | Group n r1 =>
      matcher r1 s cs
        (fun s' cs' =>
           k s' ((n, firstn (length s - length s')%nat s) :: cs'))
  end.

End Matcher.

(** The text begins with a character outside the class, or is empty. *)
Definition stops (p : Z -> bool) (s : jsstring) : Prop :=
  match s with
  | [] => True
  | c :: _ => p c = false
  end.

(** A successful match: the text matched, the text after it, the captures. *)
Record rmatch := mkMatch {
  matched : jsstring;
  rest : jsstring;
  groups : captures
}.

(** The match of [r] that starts at the head of [s], if there is one. *)
Definition matchAt (r : regex) (s : jsstring) : option rmatch :=
  matcher r s []
    (fun s' cs => Some (mkMatch (firstn (length s - length s')%nat s) s' cs)).

(** The leftmost match: the text before it and the match. This is
    [s.match(r)] and [r.exec(s)] for a pattern without the [g] flag. *)
Fixpoint search (r : regex) (s : jsstring) : option (jsstring * rmatch) :=
  match matchAt r s with
  | Some m => Some ([], m)
  | None =>
      match s with
      | [] => None
      | c :: s' =>
          match search r s' with
          | Some (before, m) => Some (c :: before, m)
          | None => None
          end
      end
  end.

(** [s.replace(r, f)] for a pattern without the [g] flag. *)
Definition replaceFirst (r : regex) (f : rmatch -> jsstring) (s : jsstring)
  : jsstring :=
  match search r s with
  | Some (before, m) => before ++ f m ++ rest m
  | None => s
  end.

(** Scanning with the [g] flag. [skip] counts the code units of the last
    match still to pass over; after an empty match the scan moves on by one
    code unit. *)
Fixpoint scanAll {B : Type} (r : regex) (onMatch : rmatch -> B)
  (onChar : Z -> B) (skip : nat) (s : jsstring) : list B :=
  match s with
  | [] =>
      match skip, matchAt r [] with
      | O, Some m => [onMatch m]
      | _, _ => []
      end
  | c :: s' =>
      match skip with
      | S n => scanAll r onMatch onChar n s'
      | O =>
          match matchAt r s with
          | Some m =>
              match length (matched m) with
              | O => onMatch m :: onChar c :: scanAll r onMatch onChar O s'
              | S n => onMatch m :: scanAll r onMatch onChar n s'
              end
          | None => onChar c :: scanAll r onMatch onChar O s'
          end
      end
  end.

(** The matches a [while ((m = r.exec(s)) !== null)] loop sees, in order.
    (The loop ends because no pattern it is used with matches the empty
    string.) *)
Definition execAll (r : regex) (s : jsstring) : list rmatch :=
  concat (scanAll r (fun m => [m]) (fun _ => []) O s).

(** [s.replace(r, f)] with the [g] flag. *)
Definition replaceAll (r : regex) (f : rmatch -> jsstring) (s : jsstring)
  : jsstring :=
  concat (scanAll r f (fun c => [c]) O s).

(** [m[n]] for a group that took part in the match. *)
Definition groupText (m : rmatch) (n : nat) : jsstring :=
  match capture (groups m) n with
  | Some v => v
  | None => []
  end.

(** [a || b] on a capture that may be undefined or empty. *)
Definition orStr (a : option jsstring) (b : jsstring) : jsstring :=
  match a with
  | Some (c :: s) => c :: s
  | _ => b
  end.

End Regex.

Import Regex.

(** ** The import resolver and the template rewriter of [transform] *)

Module Sfc.

(** The pattern [import\s+(\w+)\s+from\s+Q(.+?)\.olova Q] with the [g] flag,
    where Q is the class of the single and the double quote. *)
Definition importRegex : regex :=
  text "import" ;; Plus space ;; Group 1 (Plus word) ;; Plus space ;;
  text "from" ;; Plus space ;; Cls quote ;; Group 2 (LazyPlus dot) ;;
  text ".olova" ;; Cls quote.

Record importRecord := mkImport {
  name : jsstring;
  path : jsstring
}.

(** The [while] loop that fills [imports]. *)
Definition importOf (m : rmatch) : importRecord :=
  mkImport (groupText m 1) (groupText m 2 ++ lit ".olova").

Definition resolveImports (scriptContent : jsstring) : list importRecord :=
  map importOf (execAll importRegex scriptContent).

(** An import statement of the form the resolver looks for, in single
    quotes and with single spaces, and a script made of such statements,
    each followed by some other text. *)
Definition importStatement (n p : jsstring) : jsstring :=
  lit "import " ++ n ++ lit " from '" ++ p ++ lit ".olova'".

Definition isName (n : jsstring) : Prop :=
  n <> [] /\ forallb isWordChar n = true.

Definition isPath (p : jsstring) : Prop :=
  p <> [] /\
  forallb (fun c => negb (isLineTerminator c) && negb ((c =? 39) || (c =? 34)))
    p = true.

(** The word [import] begins nowhere in [sep] when [sep] is followed by
    [next]. *)
Fixpoint noImportAhead (sep next : jsstring) : bool :=
  match sep with
  | [] => true
  | c :: sep' =>
      negb (startsWith (sep ++ next) (lit "import")) && noImportAhead sep' next
  end.

Definition item := (jsstring * jsstring * jsstring)%type.

Fixpoint scriptOf (items : list item) : jsstring :=
  match items with
  | [] => []
  | (n, p, after) :: items' => importStatement n p ++ after ++ scriptOf items'
  end.

Fixpoint wellFormed (items : list item) : Prop :=
  match items with
  | [] => True
  | (n, p, after) :: items' =>
      isName n /\ isPath p /\
      noImportAhead after (scriptOf items') = true /\ wellFormed items'
  end.

Definition recordOf (i : item) : importRecord :=
  mkImport (fst (fst i)) (snd (fst i) ++ lit ".olova").

(** The pattern built by [new RegExp] for an import named N, with the [g]
    flag: [<N A>(.*?)<\/N>|<N A\/>], where A is the optional group of [\s+]
    followed by any run of characters other than [>]. A name is a run of
    word characters, which stand for themselves in a pattern. *)
Definition componentTagRegex (n : jsstring) : regex :=
  Alt
    (str (lit "<" ++ n) ;; Opt (Group 1 (Plus space ;; Star (notc 62))) ;;
     text ">" ;; Group 2 (LazyStar dot) ;; str (lit "</" ++ n ++ lit ">"))
    (str (lit "<" ++ n) ;; Opt (Group 3 (Plus space ;; Star (notc 62))) ;;
     text "/>").

(** The replacement callback [(match, attrs1, content, attrs2) => ...]. *)
Definition placeholder (n : jsstring) (m : rmatch) : jsstring :=
  let attrs := orStr (capture (groups m) 1) (orStr (capture (groups m) 3) []) in
  lit "<div data-component=" ++ dquote ++ n ++ dquote ++ lit " " ++ attrs ++
  lit ">" ++ orStr (capture (groups m) 2) [] ++ lit "</div>".

(** [imports.forEach((imp) => { htmlContent = htmlContent.replace(...) })] *)
Definition rewriteTemplate (imports : list importRecord)
  (htmlContent : jsstring) : jsstring :=
  fold_left
    (fun html imp =>
       replaceAll (componentTagRegex (name imp)) (placeholder (name imp)) html)
    imports htmlContent.

End Sfc.

(** ** The plugin: [olovaPlugin] and its hooks *)

Module Plugin.

Import Sfc.

(** [allCssContent] is a [Map]: iteration follows insertion order, and
    setting a key that is present keeps its place. *)
Definition cssMap := list (jsstring * jsstring).

Fixpoint mapSet (k v : jsstring) (m : cssMap) : cssMap :=
  match m with
  | [] => [(k, v)]
  | (k', v') :: m' =>
      if jseqb k' k then (k, v) :: m' else (k', v') :: mapSet k v m'
  end.

Fixpoint mapGet (k : jsstring) (m : cssMap) : option jsstring :=
  match m with
  | [] => None
  | (k', v') :: m' => if jseqb k' k then Some v' else mapGet k m'
  end.

(** The closure variables of [olovaPlugin]. *)
Record plugin := mkPlugin {
  allCssContent : cssMap;
  isProd : bool
}.

(** [olovaPlugin()]: [nodeEnv] is [process.env.NODE_ENV]. *)
Definition olovaPlugin (nodeEnv : option jsstring) : plugin :=
  mkPlugin []
    (match nodeEnv with
     | Some v => jseqb v (lit "production")
     | None => false
     end).

Record config := mkConfig {
  isProduction : bool;
  mode : jsstring
}.

Definition configResolved (cfg : config) (st : plugin) : plugin :=
  mkPlugin (allCssContent st)
    (isProduction cfg || jseqb (mode cfg) (lit "production")).

Definition buildStart (st : plugin) : plugin := mkPlugin [] (isProd st).

(** What [this.emitFile] receives. *)
Record asset := mkAsset {
  fileName : jsstring;
  source : jsstring
}.

(** One round of the loop over [allCssContent.entries()]. *)
Definition styleBlock (entry : jsstring * jsstring) : jsstring :=
  lit "/* " ++ fst entry ++ lit " Component Styles */" ++ nl ++ nl ++
  snd entry ++ nl ++ nl ++ nl ++ nl.

Definition combineCss (m : cssMap) : jsstring :=
  fold_left (fun combinedCss entry => combinedCss ++ styleBlock entry) m [].

(** [generateBundle()]: the asset handed to [emitFile], if any. *)
Definition generateBundle (st : plugin) : option asset :=
  match allCssContent st with
  | [] => None
  | _ :: _ =>
      Some (mkAsset (lit "assets/style.css") (combineCss (allCssContent st)))
  end.

(** [transformIndexHtml(html)] *)
Definition transformIndexHtml (st : plugin) (html : jsstring) : jsstring :=
  match allCssContent st with
  | _ :: _ =>
      if isProd st then
        replaceString html (lit "</head>")
          (lit "  <link rel=" ++ dquote ++ lit "stylesheet" ++ dquote ++
           lit " href=" ++ dquote ++ lit "/assets/style.css" ++ dquote ++
           lit ">" ++ nl ++ lit "</head>")
      else html
  | [] => html
  end.

(** *** The patterns of [transform] *)

Definition scriptMatch : regex :=
  text "<script>" ;; Group 1 (LazyStar any) ;; text "</script>".

Definition styleMatch : regex :=
  text "<style" ;; Opt (Group 1 (Plus space ;; text "scoped")) ;; text ">" ;;
  Group 2 (LazyStar any) ;; text "</style>".

(** The pattern of the first [replace] that builds [htmlContent]. *)
Definition scriptBlock : regex :=
  text "<script>" ;; LazyStar any ;; text "</script>".

Definition setPropsCall : regex :=
  text "setProps(" ;; Star (notc 41) ;; text ")" ;; Opt (text ";").

Definition setPropsImport : regex :=
  text "import" ;; Plus space ;; Opt (text "{") ;; Star space ;;
  text "setProps" ;; Star space ;; Opt (text "}") ;; Star space ;;
  text "from" ;; Plus space ;; Cls quote ;;
  Plus (fun c => negb (quote c)) ;; Cls quote ;; Star space ;;
  Opt (text ";") ;; Star space.

Definition propsDeclaration : regex :=
  Alt (text "let") (Alt (text "const") (text "var")) ;; Plus space ;;
  text "props" ;; Star space ;; text "=" ;; Star space ;; setPropsCall.

Definition setPropsAssignment : regex :=
  Plus word ;; Star space ;; text "=" ;; Star space ;; setPropsCall.

Definition setPropsFunction : regex :=
  text "function" ;; Plus space ;; text "setProps" ;; Star space ;;
  text "(" ;; Star (notc 41) ;; text ")" ;; Star space ;; text "{" ;;
  Star (notc 125) ;; text "}".

Definition erase (r : regex) (s : jsstring) : jsstring :=
  replaceAll r (fun _ => []) s.

(** [modifiedScriptContent]: the six [replace] calls, in order. *)
Definition cleanScript (scriptContent : jsstring) : jsstring :=
  erase setPropsFunction
    (erase setPropsAssignment
       (erase setPropsCall
          (erase propsDeclaration
             (erase setPropsImport
                (erase importRegex scriptContent))))).

(** [htmlContent.replace(/`/g, "\\`")] *)
Definition escapeBackticks (htmlContent : jsstring) : jsstring :=
  replaceAll (Chr 96) (fun _ => backslash ++ backtick) htmlContent.

(** *** The text [transform] emits *)

(** [cssCode] when there is style content outside production. *)
Definition styleInjection (componentName processedStyle : jsstring)
  : jsstring :=
  nl ++
  ln "          // Add styles to document head (only once per component type)" ++
  lit "          if (!document.querySelector('style[data-olova-component=" ++
    dquote ++ componentName ++ dquote ++ ln "]')) {" ++
  ln "            const styleEl = document.createElement('style');" ++
  lit "            styleEl.setAttribute('data-olova-component', '" ++
    componentName ++ ln "');" ++
  lit "            styleEl.textContent = " ++ backtick ++ processedStyle ++
    backtick ++ ln ";" ++
  ln "            document.head.appendChild(styleEl);" ++
  ln "          }" ++
  lit "        ".

Definition importLine (imp : importRecord) : jsstring :=
  lit "import " ++ name imp ++ lit " from './" ++ path imp ++ lit "';".

Definition scopedAttr (isScoped : bool) (scopeId : jsstring) : jsstring :=
  if isScoped then lit "container.setAttribute('" ++ scopeId ++ lit "', '');"
  else [].

Definition scopedChildren (isScoped : bool) (scopeId : jsstring) : jsstring :=
  if isScoped then
    nl ++
    ln "            Array.from(container.children).forEach(child => {" ++
    lit "              if (!child.hasAttribute('" ++ scopeId ++ ln "')) {" ++
    lit "                child.setAttribute('" ++ scopeId ++ ln "', '');" ++
    ln "              }" ++
    ln "            });" ++
    lit "            "
  else [].

Section Transform.

(** Node's [path.basename(p, ext)] and the case mappings of the engine are
    taken as given. *)
Variable basename : jsstring -> jsstring -> jsstring.
Variable toUpperCase : jsstring -> jsstring.
Variable toLowerCase : jsstring -> jsstring.

Definition mountChild (imp : importRecord) : jsstring :=
  nl ++
  lit "              const " ++ toLowerCase (name imp) ++
    lit "Elements = container.querySelectorAll('[data-component=" ++
    dquote ++ name imp ++ dquote ++ ln "]');" ++
  lit "              " ++ toLowerCase (name imp) ++
    ln "Elements.forEach(el => {" ++
  lit "                " ++ name imp ++ ln "(el);" ++
  ln "              });" ++
  lit "            ".

(** The import lines at the head of the emitted module. *)
Definition importSection (imports : list importRecord) : jsstring :=
  nl ++
  ln "        // Import directly from main.js instead of olova.js" ++
  ln "        " ++
  lit "        " ++ join nl (map importLine imports) ++ nl ++
  ln "        " ++
  ln "        // Create the component definition".

(** The body of the inner function the component function returns. *)
Definition mountBody (componentName scopeId : jsstring) (isScoped : bool)
  (imports : list importRecord)
  (escapedHtmlContent modifiedScriptContent : jsstring) : jsstring :=
  ln "            // Create a new container for each component instance" ++
  ln "            const container = document.createElement('div');" ++
  lit "            container.setAttribute('data-olova-component', '" ++
    componentName ++ ln "');" ++
  lit "            " ++ scopedAttr isScoped scopeId ++ nl ++
  ln "            " ++
  ln "            // Create local references to elements within this component instance" ++
  ln "            const querySelector = selector => container.querySelector(selector);" ++
  ln "            const querySelectorAll = selector => container.querySelectorAll(selector);" ++
  ln "            const getElementById = id => {" ++
  ln "              const el = container.querySelector('#' + id);" ++
  ln "              return el || document.getElementById(id);" ++
  ln "            };" ++
  ln "            " ++
  ln "            // First add the HTML content to the container" ++
  lit "            container.innerHTML = " ++ backtick ++ escapedHtmlContent ++
    backtick ++ ln ";" ++
  ln "            " ++
  ln "            // Then run the component script" ++
  lit "            " ++ modifiedScriptContent ++ nl ++
  ln "            " ++
  ln "            // If scoped, ensure all top-level elements have the scope ID" ++
  lit "            " ++ scopedChildren isScoped scopeId ++ nl ++
  ln "            " ++
  ln "            // Append the component's HTML to the target" ++
  ln "            targetElement.appendChild(container);" ++
  ln "            " ++
  ln "            // Mount child components" ++
  lit "            " ++ join nl (map mountChild imports) ++ nl ++
  ln "            " ++
  ln "            // Return a cleanup function" ++
  ln "            return function() {" ++
  ln "              if (targetElement.contains(container)) {" ++
  ln "                targetElement.removeChild(container);" ++
  ln "              }" ++
  ln "            };" ++
  ln "          };".

(** [resultCode] *)
Definition resultCode (componentName scopeId : jsstring) (isScoped : bool)
  (imports : list importRecord)
  (cssCode escapedHtmlContent modifiedScriptContent : jsstring) : jsstring :=
  importSection imports ++
  lit "        function " ++ componentName ++ ln "Component() {" ++
  lit "          " ++ cssCode ++ nl ++
  ln "          " ++
  ln "          // Return a function that will mount the component and run its script" ++
  ln "          return function(targetElement) {" ++
  mountBody componentName scopeId isScoped imports
    escapedHtmlContent modifiedScriptContent ++
  ln "        }" ++
  ln "        " ++
  ln "        // Export the component directly without using registerComponent" ++
  lit "        export default " ++ componentName ++ ln "Component();" ++
  lit "      ".

(** *** [transform(code, id)] *)

Definition componentNameOf (id : jsstring) : jsstring :=
  let fileName := basename id (lit ".olova") in
  toUpperCase (charAt0 fileName) ++ slice1 fileName.

(** [(code.match(scriptMatch) || [])[1] || ""] *)
Definition scriptContentOf (code : jsstring) : jsstring :=
  match search scriptMatch code with
  | Some (_, m) => orStr (capture (groups m) 1) []
  | None => []
  end.

(** [styleTagMatch[1] !== undefined] *)
Definition isScopedOf (code : jsstring) : bool :=
  match search styleMatch code with
  | Some (_, m) =>
      match capture (groups m) 1 with
      | Some _ => true
      | None => false
      end
  | None => false
  end.

(** [styleTagMatch[2] || ""] *)
Definition styleContentOf (code : jsstring) : jsstring :=
  match search styleMatch code with
  | Some (_, m) => orStr (capture (groups m) 2) []
  | None => []
  end.

Definition htmlContentOf (code : jsstring) : jsstring :=
  trim (replaceFirst styleMatch (fun _ => [])
          (replaceFirst scriptBlock (fun _ => []) code)).

(** [processedStyle]: scoped only when the style tag asks for it. *)
Definition processedStyleOf (isScoped : bool) (styleContent scopeId : jsstring)
  : jsstring :=
  if isScoped then Css.transformScopedCss styleContent scopeId
  else styleContent.

Record output := mkOutput {
  code : jsstring;
  map : option jsstring
}.

Definition nonEmpty (s : jsstring) : bool :=
  match s with
  | [] => false
  | _ :: _ => true
  end.

(** The hook returns [null] for a file that is not an [.olova] file;
    otherwise it may add to [allCssContent] and returns the module text. *)
Definition transform (st : plugin) (source id : jsstring)
  : option output * plugin :=
  if negb (endsWith id (lit ".olova")) then (None, st)
  else
    let componentName := componentNameOf id in
    let scopeId := Hash.scopeId id in
    let scriptContent := scriptContentOf source in
    let isScoped := isScopedOf source in
    let styleContent := styleContentOf source in
    let htmlContent := htmlContentOf source in
    let imports := resolveImports scriptContent in
    let htmlContent := rewriteTemplate imports htmlContent in
    let processedStyle := processedStyleOf isScoped styleContent scopeId in
    let st' :=
      if nonEmpty styleContent then
        mkPlugin (mapSet componentName processedStyle (allCssContent st))
                 (isProd st)
      else st in
    let cssCode :=
      if nonEmpty styleContent && negb (isProd st) then
        styleInjection componentName processedStyle
      else [] in
    let modifiedScriptContent := cleanScript scriptContent in
    let escapedHtmlContent := escapeBackticks htmlContent in
    (Some (mkOutput
             (resultCode componentName scopeId isScoped imports cssCode
                escapedHtmlContent modifiedScriptContent)
             None),
     st').

End Transform.

End Plugin.

(** ** The runtime helper: [mount] of [olova.js] *)

Module Runtime.

Section Mount.

(** The document and its nodes belong to the host; [mount] only asks it for
    a node and empties one. A selector the host cannot parse makes
    [querySelector] throw. *)
Variables dom node props exn : Type.

Inductive lookup : Type :=
| Found (n : node)
| NotFound
| BadSelector (e : exn).

Variable querySelector : dom -> jsstring -> lookup.
(** [targetElement.innerHTML = ""] *)
Variable clearContent : node -> dom -> dom.
(** The default value [{}] of the parameter [props]. *)
Variable emptyProps : props.

(** What [mount] can change: the document and what the console was told. *)
Record page := mkPage {
  document : dom;
  consoleErrors : list jsstring
}.

Inductive completion (A : Type) : Type :=
| Normal (a : A) (p : page)
| Throw (e : exn) (p : page).
Arguments Normal {A} a p.
Arguments Throw {A} e p.

(** A teardown is a function called for its effect. *)
Definition teardown := page -> page.

Definition factory := node -> props -> page -> completion teardown.

(** [() => {}] *)
Definition noop : teardown := fun p => p.

Definition notFoundMessage (selector : jsstring) : jsstring :=
  lit "Target element " ++ dquote ++ selector ++ dquote ++ lit " not found".

(** [mount(componentMount, selector, props = {})] *)
Definition mount (componentMount : factory) (selector : jsstring)
  (props0 : option props) (pg : page) : completion teardown :=
  let props1 := match props0 with Some v => v | None => emptyProps end in
  match querySelector (document pg) selector with
  | BadSelector e => Throw e pg
  | Found targetElement =>
      componentMount targetElement props1
        (mkPage (clearContent targetElement (document pg)) (consoleErrors pg))
  | NotFound =>
      Normal noop
        (mkPage (document pg)
           (consoleErrors pg ++ [notFoundMessage selector]))
  end.

End Mount.

Arguments Found {node exn} n.
Arguments NotFound {node exn}.
Arguments BadSelector {node exn} e.
Arguments mkPage {dom} document consoleErrors.
Arguments document {dom} p.
Arguments consoleErrors {dom} p.
Arguments Normal {dom exn A} a p.
Arguments Throw {dom exn A} e p.
Arguments noop {dom} p.

End Runtime.

(** ** Stand-ins for the host, to run the hooks on concrete inputs

    The statements below hold for any [path.basename] and any case mapping;
    these are the POSIX [path.basename] of Node and the case mappings on
    ASCII letters, for the examples. *)

Module Host.

(** The last segment of a path, trailing slashes aside. *)
Definition stripSlashes (p : jsstring) : jsstring :=
  rev (dropWhile (fun c => c =? 47) (rev p)).

Fixpoint lastSegmentFrom (acc p : jsstring) : jsstring :=
  match p with
  | [] => acc
  | c :: p' => if c =? 47 then lastSegmentFrom [] p'
               else lastSegmentFrom (acc ++ [c]) p'
  end.

Definition lastSegment (p : jsstring) : jsstring :=
  lastSegmentFrom [] (stripSlashes p).

Definition basename (p ext : jsstring) : jsstring :=
  if jseqb p ext then []
  else
    let seg := lastSegment p in
    if endsWith seg ext && negb (jseqb seg ext) then
      firstn (length seg - length ext) seg
    else seg.

Definition upperChar (c : Z) : Z :=
  if (97 <=? c) && (c <=? 122) then c - 32 else c.
Definition lowerChar (c : Z) : Z :=
  if (65 <=? c) && (c <=? 90) then c + 32 else c.
Definition toUpperCase (s : jsstring) : jsstring := List.map upperChar s.
Definition toLowerCase (s : jsstring) : jsstring := List.map lowerChar s.

Definition compile := Plugin.transform basename toUpperCase toLowerCase.
Definition nameOf := Plugin.componentNameOf basename toUpperCase.

(** A page for [mount]: elements are named by the selector that finds them
    and hold their markup; the empty selector is one the host rejects. *)
Definition dom := list (jsstring * jsstring).

Fixpoint holds (d : dom) (selector : jsstring) : bool :=
  match d with
  | [] => false
  | (k, _) :: d' => jseqb k selector || holds d' selector
  end.

Definition querySelector (d : dom) (selector : jsstring)
  : Runtime.lookup jsstring unit :=
  match selector with
  | [] => Runtime.BadSelector tt
  | _ :: _ =>
      if holds d selector then Runtime.Found selector else Runtime.NotFound
  end.

Definition setContent (markup n : jsstring) (d : dom) : dom :=
  List.map (fun e => if jseqb (fst e) n then (fst e, markup) else e) d.

Definition clearContent : jsstring -> dom -> dom := setContent [].

Definition mountPage :=
  Runtime.mount dom jsstring unit unit querySelector clearContent tt.

(** A factory that fills its target and whose teardown empties it again. *)
Definition greeting : Runtime.factory dom jsstring unit unit :=
  fun target _ pg =>
    Runtime.Normal
      (fun p =>
         Runtime.mkPage (clearContent target (Runtime.document p))
           (Runtime.consoleErrors p))
      (Runtime.mkPage
         (setContent (lit "<p>Hi</p>") target (Runtime.document pg))
         (Runtime.consoleErrors pg)).

End Host.

(** ** Further definitions for the properties of the hooks *)

Module More.

(** The accumulation of [simpleHash] without the wrap-around: the value of
    the polynomial with the code units as coefficients at 31. *)
Definition polyHash (str : jsstring) : Z :=
  fold_left (fun hash char => hash * 31 + char) str 0.

(** The component names that have an entry, in the order of the entries. *)
Definition keys (m : Plugin.cssMap) : list jsstring := List.map fst m.

(** What [replace(/`/g, ...)] comes to, one code unit at a time. *)
Definition escapeUnit (c : Z) : jsstring :=
  if c =? 96 then [92; 96] else [c].

(** The [link] element [transformIndexHtml] puts before [</head>]. *)
Definition stylesheetLink : jsstring :=
  lit "  <link rel=" ++ dquote ++ lit "stylesheet" ++ dquote ++
  lit " href=" ++ dquote ++ lit "/assets/style.css" ++ dquote ++
  lit ">" ++ nl.

(** A build session: the host calls [transform] on one file after the
    other; a file is its source text and its identity. *)
Definition compileAll (basename : jsstring -> jsstring -> jsstring)
  (toUpperCase toLowerCase : jsstring -> jsstring)
  (st : Plugin.plugin) (files : list (jsstring * jsstring)) : Plugin.plugin :=
  fold_left
    (fun st file =>
       snd (Plugin.transform basename toUpperCase toLowerCase st
              (fst file) (snd file)))
    files st.

(** A component file laid out as text, a script block, text, a style block
    and text. *)
Definition styleOpener (scoped : bool) : jsstring :=
  if scoped then lit "<style scoped>" else lit "<style>".

Definition scriptBlockOf (js : jsstring) : jsstring :=
  lit "<script>" ++ js ++ lit "</script>".

Definition styleBlockOf (scoped : bool) (css : jsstring) : jsstring :=
  styleOpener scoped ++ css ++ lit "</style>".

Definition sfcSource (pre js mid : jsstring) (scoped : bool)
  (css post : jsstring) : jsstring :=
  pre ++ scriptBlockOf js ++ mid ++ styleBlockOf scoped css ++ post.

(** [w] occurs in [a ++ w] at the end and not before. *)
Definition firstAfter (a w : jsstring) : Prop :=
  indexOf (a ++ w) w = len a.

(** The two forms of a component tag in a template, and the placeholder the
    rewriter puts in their place. *)
Definition pairedTag (n attrs content : jsstring) : jsstring :=
  lit "<" ++ n ++ attrs ++ lit ">" ++ content ++ lit "</" ++ n ++ lit ">".

Definition selfClosingTag (n attrs : jsstring) : jsstring :=
  lit "<" ++ n ++ attrs ++ lit "/>".

Definition placeholderFor (n attrs content : jsstring) : jsstring :=
  lit "<div data-component=" ++ dquote ++ n ++ dquote ++ lit " " ++ attrs ++
  lit ">" ++ content ++ lit "</div>".

(** Attribute text: empty, or beginning with white space; without [>]. *)
Definition isAttrs (attrs : jsstring) : Prop :=
  match attrs with
  | [] => True
  | c :: _ => isWhiteSpace c = true
  end /\ forallb (Regex.notc 62) attrs = true.

(** Content of a paired tag: on one line, and ended by the first closing
    tag of the component. *)
Definition isContent (n content : jsstring) : Prop :=
  forallb Regex.dot content = true /\
  firstAfter content (lit "</" ++ n ++ lit ">").

(** A stylesheet seen as the scoper reads it: rules that open on one line
    and close on a later line, and lines outside any rule. *)
Inductive piece : Type :=
| Rule (header : jsstring) (body : list jsstring) (closer : jsstring)
| Plain (line : jsstring).

Definition pieceLines (p : piece) : list jsstring :=
  match p with
  | Rule header body closer => header :: body ++ [closer]
  | Plain line => [line]
  end.

Definition sheetOf (ps : list piece) : jsstring :=
  join nl (flat_map pieceLines ps).

(** A line as the scoper copies it. *)
Definition emitLine (line : jsstring) : jsstring := trim line ++ nl.

Definition pieceOut (scopeId : jsstring) (p : piece) : jsstring :=
  match p with
  | Rule header body closer =>
      Css.ruleStart scopeId (trim header) ++
      concat (List.map emitLine body) ++ emitLine closer
  | Plain line => emitLine line
  end.

Definition oneLine (line : jsstring) : Prop := ~ In 10 line.

(** The header has an opening brace, no body line has a closing brace, the
    closer has one; a line outside a rule has no opening brace. *)
Definition wellPiece (p : piece) : Prop :=
  match p with
  | Rule header body closer =>
      oneLine header /\ includes (trim header) (lit "{") = true /\
      Forall (fun l => oneLine l /\ includes (trim l) (lit "}") = false) body /\
      oneLine closer /\ includes (trim closer) (lit "}") = true
  | Plain line => oneLine line /\ includes (trim line) (lit "{") = false
  end.


(** A selector the scoper prefixes: it begins and ends with something
    other than white space, has no comma and no brace, is no at-rule and
    does not mention [:root]. *)
Definition plainSelector (s : jsstring) : Prop :=
  isWhiteSpace (hd 32 s) = false /\ isWhiteSpace (last s 32) = false /\
  ~ In 44 s /\ ~ In 123 s /\
  startsWith s (lit "@") = false /\ includes s (lit ":root") = false.

Definition prefixed (scopeId selector : jsstring) : jsstring :=
  lit "[" ++ scopeId ++ lit "] " ++ selector.

(** What is left of a script of import statements when the statements
    are taken out: the text that followed each of them. *)
Definition remainder (items : list Sfc.item) : jsstring :=
  concat (List.map snd items).

End More.

(** * Properties *)

(** ** The scope token *)

Module HashTheory.
Import Hash.

Lemma toInt32_offset (z : Z) : exists k, toInt32 z = z + 4294967296 * k.
Proof.
  unfold toInt32.
  change (2 ^ 32) with 4294967296. change (2 ^ 31) with 2147483648.
  exists (- ((z + 2147483648) / 4294967296)).
  pose proof (Z.div_mod (z + 2147483648) 4294967296 ltac:(lia)). lia.
Qed.

Lemma toInt32_range (z : Z) : -2147483648 <= toInt32 z < 2147483648.
Proof.
  unfold toInt32.
  change (2 ^ 32) with 4294967296. change (2 ^ 31) with 2147483648.
  pose proof (Z.mod_pos_bound (z + 2147483648) 4294967296 ltac:(lia)). lia.
Qed.

Lemma toInt32_small (z : Z) :
  -2147483648 <= z < 2147483648 -> toInt32 z = z.
Proof.
  intros H. unfold toInt32.
  change (2 ^ 32) with 4294967296. change (2 ^ 31) with 2147483648.
  rewrite Z.mod_small; lia.
Qed.

Lemma toInt32_congr (a b k : Z) :
  a = b + 4294967296 * k -> toInt32 a = toInt32 b.
Proof.
  intros ->. unfold toInt32. f_equal.
  change (2 ^ 32) with 4294967296.
  replace (b + 4294967296 * k + 2 ^ 31) with (b + 2 ^ 31 + k * 4294967296) by lia.
  apply Z_mod_plus_full.
Qed.

Lemma toInt32_idem (z : Z) : toInt32 (toInt32 z) = toInt32 z.
Proof. apply toInt32_small, toInt32_range. Qed.

Lemma band_diag (z : Z) : band z z = toInt32 z.
Proof. unfold band. rewrite Z.land_diag. apply toInt32_idem. Qed.

Lemma shl_5 (z : Z) : shl z 5 = toInt32 (toInt32 z * 32).
Proof.
  unfold shl. change (5 mod 32) with 5.
  rewrite Z.shiftl_mul_pow2 by lia. reflexivity.
Qed.

Lemma hashStep_amended (hash char : Z) :
  hashStep hash char = amendedStep hash char.
Proof.
  unfold hashStep, amendedStep. cbv zeta. rewrite band_diag, shl_5.
  destruct (toInt32_offset hash) as [k1 E1].
  destruct (toInt32_offset (toInt32 hash * 32)) as [k2 E2].
  apply (toInt32_congr _ _ (32 * k1 + k2)). lia.
Qed.

Lemma amendedStep_mul (hash char : Z) :
  amendedStep hash char = toInt32 (hash * 31 + char).
Proof. unfold amendedStep. f_equal. lia. Qed.

Lemma fold_left_ext {A B : Type} (f g : A -> B -> A) :
  (forall a b, f a b = g a b) ->
  forall l a, fold_left f l a = fold_left g l a.
Proof.
  intros E l. induction l as [|b l IH]; intros a; simpl.
  - reflexivity.
  - rewrite E. apply IH.
Qed.

Lemma hashStep_range (hash char : Z) :
  -2147483648 <= hashStep hash char < 2147483648.
Proof.
  rewrite hashStep_amended. unfold amendedStep. apply toInt32_range.
Qed.

Lemma fold_left_invariant {A B : Type} (P : A -> Prop) (f : A -> B -> A) :
  (forall a b, P a -> P (f a b)) ->
  forall l a, P a -> P (fold_left f l a).
Proof.
  intros step l. induction l as [|b l IH]; intros a Ha.
  - exact Ha.
  - cbn [fold_left]. apply IH, step, Ha.
Qed.

(** [hash] is a signed 32-bit value after every round. *)
Lemma hashLoop_range (str : jsstring) :
  -2147483648 <= hashLoop str < 2147483648.
Proof.
  unfold hashLoop.
  apply (fold_left_invariant (fun h => -2147483648 <= h < 2147483648)).
  - intros a b _. apply hashStep_range.
  - lia.
Qed.

(** The double-precision arithmetic of the loop is exact: with [hash] a
    signed 32-bit value and [char] a code unit, the value handed to [&] is an
    integer far below 2^53. *)
Lemma hashStep_exact (hash char : Z) :
  -2147483648 <= hash < 2147483648 -> 0 <= char < 65536 ->
  Z.abs (shl hash 5 - hash + char) < 2 ^ 53.
Proof.
  intros Hh Hc. pose proof (toInt32_range (toInt32 hash * 32)) as R.
  rewrite shl_5. change (2 ^ 53) with 9007199254740992. lia.
Qed.

(** *** Hexadecimal rendering *)

Lemma hexDigit_isHexDigit (d : Z) : 0 <= d < 16 -> isHexDigit (hexDigit d).
Proof.
  intros H. unfold isHexDigit, hexDigit.
  destruct (Z.ltb_spec d 10); lia.
Qed.

Lemma toHexDigits_hex (fuel : nat) :
  forall n acc, Forall isHexDigit acc ->
                Forall isHexDigit (toHexDigits fuel n acc).
Proof.
  induction fuel as [|fuel IH]; intros n acc Hacc; simpl; [exact Hacc|].
  assert (D : isHexDigit (hexDigit (n mod 16))).
  { apply hexDigit_isHexDigit. apply Z.mod_pos_bound. lia. }
  destruct (n / 16 =? 0); [constructor; assumption|].
  apply IH. constructor; assumption.
Qed.

Lemma toString16_hex (n : Z) : Forall isHexDigit (toString16 n).
Proof. apply toHexDigits_hex. constructor. Qed.

Lemma hexValue_hexDigit (d : Z) : 0 <= d < 16 -> hexValue (hexDigit d) = d.
Proof.
  intros H. unfold hexValue, hexDigit.
  destruct (Z.ltb_spec d 10) as [L|L].
  - destruct (Z.ltb_spec (48 + d) 58); lia.
  - destruct (Z.ltb_spec (87 + d) 58); lia.
Qed.

Lemma parseHex_from (s : jsstring) :
  forall v, fold_left (fun v c => v * 16 + hexValue c) s v
            = v * 16 ^ len s + parseHex s.
Proof.
  unfold parseHex, len.
  induction s as [|c s IH]; intros v.
  - simpl. lia.
  - cbn [fold_left length]. rewrite IH. rewrite (IH (0 * 16 + hexValue c)).
    rewrite Nat2Z.inj_succ, Z.pow_succ_r by lia. lia.
Qed.

Lemma parseHex_cons (c : Z) (s : jsstring) :
  parseHex (c :: s) = hexValue c * 16 ^ len s + parseHex s.
Proof. unfold parseHex at 1. simpl. apply parseHex_from. Qed.

Lemma toHexDigits_value (fuel : nat) :
  forall n acc, 0 <= n < 2 ^ Z.of_nat fuel -> (0 < fuel)%nat ->
    parseHex (toHexDigits fuel n acc) = n * 16 ^ len acc + parseHex acc.
Proof.
  induction fuel as [|fuel IH]; intros n acc Hn Hf; [lia|].
  cbn [toHexDigits].
  pose proof (Z.div_mod n 16 ltac:(lia)) as DM.
  pose proof (Z.mod_pos_bound n 16 ltac:(lia)) as MB.
  assert (L : len (hexDigit (n mod 16) :: acc) = len acc + 1).
  { unfold len. cbn [length]. lia. }
  destruct (Z.eqb_spec (n / 16) 0) as [Z0|NZ].
  - rewrite parseHex_cons, hexValue_hexDigit by lia.
    replace (n mod 16) with n by lia. reflexivity.
  - assert (Q : 0 <= n / 16) by (apply Z.div_pos; lia).
    destruct fuel as [|fuel'].
    { change (2 ^ Z.of_nat 1) with 2 in Hn.
      assert (n / 16 = 0) by (apply Z.div_small; lia). contradiction. }
    rewrite IH.
    + rewrite parseHex_cons, hexValue_hexDigit, L by lia.
      rewrite Z.pow_add_r by (unfold len; lia). lia.
    + split; [exact Q|].
      apply Z.div_lt_upper_bound; [lia|].
      rewrite (Nat2Z.inj_succ (S fuel')) in Hn.
      rewrite Z.pow_succ_r in Hn by lia. lia.
    + lia.
Qed.

(** [toString16] renders the number it is given. *)
Lemma parseHex_toString16 (n : Z) : 0 <= n -> parseHex (toString16 n) = n.
Proof.
  intros Hn. unfold toString16. rewrite toHexDigits_value.
  - unfold len. simpl. unfold parseHex. simpl. lia.
  - split; [exact Hn|].
    destruct (Z.eq_dec n 0) as [->|NZ]; [simpl; lia|].
    rewrite Nat2Z.inj_succ, Z2Nat.id by apply Z.log2_nonneg.
    apply Z.log2_spec. lia.
  - lia.
Qed.

(** No leading zero. *)
Lemma toHexDigits_head (fuel : nat) :
  forall n acc, 0 < n < 2 ^ Z.of_nat fuel ->
    exists c s, toHexDigits fuel n acc = c :: s /\ c <> 48.
Proof.
  induction fuel as [|fuel IH]; intros n acc Hn.
  - change (2 ^ Z.of_nat 0) with 1 in Hn. lia.
  - cbn [toHexDigits].
    pose proof (Z.div_mod n 16 ltac:(lia)) as DM.
    pose proof (Z.mod_pos_bound n 16 ltac:(lia)) as MB.
    destruct (Z.eqb_spec (n / 16) 0) as [Z0|NZ].
    + exists (hexDigit (n mod 16)), acc. split; [reflexivity|].
      unfold hexDigit. destruct (Z.ltb_spec (n mod 16) 10); lia.
    + assert (Q : 0 <= n / 16) by (apply Z.div_pos; lia).
      apply IH. split; [lia|].
      apply Z.div_lt_upper_bound; [lia|].
      rewrite Nat2Z.inj_succ, Z.pow_succ_r in Hn by lia. lia.
Qed.

Lemma toString16_head (n : Z) :
  0 < n -> exists c s, toString16 n = c :: s /\ c <> 48.
Proof.
  intros Hn. apply toHexDigits_head. split; [exact Hn|].
  rewrite Nat2Z.inj_succ, Z2Nat.id by apply Z.log2_nonneg.
  apply Z.log2_spec. exact Hn.
Qed.

Lemma Forall_firstn {A : Type} (P : A -> Prop) (n : nat) (l : list A) :
  Forall P l -> Forall P (firstn n l).
Proof.
  intros H. revert n. induction H; intros [|n]; simpl; constructor; auto.
Qed.

Lemma Forall_skipn {A : Type} (P : A -> Prop) (n : nat) (l : list A) :
  Forall P l -> Forall P (skipn n l).
Proof.
  intros H. revert n. induction H; intros [|n]; simpl; auto.
Qed.

Lemma substring_Forall (P : Z -> Prop) (s : jsstring) (a b : Z) :
  Forall P s -> Forall P (substring s a b).
Proof. intros H. unfold substring. apply Forall_firstn, Forall_skipn, H. Qed.

Lemma scopeToken_hex (id : jsstring) : Forall isHexDigit (scopeToken id).
Proof. apply substring_Forall, toString16_hex. Qed.

(** No scope id the plugin derives contains a dollar sign. *)
Lemma scopeId_no_dollar (id : jsstring) : ~ In 36 (scopeId id).
Proof.
  unfold scopeId. intros H. apply in_app_or in H. destruct H as [H|H].
  - vm_compute in H. intuition discriminate.
  - pose proof (scopeToken_hex id) as F. rewrite Forall_forall in F.
    specialize (F _ H). unfold isHexDigit in F. lia.
Qed.

Lemma scopeToken_length (id : jsstring) : (length (scopeToken id) <= 8)%nat.
Proof.
  unfold scopeToken, substring.
  rewrite length_firstn.
  assert (Z.to_nat (Z.max (clamp (simpleHash id) 0) (clamp (simpleHash id) 8)
           - Z.min (clamp (simpleHash id) 0) (clamp (simpleHash id) 8)) <= 8)%nat.
  { unfold clamp, len. lia. }
  lia.
Qed.

(** C2 as the specification words it fails: with [hash*31 - hash + charCode]
    the identity [ab] gets the token [bc0], while [simpleHash] gives [c21]. *)
Lemma spec_formula_differs :
  scopeToken (lit "ab") = lit "c21" /\
  specScopeToken (lit "ab") = lit "bc0" /\
  scopeToken (lit "ab") <> specScopeToken (lit "ab").
Proof.
  split; [reflexivity|]. split; [reflexivity|].
  vm_compute. discriminate.
Qed.

(** C2, amended: the scope token of an identity is the first 8 characters
    of the base-16 rendering of the absolute value of the accumulation
    [hash = hash*32 - hash + charCode] (which is [hash*31 + charCode]) over
    its code units, kept in a signed 32-bit integer after every step. *)
Theorem scopeToken_rolling_hash (id : jsstring) :
  (forall hash char, hashStep hash char = amendedStep hash char) /\
  (forall hash char, amendedStep hash char = toInt32 (hash * 31 + char)) /\
  scopeToken id
  = substring (toString16 (Z.abs (fold_left amendedStep id 0))) 0 8 /\
  -2147483648 <= fold_left amendedStep id 0 < 2147483648.
Proof.
  split; [exact hashStep_amended|]. split; [exact amendedStep_mul|].
  rewrite <- (fold_left_ext _ _ hashStep_amended). split.
  - reflexivity.
  - apply hashLoop_range.
Qed.

Lemma skipn_at (str : jsstring) (n : nat) (c : Z) :
  nth_error str n = Some c -> skipn n str = c :: skipn (S n) str.
Proof.
  revert n. induction str as [|d str IH]; intros [|n] H;
    try discriminate H.
  - cbn in H. injection H as ->. reflexivity.
  - cbn [nth_error] in H. exact (IH n H).
Qed.

Lemma skipn_past (str : jsstring) (n : nat) :
  nth_error str n = None -> skipn n str = [].
Proof.
  intros H. apply skipn_all2. apply nth_error_None. exact H.
Qed.

Lemma returnsFrom_value (str : jsstring) (v : HashRun.vars)
  (result : jsstring) :
  HashRun.returnsFrom str v result ->
  result
  = toString16
      (Z.abs (fold_left hashStep (skipn (HashRun.i v) str) (HashRun.hash v))).
Proof.
  intros R. induction R as [v H | v v' result S R IH].
  - rewrite (skipn_past str _ H). reflexivity.
  - destruct S as [v char H]. rewrite (skipn_at str _ char H).
    exact IH.
Qed.

Lemma returnsFrom_total (str : jsstring) :
  forall (n : nat) (v : HashRun.vars),
    (length str - HashRun.i v = n)%nat ->
    HashRun.returnsFrom str v
      (toString16
         (Z.abs
            (fold_left hashStep (skipn (HashRun.i v) str) (HashRun.hash v)))).
Proof.
  induction n as [|n IH]; intros v L.
  - assert (H : nth_error str (HashRun.i v) = None)
      by (apply nth_error_None; lia).
    rewrite (skipn_past str _ H). apply HashRun.return_now. exact H.
  - destruct (nth_error str (HashRun.i v)) as [char|] eqn:H.
    + rewrite (skipn_at str _ char H).
      apply (HashRun.return_later str v
               (HashRun.mkVars (S (HashRun.i v))
                  (hashStep (HashRun.hash v) char))).
      * apply HashRun.round_body. exact H.
      * apply (IH (HashRun.mkVars (S (HashRun.i v))
                     (hashStep (HashRun.hash v) char))).
        cbn [HashRun.i]. lia.
    + apply nth_error_None in H. lia.
Qed.

Lemma returns_simpleHash (str : jsstring) :
  HashRun.returns str (simpleHash str).
Proof.
  exact (returnsFrom_total str (length str - 0) HashRun.entry eq_refl).
Qed.

Lemma returns_unique (str result : jsstring) :
  HashRun.returns str result -> result = simpleHash str.
Proof.
  intros R. exact (returnsFrom_value str HashRun.entry result R).
Qed.

End HashTheory.

(** ** The CSS scoper *)

Module CssTheory.
Import Css.

Lemma getSubstitution_plain (matched before after tpl : jsstring) :
  ~ In 36 tpl -> getSubstitution matched before after tpl = tpl.
Proof.
  induction tpl as [|c rest IH]; intros H; [reflexivity|].
  cbn [getSubstitution].
  destruct (Z.eqb_spec c 36) as [->|_].
  - exfalso. apply H. left. reflexivity.
  - f_equal. apply IH. intros I. apply H. right. exact I.
Qed.


Lemma foo_rule (t : jsstring) :
  transformScopedCss (lit ".foo { color: red; }") t
  = lit "[" ++ t ++ lit "] .foo { color: red; }" ++ nl.
Proof.
  assert (E : transformScopedCss (lit ".foo { color: red; }") t
              = transformSelector t (lit ".foo") ++ lit " { color: red; }" ++ nl).
  { unfold transformScopedCss, scopeLines, scopeLine, ruleStart.
    generalize (transformSelector t) as f. intros f.
    vm_compute. reflexivity. }
  rewrite E. unfold transformSelector.
  change (startsWith (lit ".foo") (lit "@")) with false.
  change (includes (lit ".foo") (lit ":root")) with false.
  cbv iota. rewrite <- !app_assoc. reflexivity.
Qed.

Lemma root_rule (t : jsstring) :
  ~ In 36 t ->
  transformScopedCss (lit ":root { --x: 1; }") t
  = lit "[" ++ t ++ lit "] { --x: 1; }" ++ nl.
Proof.
  intros H.
  assert (E : transformScopedCss (lit ":root { --x: 1; }") t
              = transformSelector t (lit ":root") ++ lit " { --x: 1; }" ++ nl).
  { unfold transformScopedCss, scopeLines, scopeLine, ruleStart.
    generalize (transformSelector t) as f. intros f.
    vm_compute. reflexivity. }
  rewrite E. unfold transformSelector.
  change (startsWith (lit ":root") (lit "@")) with false.
  change (includes (lit ":root") (lit ":root")) with true.
  cbv iota. unfold replaceString.
  change (indexOf (lit ":root") (lit ":root")) with 0.
  change (0 =? -1) with false. cbv iota zeta.
  change (substring (lit ":root") 0 0) with (@nil Z).
  change (substringFrom (lit ":root") (0 + len (lit ":root"))) with (@nil Z).
  rewrite getSubstitution_plain.
  - rewrite app_nil_r. simpl. rewrite <- !app_assoc. reflexivity.
  - intros I. apply in_app_or in I. destruct I as [I|I].
    + vm_compute in I. intuition discriminate.
    + apply in_app_or in I. destruct I as [I|I]; [contradiction|].
      vm_compute in I. intuition discriminate.
Qed.


(** *** Lines *)

Lemma split_whole (sep : Z) (s : jsstring) :
  ~ In sep s -> split sep s = [s].
Proof.
  induction s as [|c s IH]; intros H; [reflexivity|].
  cbn [split]. destruct (Z.eqb_spec c sep) as [->|_].
  - exfalso. apply H. left. reflexivity.
  - rewrite IH; [reflexivity|]. intros I. apply H. right. exact I.
Qed.

Lemma split_first (sep : Z) (s1 s2 : jsstring) :
  ~ In sep s1 -> split sep (s1 ++ sep :: s2) = s1 :: split sep s2.
Proof.
  induction s1 as [|c s1 IH]; intros H.
  - cbn [app split]. rewrite Z.eqb_refl. reflexivity.
  - cbn [app split]. destruct (Z.eqb_spec c sep) as [->|_].
    + exfalso. apply H. left. reflexivity.
    + rewrite IH; [reflexivity|]. intros I. apply H. right. exact I.
Qed.

(** A line that opens a rule outside a rule. *)
Lemma scopeLine_open (scopeId : jsstring) (st : scoper) (line : jsstring) :
  inRule st = false -> trim line <> [] ->
  includes (trim line) (lit "{") = true ->
  scopeLine scopeId st line
  = mkScoper (processedCss st ++ ruleStart scopeId (trim line))
      true (selectorsOf (trim line)).
Proof.
  intros Hr Hn Hb. unfold scopeLine. cbv zeta.
  destruct (trim line) as [|c r] eqn:E; [contradiction|].
  rewrite Hb, Hr. reflexivity.
Qed.

(** A line with a closing brace inside a rule. *)
Lemma scopeLine_close (scopeId : jsstring) (st : scoper) (line : jsstring) :
  inRule st = true -> trim line <> [] ->
  includes (trim line) (lit "}") = true ->
  scopeLine scopeId st line
  = mkScoper (processedCss st ++ (trim line ++ nl)) false [].
Proof.
  intros Hr Hn Hb. unfold scopeLine. cbv zeta.
  destruct (trim line) as [|c r] eqn:E; [contradiction|].
  rewrite Hb, Hr. rewrite andb_false_r. reflexivity.
Qed.

(** C1 as stated fails: the scoper ends every line it emits with a line
    feed, and a dollar sign in the token is read as a replacement pattern
    by [replace]. *)
Lemma exact_output_fails :
  transformScopedCss (lit ".foo { color: red; }") (lit "t1")
    <> lit "[t1] .foo { color: red; }" /\
  transformScopedCss (lit ":root { --x: 1; }") (lit "t1")
    <> lit "[t1] { --x: 1; }" /\
  transformScopedCss (lit ":root { --x: 1; }") (lit "$&")
    = lit "[:root] { --x: 1; }" ++ nl.
Proof.
  split; [vm_compute; discriminate|].
  split; [vm_compute; discriminate|].
  vm_compute. reflexivity.
Qed.

(** C1, amended: for every scope token the rule [.foo { color: red; }]
    becomes [[t1] .foo { color: red; }] followed by a line feed, and for
    every scope token without a dollar sign, so for every scope id the
    plugin derives, [:root { --x: 1; }] becomes [[t1] { --x: 1; }] followed
    by a line feed. *)
Theorem scoped_single_rule (t1 : jsstring) :
  transformScopedCss (lit ".foo { color: red; }") t1
  = lit "[" ++ t1 ++ lit "] .foo { color: red; }" ++ nl /\
  (~ In 36 t1 ->
   transformScopedCss (lit ":root { --x: 1; }") t1
   = lit "[" ++ t1 ++ lit "] { --x: 1; }" ++ nl).
Proof. split; [apply foo_rule | apply root_rule]. Qed.

Lemma scoped_single_rule_witness :
  ~ In 36 (lit "t1") /\
  transformScopedCss (lit ".foo { color: red; }") (lit "t1")
  = lit "[t1] .foo { color: red; }" ++ nl /\
  transformScopedCss (lit ":root { --x: 1; }") (lit "t1")
  = lit "[t1] { --x: 1; }" ++ nl.
Proof.
  assert (H : ~ In 36 (lit "t1")) by (vm_compute; intuition discriminate).
  split; [exact H|].
  destruct (scoped_single_rule (lit "t1")) as [A B].
  split; [exact A | exact (B H)].
Defined.

(** Two lines, the first opening a rule and the second holding a closing
    brace: the second line is copied, trimmed, whatever else it holds. *)
Lemma two_lines (scopeId first second : jsstring) :
  ~ In 10 first -> ~ In 10 second ->
  trim first <> [] -> includes (trim first) (lit "{") = true ->
  trim second <> [] -> includes (trim second) (lit "}") = true ->
  transformScopedCss (first ++ nl ++ second) scopeId
  = ruleStart scopeId (trim first) ++ trim second ++ nl.
Proof.
  intros N1 N2 T1 B1 T2 B2.
  unfold transformScopedCss, scopeLines, nl. cbn [app].
  rewrite split_first by exact N1. rewrite split_whole by exact N2.
  cbn [fold_left].
  rewrite (scopeLine_open scopeId initial first) by (auto; reflexivity).
  rewrite scopeLine_close by (auto; reflexivity).
  reflexivity.
Qed.

Lemma two_rules (t : jsstring) :
  transformScopedCss (ln ".a { color: red; }" ++ lit ".b { color: blue; }") t
  = lit "[" ++ t ++ lit "] .a { color: red; }" ++ nl ++
    lit ".b { color: blue; }" ++ nl.
Proof.
  unfold ln. rewrite <- app_assoc. rewrite two_lines.
  - unfold ruleStart.
    change (selectorsOf (trim (lit ".a { color: red; }"))) with [lit ".a"].
    cbn [map join]. unfold transformSelector.
    change (startsWith (lit ".a") (lit "@")) with false.
    change (includes (lit ".a") (lit ":root")) with false.
    cbv iota.
    change (substringFrom (trim (lit ".a { color: red; }"))
              (indexOf (trim (lit ".a { color: red; }")) (lit "{") + 1))
      with (lit " color: red; }").
    change (trim (lit ".b { color: blue; }")) with (lit ".b { color: blue; }").
    rewrite <- !app_assoc. reflexivity.
  - vm_compute; intuition discriminate.
  - vm_compute; intuition discriminate.
  - vm_compute; discriminate.
  - reflexivity.
  - vm_compute; discriminate.
  - reflexivity.
Qed.

(** C10: outside a rule, a line with an opening brace sets the in-rule flag
    whatever else the line holds; inside a rule, a line with a closing brace
    is copied and only resets the flag. So in a stylesheet of two one-line
    rules the selector of the first is scoped and the second rule is emitted
    as it stands, its selector unscoped. *)
Theorem one_line_rules_second_unscoped (scopeId : jsstring) :
  (forall st line,
     inRule st = false -> trim line <> [] ->
     includes (trim line) (lit "{") = true ->
     inRule (scopeLine scopeId st line) = true) /\
  (forall st line,
     inRule st = true -> trim line <> [] ->
     includes (trim line) (lit "}") = true ->
     scopeLine scopeId st line
     = mkScoper (processedCss st ++ (trim line ++ nl)) false []) /\
  (forall first second,
     ~ In 10 first -> ~ In 10 second ->
     trim first <> [] -> includes (trim first) (lit "{") = true ->
     includes (trim first) (lit "}") = true ->
     trim second <> [] -> includes (trim second) (lit "{") = true ->
     includes (trim second) (lit "}") = true ->
     transformScopedCss (first ++ nl ++ second) scopeId
     = ruleStart scopeId (trim first) ++ trim second ++ nl) /\
  transformScopedCss
    (ln ".a { color: red; }" ++ lit ".b { color: blue; }") scopeId
  = lit "[" ++ scopeId ++ lit "] .a { color: red; }" ++ nl ++
    lit ".b { color: blue; }" ++ nl.
Proof.
  split; [|split; [|split]].
  - intros st line Hr Hn Hb. rewrite scopeLine_open by assumption. reflexivity.
  - intros st line. apply scopeLine_close.
  - intros first second N1 N2 T1 O1 _ T2 _ C2. apply two_lines; assumption.
  - apply two_rules.
Qed.

Lemma one_line_rules_second_unscoped_witness :
  let first := lit ".a { color: red; }" in
  let second := lit ".b { color: blue; }" in
  (~ In 10 first /\ ~ In 10 second /\
   trim first <> [] /\ includes (trim first) (lit "{") = true /\
   includes (trim first) (lit "}") = true /\
   trim second <> [] /\ includes (trim second) (lit "{") = true /\
   includes (trim second) (lit "}") = true) /\
  inRule (scopeLine (lit "t1") initial first) = true /\
  scopeLine (lit "t1") (scopeLine (lit "t1") initial first) second
  = mkScoper (processedCss (scopeLine (lit "t1") initial first) ++
                (trim second ++ nl)) false [] /\
  transformScopedCss (first ++ nl ++ second) (lit "t1")
  = ruleStart (lit "t1") (trim first) ++ trim second ++ nl.
Proof.
  intros first second.
  assert (N1 : ~ In 10 first) by (vm_compute; intuition discriminate).
  assert (N2 : ~ In 10 second) by (vm_compute; intuition discriminate).
  assert (T1 : trim first <> []) by (vm_compute; discriminate).
  assert (T2 : trim second <> []) by (vm_compute; discriminate).
  assert (O1 : includes (trim first) (lit "{") = true) by reflexivity.
  assert (C1 : includes (trim first) (lit "}") = true) by reflexivity.
  assert (O2 : includes (trim second) (lit "{") = true) by reflexivity.
  assert (C2 : includes (trim second) (lit "}") = true) by reflexivity.
  destruct (one_line_rules_second_unscoped (lit "t1")) as [A [B [C _]]].
  assert (R : inRule (scopeLine (lit "t1") initial first) = true)
    by (apply A; [reflexivity | exact T1 | exact O1]).
  split; [repeat split; assumption|].
  split; [exact R|].
  split; [exact (B _ second R T2 C2)|].
  exact (C first second N1 N2 T1 O1 C1 T2 O2 C2).
Defined.

End CssTheory.

(** ** The matcher *)

Module RegexTheory.

Lemma Some_inj {T : Type} (a b : T) : Some a = Some b -> a = b.
Proof. congruence. Qed.

Section Progress.
Context {A : Type}.

(** A repetition hands to its continuation a text no longer than its own. *)
Lemma star_length (p : Z -> bool) (k : jsstring -> option A) (v : A) :
  forall s, star p s k = Some v ->
  exists s', (length s' <= length s)%nat /\ k s' = Some v.
Proof.
  induction s as [|c s IH]; cbn [star]; intros H.
  - exists []. split; [lia | exact H].
  - destruct (p c).
    + unfold orElse in H. destruct (star p s k) as [w|] eqn:E.
      * destruct (IH H) as [s' [L K]]. exists s'. split; [cbn; lia | exact K].
      * exists (c :: s). split; [lia | exact H].
    + exists (c :: s). split; [lia | exact H].
Qed.

Lemma lazyStar_length (p : Z -> bool) (k : jsstring -> option A) (v : A) :
  forall s, lazyStar p s k = Some v ->
  exists s', (length s' <= length s)%nat /\ k s' = Some v.
Proof.
  induction s as [|c s IH]; cbn [lazyStar]; intros H.
  - destruct (k []) as [w|] eqn:E; [|discriminate].
    exists []. split; [lia | congruence].
  - destruct (k (c :: s)) as [w|] eqn:E.
    + exists (c :: s). split; [lia | congruence].
    + destruct (p c); [|discriminate].
      destruct (IH H) as [s' [L K]]. exists s'. split; [cbn; lia | exact K].
Qed.

Lemma matcher_length (r : regex) :
  forall s cs (k : jsstring -> captures -> option A) v,
    matcher r s cs k = Some v ->
    exists s' cs', (length s' <= length s)%nat /\ k s' cs' = Some v.
Proof.
  induction r as [|c|p|r1 IH1 r2 IH2|r1 IH1 r2 IH2|p|p|r1 IH1|n r1 IH1];
    intros s cs k v H; cbn [matcher] in H.
  - exists s, cs. split; [lia | exact H].
  - destruct s as [|d s]; [discriminate|].
    destruct (d =? c); [|discriminate].
    exists s, cs. split; [cbn; lia | exact H].
  - destruct s as [|d s]; [discriminate|].
    destruct (p d); [|discriminate].
    exists s, cs. split; [cbn; lia | exact H].
  - destruct (IH1 _ _ _ _ H) as [s1 [cs1 [L1 K1]]].
    destruct (IH2 _ _ _ _ K1) as [s2 [cs2 [L2 K2]]].
    exists s2, cs2. split; [lia | exact K2].
  - unfold orElse in H. destruct (matcher r1 s cs k) as [w|] eqn:E.
    + apply IH1 with (cs := cs). congruence.
    + apply IH2 with (cs := cs). exact H.
  - destruct (star_length _ _ _ _ H) as [s' [L K]]. exists s', cs. auto.
  - destruct (lazyStar_length _ _ _ _ H) as [s' [L K]]. exists s', cs. auto.
  - unfold orElse in H. destruct (matcher r1 s cs k) as [w|] eqn:E.
    + apply IH1 with (cs := cs). congruence.
    + exists s, cs. split; [lia | exact H].
  - destruct (IH1 _ _ _ _ H) as [s' [cs' [L K]]].
    eexists s', _. split; [exact L | exact K].
Qed.

End Progress.

(** What [matchAt] returns splits the text it was given. *)
Lemma matchAt_split (r : regex) (s : jsstring) (m : rmatch) :
  matchAt r s = Some m ->
  (length (rest m) <= length s)%nat /\
  matched m = firstn (length s - length (rest m)) s.
Proof.
  unfold matchAt. intros H.
  destruct (matcher_length _ _ _ _ _ H) as [s' [cs' [L K]]].
  cbv beta in K. apply Some_inj in K. subst m. cbn [rest matched]. split; [exact L | reflexivity].
Qed.

(** A pattern that starts with a literal character matches at least that
    character. *)
Lemma literal_head_nonempty (c : Z) (r : regex) (s : jsstring) (m : rmatch) :
  matchAt (Chr c ;; r) s = Some m -> matched m <> [].
Proof.
  unfold matchAt. cbn [matcher]. intros H.
  destruct s as [|d s]; [discriminate|].
  destruct (d =? c); [|discriminate].
  destruct (matcher_length _ _ _ _ _ H) as [s' [cs' [L K]]].
  cbv beta in K. apply Some_inj in K. subst m. cbn [matched length].
  replace (S (length s) - length s')%nat with (S (length s - length s'))
    by lia.
  cbn [firstn]. discriminate.
Qed.

End RegexTheory.

(** ** The import pattern *)

Module ImportTheory.
Import Sfc.
Import RegexTheory.

Section Steps.
Context {A : Type}.
Implicit Types (k : jsstring -> captures -> option A) (v : A).

(** A run of literal characters consumes itself. *)
Lemma matcher_str (t : jsstring) :
  forall s cs k, matcher (str t) (t ++ s) cs k = k s cs.
Proof.
  induction t as [|c t IH]; intros s cs k; [reflexivity|].
  destruct t as [|c' t].
  - cbn. rewrite Z.eqb_refl. reflexivity.
  - change (str (c :: c' :: t)) with (Chr c ;; str (c' :: t)).
    cbn [matcher app]. rewrite Z.eqb_refl. apply IH.
Qed.

Lemma star_stops (p : Z -> bool) (s : jsstring) (k : jsstring -> option A) :
  stops p s -> star p s k = k s.
Proof.
  destruct s as [|c s]; cbn; [reflexivity|]. intros ->. reflexivity.
Qed.

(** A greedy repetition over a run of the class: the longest match is
    tried first. *)
Lemma star_run (p : Z -> bool) (x r : jsstring) (k : jsstring -> option A) v :
  forallb p x = true -> stops p r -> k r = Some v ->
  star p (x ++ r) k = Some v.
Proof.
  intros X R K. induction x as [|c x IH].
  - cbn [app]. rewrite star_stops by exact R. exact K.
  - cbn [forallb] in X. apply andb_prop in X. destruct X as [Pc X].
    cbn [app star]. rewrite Pc, (IH X). reflexivity.
Qed.

(** A lazy repetition stops at the first place where the continuation
    succeeds. *)
Lemma lazyStar_until (p : Z -> bool) (x r : jsstring)
  (k : jsstring -> option A) v :
  forallb p x = true ->
  (forall a b, x = a ++ b -> b <> [] -> k (b ++ r) = None) ->
  k r = Some v ->
  lazyStar p (x ++ r) k = Some v.
Proof.
  intros X. revert X. induction x as [|c x IH]; intros X F K.
  - cbn [app]. destruct r; cbn [lazyStar]; rewrite K; reflexivity.
  - cbn [forallb] in X. apply andb_prop in X. destruct X as [Pc X].
    cbn [app lazyStar].
    pose proof (F [] (c :: x) eq_refl ltac:(discriminate)) as F0.
    cbn [app] in F0. rewrite F0, Pc.
    apply IH; [exact X | | exact K].
    intros a b E N. apply (F (c :: a) b); [rewrite E; reflexivity | exact N].
Qed.

End Steps.

Lemma word_not_space (c : Z) : isWordChar c = true -> isWhiteSpace c = false.
Proof.
  unfold isWordChar, isWhiteSpace. intros H.
  rewrite !orb_true_iff, !andb_true_iff, !Z.leb_le, Z.eqb_eq in H.
  rewrite !orb_false_iff, !andb_false_iff, !Z.leb_gt, !Z.eqb_neq.
  lia.
Qed.

(** What follows the path: the extension and a quote. Where the text does
    not continue that way the continuation of the path group fails. *)
Lemma extension_needed {A : Type} (s : jsstring) cs
  (k : jsstring -> captures -> option A) v :
  matcher (text ".olova" ;; Cls quote) s cs k = Some v ->
  exists q s', s = lit ".olova" ++ q :: s' /\ quote q = true.
Proof.
  change (text ".olova")
    with (Chr 46 ;; Chr 111 ;; Chr 108 ;; Chr 111 ;; Chr 118 ;; Chr 97).
  cbn [matcher]. intros H.
  do 6 (destruct s as [|? s]; [discriminate H|];
        match type of H with
        | (if ?a =? ?b then _ else _) = _ =>
            destruct (Z.eqb_spec a b); [subst|discriminate H]
        end).
  destruct s as [|q s]; [discriminate H|].
  destruct (quote q) eqn:Q; [|discriminate H].
  exists q, s. split; [reflexivity | exact Q].
Qed.


Lemma firstn_prefix {T : Type} (a b : list T) :
  firstn (length (a ++ b) - length b) (a ++ b) = a.
Proof.
  rewrite length_app.
  replace (length a + length b - length b)%nat with (length a) by lia.
  rewrite firstn_app, firstn_all, Nat.sub_diag. cbn. apply app_nil_r.
Qed.

Lemma isPath_cons (c : Z) (p : jsstring) :
  isPath (c :: p) ->
  dot c = true /\ forallb dot p = true /\
  forall a b, p = a ++ b -> ~ In 39 b /\ ~ In 34 b.
Proof.
  intros [_ F]. cbn [forallb] in F. apply andb_prop in F. destruct F as [Fc F].
  apply andb_prop in Fc. destruct Fc as [Dc _].
  split; [exact Dc|]. rewrite forallb_forall in F. split.
  - apply forallb_forall. intros x I. specialize (F x I).
    apply andb_prop in F. apply F.
  - intros a b E. subst p.
    assert (G : forall q, In q b -> q <> 39 /\ q <> 34).
    { intros q I. specialize (F q (in_or_app _ _ _ (or_intror I))).
      apply andb_prop in F. destruct F as [_ F].
      apply negb_true_iff, orb_false_iff in F. destruct F as [F1 F2].
      apply Z.eqb_neq in F1, F2. auto. }
    split; intros I; destruct (G _ I); congruence.
Qed.

(** Inside a path without quotes the extension and a quote cannot begin. *)
Lemma no_early_extension (b r : jsstring) (q : Z) (s' : jsstring) :
  b <> [] -> ~ In 39 b -> ~ In 34 b -> quote q = true ->
  b ++ lit ".olova'" ++ r <> lit ".olova" ++ q :: s'.
Proof.
  intros N N1 N2 Q E.
  assert (Qq : q = 39 \/ q = 34).
  { unfold quote in Q. apply orb_true_iff in Q.
    destruct Q as [Q|Q]; apply Z.eqb_eq in Q; auto. }
  destruct b as [|b0 b]; [contradiction|].
  do 6 (destruct b as [|? b];
        [cbn in E; injection E as E; intros; subst;
         try discriminate; cbn in *; intuition congruence|]).
  cbn in E. injection E as E. intros. subst.
  cbn in N1, N2. destruct Qq; subst; intuition congruence.
Qed.

Section Groups.
Context {A : Type}.
Implicit Types (k : jsstring -> captures -> option A) (v : A).

Lemma name_group (g : nat) (n r : jsstring) cs k v :
  isName n -> stops word r -> k r ((g, n) :: cs) = Some v ->
  matcher (Group g (Plus word)) (n ++ r) cs k = Some v.
Proof.
  intros [N W] R K. destruct n as [|c n]; [contradiction|].
  cbn [forallb] in W. apply andb_prop in W. destruct W as [Wc W].
  unfold Plus. cbn [matcher app]. fold (word c). unfold word at 1.
  rewrite Wc. apply star_run; [exact W | exact R|].
  change (c :: n ++ r) with ((c :: n) ++ r). rewrite firstn_prefix. exact K.
Qed.

Lemma path_group (g : nat) (p r : jsstring) cs k v :
  isPath p -> k r ((g, p) :: cs) = Some v ->
  matcher (Group g (LazyPlus dot) ;; text ".olova" ;; Cls quote)
    (p ++ lit ".olova'" ++ r) cs k = Some v.
Proof.
  intros P K. destruct p as [|c p]; [destruct P; contradiction|].
  destruct (isPath_cons _ _ P) as [Dc [D Q]].
  unfold LazyPlus. cbn [matcher app]. rewrite Dc.
  apply lazyStar_until; [exact D | |].
  - intros a b E N.
    cbv beta.
    match goal with
    | |- ?lhs = None => destruct lhs as [w|] eqn:M; [|reflexivity]
    end.
    exfalso. destruct (extension_needed _ _ _ _ M) as [q [s' [E' Qq]]].
    destruct (Q a b E) as [N1 N2].
    exact (no_early_extension b r q s' N N1 N2 Qq E').
  - change (c :: p ++ lit ".olova'" ++ r) with ((c :: p) ++ lit ".olova'" ++ r).
    rewrite firstn_prefix.
    change (lit ".olova'" ++ r) with (lit ".olova" ++ 39 :: r).
    cbn [matcher]. unfold text. rewrite matcher_str. cbn [matcher].
    change (quote 39) with true. exact K.
Qed.

Lemma matcher_seq (r1 r2 : regex) s cs k :
  matcher (r1 ;; r2) s cs k
  = matcher r1 s cs (fun s1 cs1 => matcher r2 s1 cs1 k).
Proof. reflexivity. Qed.

Lemma matcher_text (t : String.string) s cs k :
  matcher (text t) (lit t ++ s) cs k = k s cs.
Proof. apply matcher_str. Qed.

Lemma matcher_cls (p : Z -> bool) (c : Z) s cs k :
  p c = true -> matcher (Cls p) (c :: s) cs k = k s cs.
Proof. intros H. cbn [matcher]. rewrite H. reflexivity. Qed.

(** [p+] on one character of the class followed by something else. *)
Lemma plus_one (p : Z -> bool) (c : Z) s cs k :
  p c = true -> stops p s -> matcher (Plus p) (c :: s) cs k = k s cs.
Proof.
  intros H S. unfold Plus. rewrite matcher_seq, matcher_cls by exact H.
  cbn [matcher]. rewrite star_stops by exact S. reflexivity.
Qed.

(** The import pattern on a statement of the form it looks for. *)
Lemma statement_matcher (n p r : jsstring) k v :
  isName n -> isPath p -> k r [(2%nat, p); (1%nat, n)] = Some v ->
  matcher importRegex (importStatement n p ++ r) [] k = Some v.
Proof.
  intros N P K. unfold importStatement, importRegex.
  rewrite <- !app_assoc.
  change (lit "import " ++ n ++ lit " from '" ++ p ++ lit ".olova'" ++ r)
    with (lit "import" ++ 32 :: n ++ lit " from '" ++ p ++ lit ".olova'" ++ r).
  rewrite matcher_seq, matcher_text.
  rewrite matcher_seq, plus_one; [|reflexivity|].
  2:{ destruct N as [N W]. destruct n as [|c n]; [contradiction|].
      cbn [forallb] in W. apply andb_prop in W. destruct W as [Wc _].
      cbn. apply word_not_space, Wc. }
  rewrite matcher_seq. apply name_group; [exact N | cbn; reflexivity |].
  change (lit " from '" ++ p ++ lit ".olova'" ++ r)
    with (32 :: lit "from" ++ 32 :: 39 :: p ++ lit ".olova'" ++ r).
  rewrite matcher_seq, plus_one by (cbn; reflexivity).
  rewrite matcher_seq, matcher_text.
  rewrite matcher_seq, plus_one by (cbn; reflexivity).
  rewrite matcher_seq, matcher_cls by reflexivity.
  apply (path_group 2 p r [(1%nat, n)] k v P K).
Qed.

End Groups.

Lemma statement_match (n p r : jsstring) :
  isName n -> isPath p ->
  matchAt importRegex (importStatement n p ++ r)
  = Some (mkMatch (importStatement n p) r [(2%nat, p); (1%nat, n)]).
Proof.
  intros N P. unfold matchAt. apply statement_matcher; [exact N | exact P|].
  rewrite firstn_prefix. reflexivity.
Qed.


(** The pattern begins with the word [import]. *)
Lemma import_needs_keyword (s : jsstring) :
  startsWith s (lit "import") = false -> matchAt importRegex s = None.
Proof.
  unfold matchAt, importRegex. rewrite matcher_seq.
  change (text "import")
    with (Chr 105 ;; Chr 109 ;; Chr 112 ;; Chr 111 ;; Chr 114 ;; Chr 116).
  change (lit "import") with [105; 109; 112; 111; 114; 116].
  cbn [matcher]. intros H.
  do 6 (destruct s as [|? s]; [reflexivity|];
        cbn [startsWith] in H;
        match goal with
        | |- (if ?a =? ?b then _ else _) = _ =>
            rewrite (Z.eqb_sym a b);
            destruct (Z.eqb_spec b a); [subst|reflexivity]
        end; cbn [andb] in H).
  destruct s; discriminate H.
Qed.

Section Scan.
Context {B : Type}.
Variables (onMatch : rmatch -> B) (onChar : Z -> B).

Lemma scan_skip (r : regex) (x y : jsstring) :
  scanAll r onMatch onChar (length x) (x ++ y)
  = scanAll r onMatch onChar O y.
Proof. induction x as [|c x IH]; [reflexivity | exact IH]. Qed.

Lemma scan_statement (n p r : jsstring) :
  isName n -> isPath p ->
  scanAll importRegex onMatch onChar O (importStatement n p ++ r)
  = onMatch (mkMatch (importStatement n p) r [(2%nat, p); (1%nat, n)])
    :: scanAll importRegex onMatch onChar O r.
Proof.
  intros N P. pose proof (statement_match n p r N P) as M.
  assert (E : exists tail, importStatement n p = 105 :: tail).
  { eexists. unfold importStatement. reflexivity. }
  destruct E as [tail E]. rewrite E in M |- *.
  cbn [app] in M. cbn [app scanAll]. rewrite M. cbn [matched length].
  rewrite scan_skip. reflexivity.
Qed.

Lemma scan_between (sep next : jsstring) :
  noImportAhead sep next = true ->
  scanAll importRegex onMatch onChar O (sep ++ next)
  = List.map onChar sep ++ scanAll importRegex onMatch onChar O next.
Proof.
  induction sep as [|c sep IH]; intros H; [reflexivity|].
  cbn [noImportAhead] in H. apply andb_prop in H. destruct H as [H1 H2].
  apply negb_true_iff in H1.
  cbn [app scanAll List.map].
  change (c :: sep ++ next) with ((c :: sep) ++ next).
  rewrite (import_needs_keyword _ H1). rewrite (IH H2). reflexivity.
Qed.

End Scan.

Lemma concat_nothing {T : Type} (l : jsstring) (rest : list (list T)) :
  concat (List.map (fun _ => []) l ++ rest) = concat rest.
Proof. induction l as [|c l IH]; [reflexivity | exact IH]. Qed.

Lemma importOf_statement (n p stmt r : jsstring) :
  isName n -> isPath p ->
  importOf (mkMatch stmt r [(2%nat, p); (1%nat, n)])
  = mkImport n (p ++ lit ".olova").
Proof.
  intros _ _. reflexivity.
Qed.

Lemma exec_script (items : list item) :
  wellFormed items ->
  List.map importOf (execAll importRegex (scriptOf items))
  = List.map recordOf items.
Proof.
  unfold execAll. induction items as [|[[n p] after] items IH]; intros W.
  - reflexivity.
  - destruct W as [N [P [F W]]]. cbn [scriptOf].
    rewrite scan_statement by assumption.
    rewrite scan_between by exact F.
    cbn [concat]. rewrite concat_nothing. cbn [app List.map].
    rewrite (IH W), (importOf_statement n p _ _ N P). reflexivity.
Qed.

(** A script made of import statements of the form the resolver looks for,
    with text between them in which the word [import] does not begin, gives
    one record per statement, in the order of the statements. *)
Lemma import_statements_resolved (before : jsstring) (items : list item) :
  wellFormed items ->
  noImportAhead before (scriptOf items) = true ->
  resolveImports (before ++ scriptOf items) = List.map recordOf items /\
  length (resolveImports (before ++ scriptOf items)) = length items.
Proof.
  intros W F.
  assert (E : resolveImports (before ++ scriptOf items)
              = List.map recordOf items).
  { unfold resolveImports, execAll. rewrite scan_between by exact F.
    rewrite concat_nothing. apply exec_script, W. }
  split; [exact E|]. rewrite E. apply length_map.
Qed.

(** Every match of the import pattern has text, so the loop over
    [importRegex.exec] moves on after each match and ends. *)
Lemma import_match_nonempty (s : jsstring) (m : rmatch) :
  matchAt importRegex s = Some m -> matched m <> [].
Proof.
  intros H.
  apply (literal_head_nonempty 105
           (str (lit "mport") ;; Plus space ;; Group 1 (Plus word) ;;
            Plus space ;; text "from" ;; Plus space ;; Cls quote ;;
            Group 2 (LazyPlus dot) ;; text ".olova" ;; Cls quote) s m).
  exact H.
Qed.

(** Two statements on two lines, a plain statement between them. *)
Example import_statements_resolved_example :
  resolveImports
    (scriptOf
       [(lit "Card", lit "./Card", lit ";" ++ nl ++ lit "const n = 1;" ++ nl);
        (lit "Row_2", lit "../rows/Row", [])])
  = [mkImport (lit "Card") (lit "./Card.olova");
     mkImport (lit "Row_2") (lit "../rows/Row.olova")].
Proof.
  set (items :=
         [(lit "Card", lit "./Card", lit ";" ++ nl ++ lit "const n = 1;" ++ nl);
          (lit "Row_2", lit "../rows/Row", [])]).
  assert (W : wellFormed items).
  { cbn [wellFormed items]. unfold isName, isPath.
    repeat split; try discriminate; vm_compute; reflexivity. }
  assert (F : noImportAhead [] (scriptOf items) = true) by reflexivity.
  destruct (import_statements_resolved [] items W F) as [E _].
  cbn [app] in E. rewrite E. vm_compute. reflexivity.
Defined.

End ImportTheory.

(** ** Imports, templates, the hooks and the runtime *)

Module SfcTheory.
Import Sfc.

(** C5: with an import named Card, the template [<Card title="x">Hi</Card>]
    becomes a [div] placeholder whose [data-component] attribute is Card,
    with the attribute [title="x"] kept on it and [Hi] kept as its content. *)
Theorem rewrite_card_template (p : jsstring) :
  rewriteTemplate [mkImport (lit "Card") p]
    (lit "<Card title=" ++ dquote ++ lit "x" ++ dquote ++ lit ">Hi</Card>")
  = lit "<div data-component=" ++ dquote ++ lit "Card" ++ dquote ++
    lit "  title=" ++ dquote ++ lit "x" ++ dquote ++ lit ">" ++
    lit "Hi" ++ lit "</div>".
Proof. vm_compute. reflexivity. Qed.

(** C4 at a script with two imports on one line, the first of a plain
    module: the lazy [(.+?)] runs past the closing quote of [bar.js] up to
    the next [.olova], so the one record made is named after the plain
    import and the component import [Baz] is not recorded. With the two
    imports on two lines the record is that of [Baz]. *)
Theorem import_on_shared_line_mistracked :
  resolveImports
    (lit "import foo from 'bar.js'; import Baz from './baz.olova'")
  = [mkImport (lit "foo") (lit "bar.js'; import Baz from './baz.olova")] /\
  resolveImports
    (ln "import foo from 'bar.js';" ++ lit "import Baz from './baz.olova'")
  = [mkImport (lit "Baz") (lit "./baz.olova")].
Proof. split; vm_compute; reflexivity. Qed.

End SfcTheory.

Module PluginTheory.
Import Sfc.
Import Plugin.

Lemma jseqb_eq (a b : jsstring) : jseqb a b = true <-> a = b.
Proof.
  unfold jseqb. destruct (list_eq_dec Z.eq_dec a b); split; congruence.
Qed.

Lemma jseqb_neq (a b : jsstring) : a <> b -> jseqb a b = false.
Proof.
  unfold jseqb. destruct (list_eq_dec Z.eq_dec a b); congruence.
Qed.

Lemma combineCss_from (m : cssMap) :
  forall acc,
    fold_left (fun combinedCss entry => combinedCss ++ styleBlock entry) m acc
    = acc ++ concat (List.map styleBlock m).
Proof.
  induction m as [|e m IH]; intros acc; simpl.
  - rewrite app_nil_r. reflexivity.
  - rewrite IH, <- app_assoc. reflexivity.
Qed.

Lemma combineCss_concat (m : cssMap) :
  combineCss m = concat (List.map styleBlock m).
Proof. unfold combineCss. apply combineCss_from. Qed.

Section Transform.

Variable basename : jsstring -> jsstring -> jsstring.
Variable toUpperCase : jsstring -> jsstring.
Variable toLowerCase : jsstring -> jsstring.

Local Abbreviation transform := (Plugin.transform basename toUpperCase toLowerCase).
Local Abbreviation componentNameOf := (Plugin.componentNameOf basename toUpperCase).
Local Abbreviation resultCode := (Plugin.resultCode toLowerCase).

(** What [transform] does to the plugin state. *)
Lemma transform_state (st : plugin) (source id : jsstring) :
  endsWith id (lit ".olova") = true ->
  snd (transform st source id)
  = if nonEmpty (styleContentOf source) then
      mkPlugin
        (mapSet (componentNameOf id)
           (processedStyleOf (isScopedOf source) (styleContentOf source)
              (Hash.scopeId id))
           (allCssContent st))
        (isProd st)
    else st.
Proof.
  intros E. unfold Plugin.transform. rewrite E. cbn [negb].
  cbv zeta. reflexivity.
Qed.

Lemma nonEmpty_true (s : jsstring) : s <> [] -> nonEmpty s = true.
Proof. destruct s; [contradiction | reflexivity]. Qed.

(** C6, amended: when the map is not empty, [generateBundle] emits one
    asset, at [assets/style.css], whose text is the blocks of the entries
    in insertion order, each [/* Name Component Styles */], two line feeds,
    the processed CSS and four line feeds; with an empty map it emits
    nothing. Two components with styles and different component names
    compiled in one build give one asset with their two blocks in compile
    order. *)
Theorem generateBundle_combined_asset (st : plugin) :
  (allCssContent st = [] -> generateBundle st = None) /\
  (allCssContent st <> [] ->
   generateBundle st
   = Some (mkAsset (lit "assets/style.css")
             (concat (List.map styleBlock (allCssContent st))))) /\
  (forall name css,
     styleBlock (name, css)
     = lit "/* " ++ name ++ lit " Component Styles */" ++ nl ++ nl ++
       css ++ nl ++ nl ++ nl ++ nl) /\
  (forall sourceA idA sourceB idB,
     endsWith idA (lit ".olova") = true ->
     endsWith idB (lit ".olova") = true ->
     styleContentOf sourceA <> [] -> styleContentOf sourceB <> [] ->
     componentNameOf idA <> componentNameOf idB ->
     let stA := snd (transform (buildStart st) sourceA idA) in
     let stB := snd (transform stA sourceB idB) in
     generateBundle stB
     = Some (mkAsset (lit "assets/style.css")
               (styleBlock
                  (componentNameOf idA,
                   processedStyleOf (isScopedOf sourceA)
                     (styleContentOf sourceA) (Hash.scopeId idA)) ++
                styleBlock
                  (componentNameOf idB,
                   processedStyleOf (isScopedOf sourceB)
                     (styleContentOf sourceB) (Hash.scopeId idB))))).
Proof.
  split; [|split; [|split]].
  - intros E. unfold generateBundle. rewrite E. reflexivity.
  - intros N. unfold generateBundle. rewrite combineCss_concat.
    destruct (allCssContent st); [contradiction | reflexivity].
  - intros name css. reflexivity.
  - intros sourceA idA sourceB idB EA EB SA SB D stA stB.
    subst stB stA. rewrite !transform_state by assumption.
    rewrite !nonEmpty_true by assumption.
    cbn [buildStart allCssContent mapSet isProd].
    rewrite (jseqb_neq _ _ D).
    unfold generateBundle. cbn [allCssContent].
    rewrite combineCss_concat. cbn [List.map concat].
    rewrite app_nil_r. reflexivity.
Qed.

(** C8, amended: compiling a source without a style section emits the
    module with nothing in the place of the style-injection code, and
    leaves the map as it was: it gains no entry, and has none for the
    component if it had none before. *)
Theorem transform_without_style (st : plugin) (source id : jsstring) :
  endsWith id (lit ".olova") = true ->
  search styleMatch source = None ->
  let scriptContent := scriptContentOf source in
  let imports := resolveImports scriptContent in
  transform st source id
  = (Some (mkOutput
             (resultCode (componentNameOf id) (Hash.scopeId id) false imports
                []
                (escapeBackticks (rewriteTemplate imports (htmlContentOf source)))
                (cleanScript scriptContent))
             None),
     st) /\
  (mapGet (componentNameOf id) (allCssContent st) = None ->
   mapGet (componentNameOf id) (allCssContent (snd (transform st source id)))
   = None).
Proof.
  intros E S scriptContent imports.
  assert (T : transform st source id
              = (Some (mkOutput
                   (resultCode (componentNameOf id) (Hash.scopeId id) false
                      imports []
                      (escapeBackticks
                         (rewriteTemplate imports (htmlContentOf source)))
                      (cleanScript scriptContent))
                   None), st)).
  { unfold Plugin.transform. rewrite E. cbn [negb]. cbv zeta.
    unfold styleContentOf, isScopedOf. rewrite S. reflexivity. }
  split; [exact T|]. rewrite T. intros H. exact H.
Qed.


(** C3: the scope token is the same whenever it is computed for an
    identity. Run round by round, the loop of [simpleHash] always returns;
    any two runs on one identity return the same text, whose first eight
    code units are the token; and every compile of the identity, in
    whatever state the plugin is and whatever the file holds, builds the
    module and the stored style with the scope id made from that text. *)
Theorem scopeToken_deterministic (id : jsstring) :
  (exists result, HashRun.returns id result) /\
  (forall result1 result2,
     HashRun.returns id result1 -> HashRun.returns id result2 ->
     result1 = result2 /\
     substring result1 0 8 = Hash.scopeToken id /\
     lit "data-v-" ++ substring result2 0 8 = Hash.scopeId id) /\
  (forall result st source,
     HashRun.returns id result ->
     endsWith id (lit ".olova") = true ->
     let scopeId := lit "data-v-" ++ substring result 0 8 in
     let isScoped := isScopedOf source in
     let styleContent := styleContentOf source in
     let processedStyle := processedStyleOf isScoped styleContent scopeId in
     let imports := resolveImports (scriptContentOf source) in
     fst (transform st source id)
     = Some (mkOutput
               (resultCode (componentNameOf id) scopeId isScoped imports
                  (if nonEmpty styleContent && negb (isProd st) then
                     styleInjection (componentNameOf id) processedStyle
                   else [])
                  (escapeBackticks
                     (rewriteTemplate imports (htmlContentOf source)))
                  (cleanScript (scriptContentOf source)))
               None) /\
     (styleContent <> [] ->
      allCssContent (snd (transform st source id))
      = mapSet (componentNameOf id) processedStyle (allCssContent st))).
Proof.
  split; [|split].
  - exists (Hash.simpleHash id). apply HashTheory.returns_simpleHash.
  - intros result1 result2 R1 R2.
    apply HashTheory.returns_unique in R1.
    apply HashTheory.returns_unique in R2. subst.
    split; [reflexivity|]. split; reflexivity.
  - intros result st source R E. apply HashTheory.returns_unique in R.
    subst result. cbv zeta. split.
    + unfold Plugin.transform. rewrite E. reflexivity.
    + intros S. rewrite transform_state by exact E.
      rewrite nonEmpty_true by exact S. reflexivity.
Qed.

End Transform.

Lemma generateBundle_combined_asset_witness :
  let st := olovaPlugin None in
  let sourceA := lit "<style>.a{}</style>" in
  let sourceB := lit "<style>.b{}</style>" in
  let idA := lit "src/A.olova" in
  let idB := lit "src/B.olova" in
  let stA := snd (Host.compile (buildStart st) sourceA idA) in
  let stB := snd (Host.compile stA sourceB idB) in
  (allCssContent st = [] /\ allCssContent stB <> [] /\
   endsWith idA (lit ".olova") = true /\ endsWith idB (lit ".olova") = true /\
   styleContentOf sourceA <> [] /\ styleContentOf sourceB <> [] /\
   Host.nameOf idA <> Host.nameOf idB) /\
  generateBundle st = None /\
  generateBundle stB
  = Some (mkAsset (lit "assets/style.css")
            (concat (List.map styleBlock (allCssContent stB)))) /\
  generateBundle stB
  = Some (mkAsset (lit "assets/style.css")
            (ln "/* A Component Styles */" ++ nl ++ lit ".a{}" ++
             nl ++ nl ++ nl ++ nl ++
             ln "/* B Component Styles */" ++ nl ++ lit ".b{}" ++
             nl ++ nl ++ nl ++ nl)).
Proof.
  intros st sourceA sourceB idA idB stA stB.
  assert (E0 : allCssContent st = []) by reflexivity.
  assert (NB : allCssContent stB <> []) by (vm_compute; discriminate).
  assert (EA : endsWith idA (lit ".olova") = true)
    by (vm_compute; reflexivity).
  assert (EB : endsWith idB (lit ".olova") = true)
    by (vm_compute; reflexivity).
  assert (SA : styleContentOf sourceA <> []) by (vm_compute; discriminate).
  assert (SB : styleContentOf sourceB <> []) by (vm_compute; discriminate).
  assert (D : Host.nameOf idA <> Host.nameOf idB)
    by (vm_compute; discriminate).
  split; [repeat split; assumption|].
  destruct (generateBundle_combined_asset
              Host.basename Host.toUpperCase Host.toLowerCase st)
    as [G0 [_ [_ G2]]].
  destruct (generateBundle_combined_asset
              Host.basename Host.toUpperCase Host.toLowerCase stB)
    as [_ [G1 _]].
  split; [exact (G0 E0)|]. split; [exact (G1 NB)|].
  etransitivity; [exact (G2 sourceA idA sourceB idB EA EB SA SB D)|].
  vm_compute. reflexivity.
Defined.

(** C6 as stated fails: [src/a/Card.olova] and [src/b/Card.olova], both with
    styles, compiled in one build share the component name [Card] and so
    one entry of the map; the asset has one block, with the style of the
    file compiled last, and the style of the first is in it nowhere. *)
Lemma same_name_one_block :
  let st := olovaPlugin None in
  let sourceA := lit "<style>.a{}</style>" in
  let sourceB := lit "<style>.b{}</style>" in
  let idA := lit "src/a/Card.olova" in
  let idB := lit "src/b/Card.olova" in
  let stA := snd (Host.compile (buildStart st) sourceA idA) in
  let stB := snd (Host.compile stA sourceB idB) in
  generateBundle stB
  = Some (mkAsset (lit "assets/style.css")
            (ln "/* Card Component Styles */" ++ nl ++ lit ".b{}" ++
             nl ++ nl ++ nl ++ nl)) /\
  allCssContent stA = [(lit "Card", lit ".a{}")] /\
  allCssContent stB = [(lit "Card", lit ".b{}")] /\
  (forall a, generateBundle stB = Some a ->
             includes (source a) (lit ".a{}") = false).
Proof.
  intros st sourceA sourceB idA idB stA stB.
  assert (G : generateBundle stB
              = Some (mkAsset (lit "assets/style.css")
                        (ln "/* Card Component Styles */" ++ nl ++
                         lit ".b{}" ++ nl ++ nl ++ nl ++ nl)))
    by (vm_compute; reflexivity).
  split; [exact G|]. split; [vm_compute; reflexivity|].
  split; [vm_compute; reflexivity|].
  intros a H. rewrite G in H. injection H as <-. vm_compute. reflexivity.
Qed.

(** C8 as stated fails: after [src/Card.olova] was compiled with a style
    section, compiling it again without one leaves the entry of [Card] in
    the map. *)
Lemma stale_entry_remains :
  let st := buildStart (olovaPlugin None) in
  let id := lit "src/Card.olova" in
  let st1 := snd (Host.compile st (lit "<style>.x{}</style><p>Hi</p>") id) in
  let st2 := snd (Host.compile st1 (lit "<p>Hi</p>") id) in
  search styleMatch (lit "<p>Hi</p>") = None /\
  Host.nameOf id = lit "Card" /\
  mapGet (lit "Card") (allCssContent st2) = Some (lit ".x{}") /\
  mapGet (Host.nameOf id) (allCssContent st2) <> None.
Proof.
  intros st id st1 st2.
  split; [vm_compute; reflexivity|]. split; [vm_compute; reflexivity|].
  split; [vm_compute; reflexivity|].
  vm_compute. discriminate.
Qed.

Lemma transform_without_style_witness :
  let st := buildStart (olovaPlugin None) in
  let source := lit "<script>let n = 1;</script><h1>Hi</h1>" in
  let id := lit "src/card.olova" in
  (endsWith id (lit ".olova") = true /\ search styleMatch source = None /\
   mapGet (Host.nameOf id) (allCssContent st) = None) /\
  Host.compile st source id
  = (Some (mkOutput
             (Plugin.resultCode Host.toLowerCase (lit "Card")
                (Hash.scopeId id) false [] [] (lit "<h1>Hi</h1>")
                (lit "let n = 1;"))
             None),
     st) /\
  mapGet (Host.nameOf id)
    (allCssContent (snd (Host.compile st source id))) = None.
Proof.
  intros st source id.
  assert (E : endsWith id (lit ".olova") = true)
    by (vm_compute; reflexivity).
  assert (S : search styleMatch source = None) by (vm_compute; reflexivity).
  assert (M : mapGet (Host.nameOf id) (allCssContent st) = None)
    by (vm_compute; reflexivity).
  split; [repeat split; assumption|].
  destruct (transform_without_style
              Host.basename Host.toUpperCase Host.toLowerCase st source id E S)
    as [T K].
  split; [|exact (K M)].
  etransitivity; [exact T|].
  vm_compute. reflexivity.
Defined.



Lemma scopeToken_deterministic_witness :
  let id := lit "src/Card.olova" in
  let source := lit "<h1>Hi</h1><style scoped>h1 { color: red; }</style>" in
  let fresh := buildStart (olovaPlugin None) in
  let later := mkPlugin [(lit "Row", lit "p{}")] true in
  (HashRun.returns id (lit "5ad3ed2a") /\
   endsWith id (lit ".olova") = true /\
   Plugin.styleContentOf source <> []) /\
  allCssContent (snd (Host.compile fresh source id))
  = [(lit "Card", ln "[data-v-5ad3ed2a] h1 { color: red; }")] /\
  allCssContent (snd (Host.compile later source id))
  = [(lit "Row", lit "p{}");
     (lit "Card", ln "[data-v-5ad3ed2a] h1 { color: red; }")].
Proof.
  intros id source fresh later.
  assert (V : Hash.simpleHash id = lit "5ad3ed2a")
    by (vm_compute; reflexivity).
  assert (R : HashRun.returns id (lit "5ad3ed2a")).
  { rewrite <- V. apply HashTheory.returns_simpleHash. }
  assert (E : endsWith id (lit ".olova") = true)
    by (vm_compute; reflexivity).
  assert (S : Plugin.styleContentOf source <> [])
    by (vm_compute; discriminate).
  split; [split; [exact R | split; [exact E | exact S]]|].
  destruct (scopeToken_deterministic
              Host.basename Host.toUpperCase Host.toLowerCase id)
    as [_ [_ C]].
  split.
  - etransitivity; [exact (proj2 (C _ fresh source R E) S)|].
    vm_compute. reflexivity.
  - etransitivity; [exact (proj2 (C _ later source R E) S)|].
    vm_compute. reflexivity.
Defined.

End PluginTheory.

Module RuntimeTheory.
Import Runtime.

Section Mount.

Variables dom node props exn : Type.
Variable querySelector : dom -> jsstring -> lookup node exn.
Variable clearContent : node -> dom -> dom.
Variable emptyProps : props.

Local Abbreviation mount :=
  (Runtime.mount dom node props exn querySelector clearContent emptyProps).

(** C7, amended: for a selector [querySelector] accepts: when it finds no
    node, [mount] tells the console and returns a teardown that does
    nothing, whatever the factory is; when it finds a node, [mount] empties
    the node, calls the factory on it and returns what the factory returns.
    For a selector [querySelector] rejects, [mount] throws what
    [querySelector] threw: nothing is told to the console, the page stays
    as it was, the factory is not called and no teardown is returned. One
    of the three holds of every selector. *)
Theorem mount_hit_or_miss (componentMount : factory dom node props exn)
  (selector : jsstring) (props0 : option props) (pg : page dom) :
  (querySelector (document pg) selector = NotFound ->
   mount componentMount selector props0 pg
   = Normal noop
       (mkPage (document pg)
          (consoleErrors pg ++
             [lit "Target element " ++ dquote ++ selector ++ dquote ++
              lit " not found"])) /\
   (forall p : page dom, noop p = p) /\
   (forall other : factory dom node props exn,
      mount other selector props0 pg
      = mount componentMount selector props0 pg)) /\
  (forall target,
     querySelector (document pg) selector = Found target ->
     let cleared :=
       mkPage (clearContent target (document pg)) (consoleErrors pg) in
     let given := match props0 with Some v => v | None => emptyProps end in
     mount componentMount selector props0 pg
     = componentMount target given cleared /\
     (forall unmount pg',
        componentMount target given cleared = Normal unmount pg' ->
        mount componentMount selector props0 pg = Normal unmount pg')) /\
  (forall e,
     querySelector (document pg) selector = BadSelector e ->
     mount componentMount selector props0 pg = Throw e pg /\
     (forall unmount pg',
        mount componentMount selector props0 pg <> Normal unmount pg') /\
     (forall other : factory dom node props exn,
        mount other selector props0 pg
        = mount componentMount selector props0 pg)) /\
  (querySelector (document pg) selector = NotFound \/
   (exists target, querySelector (document pg) selector = Found target) \/
   (exists e, querySelector (document pg) selector = BadSelector e)).
Proof.
  split; [|split; [|split]].
  - intros H. unfold Runtime.mount. rewrite H.
    split; [reflexivity|]. split; reflexivity.
  - intros target H cleared given. unfold Runtime.mount. rewrite H.
    split; [reflexivity|]. intros unmount pg' R. exact R.
  - intros e H. unfold Runtime.mount. rewrite H.
    split; [reflexivity|]. split; [|reflexivity].
    intros unmount pg' R. discriminate R.
  - destruct (querySelector (document pg) selector) as [target| |e].
    + right. left. exists target. reflexivity.
    + left. reflexivity.
    + right. right. exists e. reflexivity.
Qed.

End Mount.

Lemma mount_hit_or_miss_witness :
  let pg := mkPage [(lit "#app", lit "<i>old</i>")] [] in
  (Host.querySelector (document pg) (lit "#nope") = NotFound /\
   Host.querySelector (document pg) (lit "#app") = Found (lit "#app") /\
   Host.querySelector (document pg) [] = BadSelector tt) /\
  Host.mountPage Host.greeting (lit "#nope") None pg
  = Normal noop
      (mkPage [(lit "#app", lit "<i>old</i>")]
         [lit "Target element " ++ dquote ++ lit "#nope" ++ dquote ++
          lit " not found"]) /\
  Host.mountPage Host.greeting (lit "#app") None pg
  = Host.greeting (lit "#app") tt (mkPage [(lit "#app", [])] []) /\
  Host.mountPage Host.greeting [] None pg = Throw tt pg.
Proof.
  intros pg.
  assert (M : Host.querySelector (document pg) (lit "#nope") = NotFound)
    by reflexivity.
  assert (F : Host.querySelector (document pg) (lit "#app") = Found (lit "#app"))
    by reflexivity.
  assert (B : Host.querySelector (document pg) [] = BadSelector tt)
    by reflexivity.
  split; [split; [exact M | split; [exact F | exact B]]|].
  split; [|split].
  - destruct (mount_hit_or_miss Host.dom jsstring unit unit
                Host.querySelector Host.clearContent tt
                Host.greeting (lit "#nope") None pg) as [A _].
    exact (proj1 (A M)).
  - destruct (mount_hit_or_miss Host.dom jsstring unit unit
                Host.querySelector Host.clearContent tt
                Host.greeting (lit "#app") None pg) as [_ [A _]].
    exact (proj1 (A (lit "#app") F)).
  - destruct (mount_hit_or_miss Host.dom jsstring unit unit
                Host.querySelector Host.clearContent tt
                Host.greeting [] None pg) as [_ [_ [A _]]].
    exact (proj1 (A tt B)).
Defined.

(** C7 as stated fails at the empty selector, which [querySelector]
    rejects: it matches no node, yet [mount] reports nothing and returns
    no teardown; it throws. *)
Lemma empty_selector_throws :
  let pg := mkPage [(lit "#app", lit "<i>old</i>")] [] in
  Host.mountPage Host.greeting [] None pg = Throw tt pg /\
  (forall target,
     Host.querySelector (document pg) [] <> Found target) /\
  (forall unmount pg',
     Host.mountPage Host.greeting [] None pg <> Normal unmount pg') /\
  consoleErrors pg = [].
Proof.
  intros pg. split; [reflexivity|]. split; [|split; [|reflexivity]].
  - intros target H. discriminate H.
  - intros unmount pg' H. discriminate H.
Qed.

End RuntimeTheory.

(** * Further properties *)

(** ** [simpleHash] *)

Module HashMore.
Import Hash.
Import More.
Import HashTheory.

Lemma hashStep_mul (hash char : Z) :
  hashStep hash char = toInt32 (hash * 31 + char).
Proof. rewrite hashStep_amended. apply amendedStep_mul. Qed.

Lemma hashLoop_snoc (str : jsstring) (char : Z) :
  hashLoop (str ++ [char]) = hashStep (hashLoop str) char.
Proof. unfold hashLoop. rewrite fold_left_app. reflexivity. Qed.

Lemma polyHash_snoc (str : jsstring) (char : Z) :
  polyHash (str ++ [char]) = polyHash str * 31 + char.
Proof. unfold polyHash. rewrite fold_left_app. reflexivity. Qed.

(** Wrapping after every round gives what wrapping once at the end gives:
    the hash is the polynomial hash of the code units at 31, as a signed
    32-bit integer. *)
Theorem hashLoop_wraps_once (str : jsstring) :
  hashLoop str = toInt32 (polyHash str).
Proof.
  induction str as [|char str IH] using rev_ind.
  - reflexivity.
  - rewrite hashLoop_snoc, polyHash_snoc, hashStep_mul, IH.
    destruct (toInt32_offset (polyHash str)) as [k E].
    apply (toInt32_congr _ _ (31 * k)). lia.
Qed.

(** *** The rendered hash *)

Lemma toHexDigits_length (fuel : nat) :
  forall n acc (k : nat), 0 <= n < 16 ^ Z.of_nat k -> (1 <= k)%nat ->
    (length (toHexDigits fuel n acc) <= k + length acc)%nat.
Proof.
  induction fuel as [|fuel IH]; intros n acc k Hn Hk; cbn [toHexDigits].
  - lia.
  - destruct (Z.eqb_spec (n / 16) 0) as [Z0|NZ].
    + cbn [length]. lia.
    + destruct k as [|k]; [lia|].
      assert (Q : 0 <= n / 16) by (apply Z.div_pos; lia).
      rewrite Nat2Z.inj_succ, Z.pow_succ_r in Hn by lia.
      assert (U : n / 16 < 16 ^ Z.of_nat k)
        by (apply Z.div_lt_upper_bound; lia).
      destruct k as [|k].
      { change (16 ^ Z.of_nat 0) with 1 in U. lia. }
      specialize (IH (n / 16) (hexDigit (n mod 16) :: acc) (S k)
                    (conj Q U) ltac:(lia)).
      cbn [length] in IH. lia.
Qed.

Lemma toHexDigits_nonempty (fuel : nat) :
  forall n acc, toHexDigits (S fuel) n acc <> [].
Proof.
  induction fuel as [|fuel IH]; intros n acc.
  - cbn [toHexDigits]. destruct (n / 16 =? 0); discriminate.
  - change (toHexDigits (S (S fuel)) n acc)
      with (if n / 16 =? 0 then hexDigit (n mod 16) :: acc
            else toHexDigits (S fuel) (n / 16) (hexDigit (n mod 16) :: acc)).
    destruct (n / 16 =? 0); [discriminate | apply IH].
Qed.

Lemma substring_all (s : jsstring) (b : Z) :
  len s <= b -> substring s 0 b = s.
Proof.
  intros H. unfold substring, clamp.
  assert (L : 0 <= len s) by (unfold len; lia).
  replace (Z.min (Z.max 0 0) (len s)) with 0 by lia.
  replace (Z.min (Z.max b 0) (len s)) with (len s) by lia.
  replace (Z.min 0 (len s)) with 0 by lia.
  replace (Z.max 0 (len s)) with (len s) by lia.
  cbn [Z.to_nat skipn]. rewrite Z.sub_0_r. unfold len. rewrite Nat2Z.id.
  apply firstn_all.
Qed.

(** [simpleHash] returns between one and eight lower-case hexadecimal
    digits that denote the absolute value of the hash, so the
    [substring(0, 8)] of [transform] never cuts anything off. *)
Theorem simpleHash_shape (str : jsstring) :
  Forall isHexDigit (simpleHash str) /\
  (1 <= length (simpleHash str) <= 8)%nat /\
  parseHex (simpleHash str) = Z.abs (hashLoop str) /\
  scopeToken str = simpleHash str.
Proof.
  pose proof (hashLoop_range str) as R.
  assert (L : (length (simpleHash str) <= 8)%nat).
  { unfold simpleHash, toString16.
    pose proof (toHexDigits_length (S (Z.to_nat (Z.log2 (Z.abs (hashLoop str)))))
                  (Z.abs (hashLoop str)) [] 8) as H.
    cbn [length] in H. rewrite Nat.add_0_r in H. apply H; [|lia].
    change (16 ^ Z.of_nat 8) with 4294967296. lia. }
  split; [apply toString16_hex|]. split; [split; [|exact L]|split].
  - unfold simpleHash, toString16.
    pose proof (toHexDigits_nonempty (Z.to_nat (Z.log2 (Z.abs (hashLoop str))))
                  (Z.abs (hashLoop str)) []) as N.
    destruct (toHexDigits _ _ _); [contradiction | cbn; lia].
  - apply parseHex_toString16. lia.
  - unfold scopeToken. apply substring_all. unfold len. lia.
Qed.

(** *** Collisions *)

Lemma hashLoop_app (a b : jsstring) :
  hashLoop (a ++ b) = fold_left hashStep b (hashLoop a).
Proof. unfold hashLoop. apply fold_left_app. Qed.

(** The token does not tell identities apart that differ by [Aa] against
    [BB] at any place: two different files can share a scope id. *)
Theorem scopeId_collides (before after : jsstring) :
  before ++ lit "Aa" ++ after <> before ++ lit "BB" ++ after /\
  scopeId (before ++ lit "Aa" ++ after) = scopeId (before ++ lit "BB" ++ after).
Proof.
  split.
  - intros E. apply app_inv_head in E. discriminate E.
  - assert (E : forall h, fold_left hashStep (lit "Aa") h
                          = fold_left hashStep (lit "BB") h).
    { intros h. change (lit "Aa") with [65; 97].
      change (lit "BB") with [66; 66].
      cbn [fold_left]. rewrite !hashStep_mul.
      destruct (toInt32_offset (h * 31 + 65)) as [k1 E1].
      destruct (toInt32_offset (h * 31 + 66)) as [k2 E2].
      apply (toInt32_congr _ _ (31 * k1 - 31 * k2)). lia. }
    assert (H : hashLoop (before ++ lit "Aa" ++ after)
                = hashLoop (before ++ lit "BB" ++ after)).
    { rewrite !hashLoop_app, !fold_left_app, E. reflexivity. }
    unfold scopeId, scopeToken, simpleHash. rewrite H. reflexivity.
Qed.

End HashMore.

(** ** The map of styles across [transform] calls *)

Module MapMore.
Import Sfc.
Import Plugin.
Import More.
Import PluginTheory.

Lemma jseqb_refl (a : jsstring) : jseqb a a = true.
Proof. apply jseqb_eq. reflexivity. Qed.

Lemma mapGet_mapSet_same (k v : jsstring) (m : cssMap) :
  mapGet k (mapSet k v m) = Some v.
Proof.
  induction m as [|[k' v'] m IH]; cbn [mapSet mapGet].
  - rewrite jseqb_refl. reflexivity.
  - destruct (jseqb k' k) eqn:E; cbn [mapGet].
    + rewrite jseqb_refl. reflexivity.
    + rewrite E. exact IH.
Qed.

Lemma mapGet_mapSet_other (k k' v : jsstring) (m : cssMap) :
  k' <> k -> mapGet k' (mapSet k v m) = mapGet k' m.
Proof.
  intros N. induction m as [|[k0 v0] m IH]; cbn [mapSet mapGet].
  - rewrite (jseqb_neq k k') by congruence. reflexivity.
  - destruct (jseqb k0 k) eqn:E; cbn [mapGet].
    + apply jseqb_eq in E. subst k0.
      rewrite (jseqb_neq k k') by congruence. reflexivity.
    + destruct (jseqb k0 k'); [reflexivity | exact IH].
Qed.

Lemma keys_mapSet_present (k v : jsstring) (m : cssMap) :
  In k (keys m) -> keys (mapSet k v m) = keys m.
Proof.
  unfold keys. induction m as [|[k0 v0] m IH]; intros I; [contradiction|].
  cbn [mapSet]. destruct (jseqb k0 k) eqn:E.
  - apply jseqb_eq in E. subst k0. reflexivity.
  - cbn [List.map fst] in *. f_equal. apply IH.
    destruct I as [I|I]; [|exact I].
    subst k0. rewrite jseqb_refl in E. discriminate.
Qed.

Lemma keys_mapSet_absent (k v : jsstring) (m : cssMap) :
  ~ In k (keys m) -> keys (mapSet k v m) = keys m ++ [k].
Proof.
  unfold keys. induction m as [|[k0 v0] m IH]; intros N; [reflexivity|].
  cbn [mapSet]. destruct (jseqb k0 k) eqn:E.
  - apply jseqb_eq in E. subst k0. exfalso. apply N. left. reflexivity.
  - cbn [List.map fst app] in *. f_equal. apply IH.
    intros I. apply N. right. exact I.
Qed.

Lemma NoDup_snoc {T : Type} (l : list T) (x : T) :
  NoDup l -> ~ In x l -> NoDup (l ++ [x]).
Proof.
  intros D N. induction D as [|y l Ny D IH]; cbn [app].
  - constructor; [intros []|constructor].
  - constructor.
    + intros I. apply in_app_or in I. destruct I as [I|[I|[]]].
      * contradiction.
      * subst y. apply N. left. reflexivity.
    + apply IH. intros I. apply N. right. exact I.
Qed.

Lemma keys_mapSet_NoDup (k v : jsstring) (m : cssMap) :
  NoDup (keys m) -> NoDup (keys (mapSet k v m)).
Proof.
  intros D. destruct (in_dec (list_eq_dec Z.eq_dec) k (keys m)) as [I|N].
  - rewrite keys_mapSet_present by exact I. exact D.
  - rewrite keys_mapSet_absent by exact N. apply NoDup_snoc; assumption.
Qed.

Section Transform.

Variable basename : jsstring -> jsstring -> jsstring.
Variable toUpperCase : jsstring -> jsstring.
Variable toLowerCase : jsstring -> jsstring.

Local Abbreviation transform :=
  (Plugin.transform basename toUpperCase toLowerCase).
Local Abbreviation componentNameOf :=
  (Plugin.componentNameOf basename toUpperCase).
Local Abbreviation resultCode := (Plugin.resultCode toLowerCase).

(** The state after [transform], whatever the identity is. *)
Lemma transform_state_cases (st : plugin) (source id : jsstring) :
  snd (transform st source id) = st \/
  snd (transform st source id)
  = mkPlugin
      (mapSet (componentNameOf id)
         (processedStyleOf (isScopedOf source) (styleContentOf source)
            (Hash.scopeId id))
         (allCssContent st))
      (isProd st).
Proof.
  unfold Plugin.transform.
  destruct (endsWith id (lit ".olova")); cbn [negb]; [|left; reflexivity].
  cbv zeta. destruct (nonEmpty (styleContentOf source)); cbn [snd]; auto.
Qed.

(** A compile stores the processed style of a component with style content
    under the component's name, and never touches the entry of another
    name nor the production flag. *)
Theorem transform_own_entry (st : plugin) (source id : jsstring) :
  (endsWith id (lit ".olova") = true -> styleContentOf source <> [] ->
   mapGet (componentNameOf id) (allCssContent (snd (transform st source id)))
   = Some (processedStyleOf (isScopedOf source) (styleContentOf source)
             (Hash.scopeId id))) /\
  (forall other, other <> componentNameOf id ->
     mapGet other (allCssContent (snd (transform st source id)))
     = mapGet other (allCssContent st)) /\
  isProd (snd (transform st source id)) = isProd st.
Proof.
  split; [|split].
  - intros E S. rewrite transform_state by exact E.
    rewrite nonEmpty_true by exact S. cbn [allCssContent].
    apply mapGet_mapSet_same.
  - intros other N.
    destruct (transform_state_cases st source id) as [-> | ->];
      [reflexivity|]. cbn [allCssContent].
    apply mapGet_mapSet_other. exact N.
  - destruct (transform_state_cases st source id) as [-> | ->]; reflexivity.
Qed.

Lemma transform_NoDup (st : plugin) (source id : jsstring) :
  NoDup (keys (allCssContent st)) ->
  NoDup (keys (allCssContent (snd (transform st source id)))).
Proof.
  intros D.
  destruct (transform_state_cases st source id) as [-> | ->];
    [exact D|]. cbn [allCssContent]. apply keys_mapSet_NoDup, D.
Qed.

(** A compile keeps the order of the names in the map: a name that has
    an entry keeps its place, a new name goes to the end; and no name
    ever has two entries. *)
Theorem transform_keeps_order (st : plugin) (source id : jsstring) :
  (endsWith id (lit ".olova") = true -> styleContentOf source <> [] ->
   (In (componentNameOf id) (keys (allCssContent st)) ->
    keys (allCssContent (snd (transform st source id)))
    = keys (allCssContent st)) /\
   (~ In (componentNameOf id) (keys (allCssContent st)) ->
    keys (allCssContent (snd (transform st source id)))
    = keys (allCssContent st) ++ [componentNameOf id])) /\
  (NoDup (keys (allCssContent st)) ->
   NoDup (keys (allCssContent (snd (transform st source id))))).
Proof.
  split.
  - intros E S. rewrite transform_state by exact E.
    rewrite nonEmpty_true by exact S. cbn [allCssContent]. split.
    + apply keys_mapSet_present.
    + apply keys_mapSet_absent.
  - apply transform_NoDup.
Qed.

Local Abbreviation compileAll :=
  (More.compileAll basename toUpperCase toLowerCase).

(** Through a whole build, from [buildStart] on, no component name gets
    two entries, so the combined stylesheet has one block for each name. *)
Theorem build_names_unique (st : plugin) (files : list (jsstring * jsstring)) :
  NoDup (keys (allCssContent (compileAll (buildStart st) files))).
Proof.
  unfold More.compileAll.
  apply (HashTheory.fold_left_invariant
           (fun s => NoDup (keys (allCssContent s)))).
  - intros s file D. apply transform_NoDup, D.
  - constructor.
Qed.

(** A build in which no file has style content emits no stylesheet and
    leaves the HTML entry document as it is. *)
Theorem build_without_styles (st : plugin) (files : list (jsstring * jsstring))
  (html : jsstring) :
  (forall file, In file files -> styleContentOf (fst file) = []) ->
  generateBundle (compileAll (buildStart st) files) = None /\
  transformIndexHtml (compileAll (buildStart st) files) html = html.
Proof.
  intros H.
  assert (E : allCssContent (compileAll (buildStart st) files) = []).
  { unfold More.compileAll.
    assert (G : forall s, allCssContent s = [] ->
              allCssContent
                (fold_left
                   (fun s0 file =>
                      snd (transform s0 (fst file) (snd file))) files s) = []).
    { induction files as [|file files IH]; intros s Es; [exact Es|].
      cbn [fold_left]. apply IH.
      - intros f I. apply H. right. exact I.
      - unfold Plugin.transform.
        destruct (endsWith (snd file) (lit ".olova")); cbn [negb];
          [|exact Es].
        cbv zeta. rewrite (H file (or_introl eq_refl)). exact Es. }
    apply G. reflexivity. }
  unfold generateBundle, transformIndexHtml. rewrite E. split; reflexivity.
Qed.

End Transform.

Lemma transform_own_entry_witness :
  let st := buildStart (olovaPlugin None) in
  let source := lit "<h1>Hi</h1><style>h1{color:red}</style>" in
  let id := lit "src/card.olova" in
  (endsWith id (lit ".olova") = true /\ styleContentOf source <> [] /\
   lit "Row" <> Host.nameOf id) /\
  mapGet (Host.nameOf id) (allCssContent (snd (Host.compile st source id)))
  = Some (lit "h1{color:red}") /\
  mapGet (lit "Row") (allCssContent (snd (Host.compile st source id)))
  = None /\
  isProd (snd (Host.compile st source id)) = false.
Proof.
  intros st source id.
  assert (E : endsWith id (lit ".olova") = true) by (vm_compute; reflexivity).
  assert (S : styleContentOf source <> []) by (vm_compute; discriminate).
  assert (N : lit "Row" <> Host.nameOf id) by (vm_compute; discriminate).
  split; [repeat split; assumption|].
  destruct (transform_own_entry
              Host.basename Host.toUpperCase Host.toLowerCase st source id)
    as [A [B C]].
  split; [etransitivity; [exact (A E S) | vm_compute; reflexivity]|].
  split; [etransitivity; [exact (B (lit "Row") N) | vm_compute; reflexivity]|].
  etransitivity; [exact C | reflexivity].
Defined.

Lemma transform_keeps_order_witness :
  let st := mkPlugin [(lit "Row", lit "p{}")] false in
  let source := lit "<h1>Hi</h1><style>h1{color:red}</style>" in
  let id := lit "src/card.olova" in
  (endsWith id (lit ".olova") = true /\ styleContentOf source <> [] /\
   ~ In (Host.nameOf id) (keys (allCssContent st)) /\
   NoDup (keys (allCssContent st))) /\
  keys (allCssContent (snd (Host.compile st source id)))
  = [lit "Row"; lit "Card"] /\
  NoDup (keys (allCssContent (snd (Host.compile st source id)))).
Proof.
  intros st source id.
  assert (E : endsWith id (lit ".olova") = true) by (vm_compute; reflexivity).
  assert (S : styleContentOf source <> []) by (vm_compute; discriminate).
  assert (N : ~ In (Host.nameOf id) (keys (allCssContent st))).
  { vm_compute. intros [H|[]]. discriminate H. }
  assert (D : NoDup (keys (allCssContent st))).
  { change (NoDup [lit "Row"]). constructor; [intros []|constructor]. }
  split; [repeat split; assumption|].
  destruct (transform_keeps_order
              Host.basename Host.toUpperCase Host.toLowerCase st source id)
    as [A B].
  destruct (A E S) as [_ A2].
  split; [etransitivity; [exact (A2 N) | vm_compute; reflexivity]|].
  exact (B D).
Defined.

Lemma build_without_styles_witness :
  let st := olovaPlugin None in
  let files :=
    [(lit "<h1>Hi</h1>", lit "src/card.olova");
     (lit "<script>let n = 1;</script><p>x</p>", lit "src/row.olova")] in
  let html := lit "<head></head>" in
  let built :=
    More.compileAll Host.basename Host.toUpperCase Host.toLowerCase
      (buildStart st) files in
  (forall file, In file files -> styleContentOf (fst file) = []) /\
  generateBundle built = None /\
  transformIndexHtml built html = html.
Proof.
  intros st files html built.
  assert (H : forall file, In file files -> styleContentOf (fst file) = []).
  { intros file [<-|[<-|[]]]; vm_compute; reflexivity. }
  split; [exact H|].
  exact (build_without_styles
           Host.basename Host.toUpperCase Host.toLowerCase st files html H).
Defined.

End MapMore.

(** ** Searching in strings *)

Module StringMore.

Lemma startsWith_app (w s : jsstring) : startsWith (w ++ s) w = true.
Proof.
  induction w as [|c w IH]; [destruct s; reflexivity|].
  cbn [app startsWith]. rewrite Z.eqb_refl. exact IH.
Qed.

Lemma startsWith_split (w : jsstring) :
  forall s, startsWith s w = true -> s = w ++ skipn (length w) s.
Proof.
  induction w as [|c w IH]; intros s H; [reflexivity|].
  destruct s as [|d s]; [discriminate H|].
  cbn [startsWith] in H. apply andb_prop in H. destruct H as [E H].
  apply Z.eqb_eq in E. subst d. cbn [app length skipn]. f_equal.
  apply IH, H.
Qed.

Lemma startsWith_nil (s : jsstring) : startsWith s [] = true.
Proof. destruct s; reflexivity. Qed.

(** Only the first [length w] code units matter. *)
Lemma startsWith_long (w : jsstring) :
  forall u s, (length w <= length u)%nat ->
              startsWith (u ++ s) w = startsWith u w.
Proof.
  induction w as [|c w IH]; intros u s L.
  - rewrite !startsWith_nil. reflexivity.
  - destruct u as [|d u]; [cbn in L; lia|].
    cbn [app startsWith]. rewrite IH by (cbn in L; lia). reflexivity.
Qed.

(** Before the index [indexOf] returns, the text sought begins nowhere. *)
Lemma indexFrom_first (w s : jsstring) :
  forall a i, indexFrom i (a ++ s) w = i + len a ->
    forall a1 a2, a = a1 ++ a2 -> a2 <> [] -> startsWith (a2 ++ s) w = false.
Proof.
  induction a as [|c a IH]; intros i H a1 a2 E N.
  - destruct a1; [|discriminate E]. cbn in E. subst a2. contradiction.
  - cbn [app indexFrom] in H.
    assert (L : len (c :: a) = len a + 1) by (unfold len; cbn [length]; lia).
    assert (L0 : 0 <= len a) by (unfold len; lia).
    destruct (startsWith (c :: a ++ s) w) eqn:S; [lia|].
    destruct a1 as [|d a1].
    + cbn in E. subst a2. exact S.
    + cbn [app] in E. injection E as -> E.
      apply (IH (i + 1)) with (a1 := a1); [lia | exact E | exact N].
Qed.

Lemma indexFrom_none (w : jsstring) :
  forall s i, 0 <= i -> indexFrom i s w = -1 ->
    forall a b, s = a ++ b -> startsWith b w = false.
Proof.
  induction s as [|c s IH]; intros i Hi H a b E.
  - destruct a; [|discriminate E]. cbn in E. subst b.
    cbn [indexFrom] in H. destruct (startsWith [] w); [lia | reflexivity].
  - cbn [indexFrom] in H.
    destruct (startsWith (c :: s) w) eqn:S; [lia|].
    destruct a as [|d a].
    + cbn in E. subst b. exact S.
    + cbn [app] in E. injection E as -> E.
      apply (IH (i + 1)) with (a := a); [lia | exact H | exact E].
Qed.

Lemma indexFrom_bounds (w : jsstring) :
  forall s i, 0 <= i -> indexFrom i s w = -1 \/ i <= indexFrom i s w.
Proof.
  induction s as [|c s IH]; intros i Hi; cbn [indexFrom].
  - destruct (startsWith [] w); [right; lia | left; reflexivity].
  - destruct (startsWith (c :: s) w); [right; lia|].
    destruct (IH (i + 1) ltac:(lia)); [left; assumption | right; lia].
Qed.

(** A text in which [w] does not occur has no place where [w] begins. *)
Lemma includes_false (s w : jsstring) :
  includes s w = false ->
  forall a b, s = a ++ b -> startsWith b w = false.
Proof.
  unfold includes, indexOf. intros H. apply negb_false_iff, Z.eqb_eq in H.
  apply (indexFrom_none w s 0); [lia | exact H].
Qed.

Lemma includes_suffix (s w a b : jsstring) :
  s = a ++ b -> includes s w = false -> includes b w = false.
Proof.
  intros E H. unfold includes, indexOf.
  destruct (indexFrom_bounds w b 0 ltac:(lia)) as [N|P].
  - rewrite N. reflexivity.
  - exfalso.
    assert (G : forall t i, 0 <= i -> i <= indexFrom i t w ->
                exists x y, t = x ++ y /\ startsWith y w = true).
    { induction t as [|c t IH]; intros i Hi Q; cbn [indexFrom] in Q.
      - destruct (startsWith [] w) eqn:S; [|lia].
        exists [], []. split; [reflexivity | exact S].
      - destruct (startsWith (c :: t) w) eqn:S.
        + exists [], (c :: t). split; [reflexivity | exact S].
        + destruct (indexFrom_bounds w t (i + 1) ltac:(lia)) as [B|B];
            [lia|].
          destruct (IH (i + 1) ltac:(lia) B) as [x [y [Et Sy]]].
          exists (c :: x), y. split; [rewrite Et; reflexivity | exact Sy]. }
    destruct (G b 0 ltac:(lia) P) as [x [y [Eb Sy]]].
    pose proof (includes_false s w H (a ++ x) y) as F.
    rewrite F in Sy; [discriminate|]. rewrite E, Eb, app_assoc. reflexivity.
Qed.

Lemma substring_prefix (a b : jsstring) : substring (a ++ b) 0 (len a) = a.
Proof.
  unfold substring, clamp, len. rewrite length_app.
  replace (Z.min (Z.max 0 0) (Z.of_nat (length a + length b))) with 0 by lia.
  replace (Z.min (Z.max (Z.of_nat (length a)) 0)
             (Z.of_nat (length a + length b)))
    with (Z.of_nat (length a)) by lia.
  replace (Z.min 0 (Z.of_nat (length a))) with 0 by lia.
  replace (Z.max 0 (Z.of_nat (length a))) with (Z.of_nat (length a)) by lia.
  cbn [Z.to_nat skipn]. rewrite Z.sub_0_r, Nat2Z.id.
  rewrite firstn_app, firstn_all, Nat.sub_diag. cbn. apply app_nil_r.
Qed.

Lemma substringFrom_suffix (a b : jsstring) :
  substringFrom (a ++ b) (len a) = b.
Proof.
  unfold substringFrom, substring, clamp, len. rewrite length_app.
  replace (Z.min (Z.max (Z.of_nat (length a)) 0)
             (Z.of_nat (length a + length b)))
    with (Z.of_nat (length a)) by lia.
  replace (Z.min (Z.max (Z.of_nat (length a + length b)) 0)
             (Z.of_nat (length a + length b)))
    with (Z.of_nat (length a + length b)) by lia.
  replace (Z.min (Z.of_nat (length a)) (Z.of_nat (length a + length b)))
    with (Z.of_nat (length a)) by lia.
  replace (Z.max (Z.of_nat (length a)) (Z.of_nat (length a + length b)))
    with (Z.of_nat (length a + length b)) by lia.
  rewrite Nat2Z.id.
  replace (Z.to_nat (Z.of_nat (length a + length b) - Z.of_nat (length a)))
    with (length b) by lia.
  rewrite skipn_app, skipn_all, Nat.sub_diag. cbn. apply firstn_all.
Qed.

(** [replace] with a string pattern and a replacement without dollar
    signs, when the first occurrence is known. *)
Lemma replaceString_at (a w b r : jsstring) :
  indexOf (a ++ w ++ b) w = len a -> ~ In 36 r ->
  replaceString (a ++ w ++ b) w r = a ++ r ++ b.
Proof.
  intros I D. unfold replaceString. cbv zeta. rewrite I.
  assert (L : 0 <= len a) by (unfold len; lia).
  destruct (Z.eqb_spec (len a) (-1)) as [E|_]; [lia|].
  rewrite substring_prefix.
  replace (len a + len w) with (len (a ++ w))
    by (unfold len; rewrite length_app; lia).
  rewrite (app_assoc a w b), substringFrom_suffix.
  rewrite CssTheory.getSubstitution_plain by exact D. reflexivity.
Qed.

Lemma replaceString_absent (s w r : jsstring) :
  includes s w = false -> replaceString s w r = s.
Proof.
  unfold includes, replaceString. intros H.
  apply negb_false_iff in H. rewrite H. reflexivity.
Qed.

End StringMore.

(** ** More on the matcher *)

Module RegexMore.
Import StringMore.
Import RegexTheory.

Section Matcher.
Context {A : Type}.
Implicit Types (k : jsstring -> captures -> option A) (v : A).

(** A run of literal characters matches where the text begins with it. *)
Lemma matcher_str_spec (w : jsstring) :
  forall s cs k,
    matcher (str w) s cs k
    = if startsWith s w then k (skipn (length w) s) cs else None.
Proof.
  induction w as [|c w IH]; intros s cs k.
  - rewrite startsWith_nil. reflexivity.
  - assert (E : matcher (str (c :: w)) s cs k
                = matcher (Chr c) s cs (fun s1 cs1 => matcher (str w) s1 cs1 k)).
    { destruct w; reflexivity. }
    rewrite E. cbn [matcher]. destruct s as [|d s]; [reflexivity|].
    cbn [startsWith length skipn]. rewrite (Z.eqb_sym c d).
    destruct (d =? c); [apply IH | reflexivity].
Qed.

Lemma star_split (p : Z -> bool) (k : jsstring -> option A) v :
  forall s, star p s k = Some v ->
  exists x s', s = x ++ s' /\ forallb p x = true /\ k s' = Some v.
Proof.
  induction s as [|c s IH]; cbn [star]; intros H.
  - exists [], []. auto.
  - destruct (p c) eqn:Pc.
    + unfold orElse in H. destruct (star p s k) as [w|] eqn:E.
      * destruct (IH H) as [x [s' [Es [Fx K]]]].
        exists (c :: x), s'. cbn [forallb app]. rewrite Pc, Es. auto.
      * exists [], (c :: s). auto.
    + exists [], (c :: s). auto.
Qed.

Lemma lazyStar_split (p : Z -> bool) (k : jsstring -> option A) v :
  forall s, lazyStar p s k = Some v ->
  exists x s', s = x ++ s' /\ forallb p x = true /\ k s' = Some v.
Proof.
  induction s as [|c s IH]; cbn [lazyStar]; intros H.
  - destruct (k []) as [w|] eqn:E; [|discriminate].
    exists [], []. split; [reflexivity|]. split; [reflexivity | congruence].
  - destruct (k (c :: s)) as [w|] eqn:E.
    + exists [], (c :: s). split; [reflexivity|].
      split; [reflexivity | congruence].
    + destruct (p c) eqn:Pc; [|discriminate].
      destruct (IH H) as [x [s' [Es [Fx K]]]].
      exists (c :: x), s'. cbn [forallb app]. rewrite Pc, Es. auto.
Qed.

(** Whatever a pattern matches is a prefix of the text: the continuation
    is called on what is left after it. *)
Lemma matcher_split (r : regex) :
  forall s cs k v,
    matcher r s cs k = Some v ->
    exists x s' cs', s = x ++ s' /\ k s' cs' = Some v.
Proof.
  induction r as [|c|p|r1 IH1 r2 IH2|r1 IH1 r2 IH2|p|p|r1 IH1|n r1 IH1];
    intros s cs k v H; cbn [matcher] in H.
  - exists [], s, cs. auto.
  - destruct s as [|d s]; [discriminate|].
    destruct (d =? c); [|discriminate]. exists [d], s, cs. auto.
  - destruct s as [|d s]; [discriminate|].
    destruct (p d); [|discriminate]. exists [d], s, cs. auto.
  - destruct (IH1 _ _ _ _ H) as [x1 [s1 [cs1 [E1 K1]]]].
    destruct (IH2 _ _ _ _ K1) as [x2 [s2 [cs2 [E2 K2]]]].
    exists (x1 ++ x2), s2, cs2. split; [|exact K2].
    rewrite E1, E2, app_assoc. reflexivity.
  - unfold orElse in H. destruct (matcher r1 s cs k) as [w|] eqn:E.
    + apply IH1 with (cs := cs). congruence.
    + apply IH2 with (cs := cs). exact H.
  - destruct (star_split _ _ _ _ H) as [x [s' [E [_ K]]]].
    exists x, s', cs. auto.
  - destruct (lazyStar_split _ _ _ _ H) as [x [s' [E [_ K]]]].
    exists x, s', cs. auto.
  - unfold orElse in H. destruct (matcher r1 s cs k) as [w|] eqn:E.
    + apply IH1 with (cs := cs). congruence.
    + exists [], s, cs. auto.
  - destruct (IH1 _ _ _ _ H) as [x [s' [cs' [E K]]]].
    eexists x, s', _. split; [exact E | exact K].
Qed.

End Matcher.

Lemma startsWith_includes (s w : jsstring) :
  startsWith s w = true -> includes s w = true.
Proof.
  intros H. unfold includes, indexOf.
  destruct s; cbn [indexFrom]; rewrite H; reflexivity.
Qed.

Lemma includes_app_right (a b w : jsstring) :
  includes b w = true -> includes (a ++ b) w = true.
Proof.
  intros H. destruct (includes (a ++ b) w) eqn:E; [reflexivity|].
  rewrite (includes_suffix (a ++ b) w a b eq_refl E) in H. discriminate.
Qed.

(** Patterns every match of which holds the text [w]. *)
Section Needs.
Context {A : Type}.

Lemma needs_seq (w : jsstring) (r1 r2 : regex) :
  (forall s cs (k : jsstring -> captures -> option A) v,
     matcher r2 s cs k = Some v -> includes s w = true) ->
  forall s cs (k : jsstring -> captures -> option A) v,
    matcher (r1 ;; r2) s cs k = Some v -> includes s w = true.
Proof.
  intros N s cs k v H. cbn [matcher] in H.
  destruct (matcher_split _ _ _ _ _ H) as [x [s1 [cs1 [E K]]]].
  subst s. apply includes_app_right. exact (N _ _ _ _ K).
Qed.

Lemma needs_str (w x : jsstring) :
  forall s cs (k : jsstring -> captures -> option A) v,
    matcher (str (w ++ x)) s cs k = Some v -> includes s w = true.
Proof.
  intros s cs k v H. rewrite matcher_str_spec in H.
  destruct (startsWith s (w ++ x)) eqn:S; [|discriminate].
  apply startsWith_split in S. apply startsWith_includes.
  rewrite S, <- app_assoc. apply startsWith_app.
Qed.

Lemma needs_str_exact (w : jsstring) :
  forall s cs (k : jsstring -> captures -> option A) v,
    matcher (str w) s cs k = Some v -> includes s w = true.
Proof.
  intros s cs k v H. apply (needs_str w [] s cs k v).
  rewrite app_nil_r. exact H.
Qed.

Lemma needs_str_seq (w x : jsstring) (r : regex) :
  forall s cs (k : jsstring -> captures -> option A) v,
    matcher (str (w ++ x) ;; r) s cs k = Some v -> includes s w = true.
Proof.
  intros s cs k v H. cbn [matcher] in H. exact (needs_str w x _ _ _ _ H).
Qed.

End Needs.

(** Where a pattern matches at no place of the text, scanning with the
    [g] flag passes every code unit on. *)
Lemma scanAll_nowhere {B : Type} (r : regex) (onMatch : rmatch -> B)
  (onChar : Z -> B) :
  forall s, (forall a b, s = a ++ b -> matchAt r b = None) ->
            scanAll r onMatch onChar O s = List.map onChar s.
Proof.
  induction s as [|c s IH]; intros H; cbn [scanAll List.map].
  - rewrite (H [] [] eq_refl). reflexivity.
  - rewrite (H [] (c :: s) eq_refl). f_equal. apply IH.
    intros a b E. apply (H (c :: a) b). rewrite E. reflexivity.
Qed.

Lemma concat_units (s : jsstring) : concat (List.map (fun c => [c]) s) = s.
Proof. induction s as [|c s IH]; [reflexivity|]. cbn. f_equal. exact IH. Qed.

Lemma replaceAll_nowhere (r : regex) (f : rmatch -> jsstring) (s : jsstring) :
  (forall a b, s = a ++ b -> matchAt r b = None) -> replaceAll r f s = s.
Proof.
  intros H. unfold replaceAll. rewrite scanAll_nowhere by exact H.
  apply concat_units.
Qed.

Lemma execAll_nowhere (r : regex) (s : jsstring) :
  (forall a b, s = a ++ b -> matchAt r b = None) -> execAll r s = [].
Proof.
  intros H. unfold execAll. rewrite scanAll_nowhere by exact H.
  induction s as [|c s IH]; [reflexivity|]. cbn [List.map concat app].
  apply IH. intros a b E. apply (H (c :: a) b). rewrite E. reflexivity.
Qed.

(** A pattern whose matches all hold [w] matches nowhere in a text
    without [w]. *)
Lemma nowhere_without (r : regex) (w s : jsstring) :
  (forall t cs (k : jsstring -> captures -> option rmatch) v,
     matcher r t cs k = Some v -> includes t w = true) ->
  includes s w = false ->
  forall a b, s = a ++ b -> matchAt r b = None.
Proof.
  intros N H a b E. unfold matchAt.
  match goal with |- ?m = None => destruct m as [v|] eqn:M; [|reflexivity] end.
  apply N in M. rewrite (includes_suffix s w a b E H) in M. discriminate.
Qed.

End RegexMore.

(** ** What the import resolver records *)

Module ImportMore.
Import Sfc.
Import RegexMore.
Import ImportTheory.

Section Inversion.
Context {A : Type}.
Implicit Types (k : jsstring -> captures -> option A) (v : A).

Lemma str_inv (w : jsstring) s cs k v :
  matcher (str w) s cs k = Some v ->
  exists s', s = w ++ s' /\ k s' cs = Some v.
Proof.
  rewrite matcher_str_spec. destruct (startsWith s w) eqn:S; [|discriminate].
  intros H. exists (skipn (length w) s).
  split; [apply StringMore.startsWith_split, S | exact H].
Qed.

Lemma cls_inv (p : Z -> bool) s cs k v :
  matcher (Cls p) s cs k = Some v ->
  exists c s', s = c :: s' /\ p c = true /\ k s' cs = Some v.
Proof.
  cbn [matcher]. destruct s as [|c s]; [discriminate|].
  destruct (p c) eqn:P; [|discriminate]. intros H. exists c, s. auto.
Qed.

Lemma plus_inv (p : Z -> bool) s cs k v :
  matcher (Plus p) s cs k = Some v ->
  exists x s', s = x ++ s' /\ x <> [] /\ forallb p x = true /\
               k s' cs = Some v.
Proof.
  unfold Plus. rewrite matcher_seq. intros H.
  destruct (cls_inv _ _ _ _ _ H) as [c [s1 [E [P H1]]]].
  cbn [matcher] in H1.
  destruct (star_split _ _ _ _ H1) as [x [s' [E1 [F K]]]].
  exists (c :: x), s'. subst s s1. cbn [forallb]. rewrite P, F.
  repeat split; [discriminate | exact K].
Qed.

Lemma lazyPlus_inv (p : Z -> bool) s cs k v :
  matcher (LazyPlus p) s cs k = Some v ->
  exists x s', s = x ++ s' /\ x <> [] /\ forallb p x = true /\
               k s' cs = Some v.
Proof.
  unfold LazyPlus. rewrite matcher_seq. intros H.
  destruct (cls_inv _ _ _ _ _ H) as [c [s1 [E [P H1]]]].
  cbn [matcher] in H1.
  destruct (lazyStar_split _ _ _ _ H1) as [x [s' [E1 [F K]]]].
  exists (c :: x), s'. subst s s1. cbn [forallb]. rewrite P, F.
  repeat split; [discriminate | exact K].
Qed.

Lemma group_plus_inv (g : nat) (p : Z -> bool) s cs k v :
  matcher (Group g (Plus p)) s cs k = Some v ->
  exists x s', s = x ++ s' /\ x <> [] /\ forallb p x = true /\
               k s' ((g, x) :: cs) = Some v.
Proof.
  intros H. cbn [matcher] in H.
  destruct (plus_inv _ _ _ _ _ H) as [x [s' [E [N [F K]]]]].
  exists x, s'. subst s. rewrite firstn_prefix in K. auto.
Qed.

Lemma group_lazyPlus_inv (g : nat) (p : Z -> bool) s cs k v :
  matcher (Group g (LazyPlus p)) s cs k = Some v ->
  exists x s', s = x ++ s' /\ x <> [] /\ forallb p x = true /\
               k s' ((g, x) :: cs) = Some v.
Proof.
  intros H. cbn [matcher] in H.
  destruct (lazyPlus_inv _ _ _ _ _ H) as [x [s' [E [N [F K]]]]].
  exists x, s'. subst s. rewrite firstn_prefix in K. auto.
Qed.

End Inversion.

(** What a match of the import pattern has captured. *)
Lemma import_match_groups (s : jsstring) (m : rmatch) :
  matchAt importRegex s = Some m ->
  exists n p,
    groups m = [(2%nat, p); (1%nat, n)] /\
    isName n /\ p <> [] /\ forallb dot p = true.
Proof.
  unfold matchAt, importRegex. intros H.
  rewrite matcher_seq in H. apply str_inv in H. destruct H as [s1 [_ H]].
  rewrite matcher_seq in H. apply plus_inv in H.
  destruct H as [_ [s2 [_ [_ [_ H]]]]].
  rewrite matcher_seq in H. apply group_plus_inv in H.
  destruct H as [n [s3 [_ [Nn [Fn H]]]]].
  rewrite matcher_seq in H. apply plus_inv in H.
  destruct H as [_ [s4 [_ [_ [_ H]]]]].
  rewrite matcher_seq in H. apply str_inv in H. destruct H as [s5 [_ H]].
  rewrite matcher_seq in H. apply plus_inv in H.
  destruct H as [_ [s6 [_ [_ [_ H]]]]].
  rewrite matcher_seq in H. apply cls_inv in H.
  destruct H as [_ [s7 [_ [_ H]]]].
  rewrite matcher_seq in H. apply group_lazyPlus_inv in H.
  destruct H as [p [s8 [_ [Np [Fp H]]]]].
  rewrite matcher_seq in H. apply str_inv in H. destruct H as [s9 [_ H]].
  apply cls_inv in H. destruct H as [_ [s10 [_ [_ H]]]].
  apply RegexTheory.Some_inj in H. subst m.
  exists n, p. cbn [groups]. repeat split; assumption.
Qed.

(** Every match a scan reports is a match of the pattern at some place. *)
Lemma execAll_matches (r : regex) (m : rmatch) :
  forall s skip,
    In m (concat (scanAll r (fun m => [m]) (fun _ => []) skip s)) ->
    exists t, matchAt r t = Some m.
Proof.
  induction s as [|c s IH]; intros skip I; cbn [scanAll] in I.
  - destruct skip; [|contradiction].
    destruct (matchAt r []) as [m0|] eqn:E; [|contradiction].
    cbn in I. destruct I as [<-|[]]. exists []. exact E.
  - destruct skip as [|skip]; [|exact (IH _ I)].
    destruct (matchAt r (c :: s)) as [m0|] eqn:E.
    + destruct (length (matched m0)); cbn [concat app] in I.
      * destruct I as [<-|I]; [exists (c :: s); exact E | exact (IH _ I)].
      * destruct I as [<-|I]; [exists (c :: s); exact E | exact (IH _ I)].
    + cbn [concat app] in I. exact (IH _ I).
Qed.

(** Whatever the script, every record has a name that is a non-empty run
    of word characters and a path that ends in [.olova] after a non-empty
    text without line terminators. *)
Theorem resolveImports_records (scriptContent : jsstring) (r : importRecord) :
  In r (resolveImports scriptContent) ->
  isName (name r) /\
  exists p, path r = p ++ lit ".olova" /\ p <> [] /\ forallb dot p = true.
Proof.
  unfold resolveImports, execAll. intros I.
  apply in_map_iff in I. destruct I as [m [E I]].
  destruct (execAll_matches _ _ _ _ I) as [t M].
  destruct (import_match_groups t m M) as [n [p [G [N [Np Fp]]]]].
  subst r. unfold importOf, groupText. rewrite G.
  cbn [capture Nat.eqb name path]. split; [exact N|].
  exists p. auto.
Qed.

Lemma resolveImports_records_witness :
  let scriptContent := lit "import Card from './Card.olova';" in
  let r := mkImport (lit "Card") (lit "./Card.olova") in
  In r (resolveImports scriptContent) /\
  isName (lit "Card") /\
  exists p, lit "./Card.olova" = p ++ lit ".olova" /\ p <> [] /\
            forallb dot p = true.
Proof.
  intros scriptContent r.
  assert (I : In r (resolveImports scriptContent)).
  { vm_compute. left. reflexivity. }
  split; [exact I|].
  exact (resolveImports_records scriptContent r I).
Defined.

Lemma import_match_nonempty_witness :
  let s := lit "import Card from './Card.olova'; let n = 1;" in
  exists m, matchAt importRegex s = Some m /\ matched m <> [].
Proof.
  intros s.
  destruct (matchAt importRegex s) as [m|] eqn:E; [|vm_compute in E; discriminate E].
  exists m. split; [reflexivity|].
  exact (import_match_nonempty s m E).
Defined.

End ImportMore.

(** ** The sections of a component file *)

Module SectionMore.
Import Sfc.
Import Plugin.
Import More.
Import StringMore.
Import RegexMore.
Import ImportTheory.

Lemma firstAfter_before (a w rest : jsstring) :
  firstAfter a w ->
  forall a1 a2, a = a1 ++ a2 -> a2 <> [] ->
                startsWith (a2 ++ w ++ rest) w = false.
Proof.
  unfold firstAfter, indexOf. intros H a1 a2 E N.
  rewrite app_assoc, startsWith_long by (rewrite length_app; lia).
  exact (indexFrom_first w w a 0 H a1 a2 E N).
Qed.

Section Steps.
Context {A : Type}.
Implicit Types (k : jsstring -> captures -> option A) (v : A).

Lemma matcher_opt (r : regex) s cs k :
  matcher (Opt r) s cs k = orElse (matcher r s cs k) (k s cs).
Proof. reflexivity. Qed.

Lemma matcher_alt (r1 r2 : regex) s cs k :
  matcher (Alt r1 r2) s cs k
  = orElse (matcher r1 s cs k) (matcher r2 s cs k).
Proof. reflexivity. Qed.

Lemma matcher_group (g : nat) (r : regex) s cs k :
  matcher (Group g r) s cs k
  = matcher r s cs
      (fun s' cs' => k s' ((g, firstn (length s - length s') s) :: cs')).
Proof. reflexivity. Qed.

Lemma cls_fails (p : Z -> bool) (c : Z) s cs k :
  p c = false -> matcher (Cls p) (c :: s) cs k = None.
Proof. intros H. cbn [matcher]. rewrite H. reflexivity. Qed.

(** A lazy run of any characters up to the first closing text. *)
Lemma lazy_body (close body rest : jsstring) cs k v :
  firstAfter body close -> k rest cs = Some v ->
  matcher (LazyStar any ;; str close) (body ++ close ++ rest) cs k = Some v.
Proof.
  intros F K. rewrite matcher_seq. cbn [matcher].
  apply lazyStar_until.
  - apply forallb_forall. reflexivity.
  - intros a b E N. rewrite matcher_str_spec.
    rewrite (firstAfter_before body close rest F a b E N). reflexivity.
  - rewrite matcher_str_spec, startsWith_app.
    rewrite skipn_app, skipn_all, Nat.sub_diag. exact K.
Qed.

Lemma lazy_body_group (g : nat) (close body rest : jsstring) cs k v :
  firstAfter body close -> k rest ((g, body) :: cs) = Some v ->
  matcher (Group g (LazyStar any) ;; str close) (body ++ close ++ rest) cs k
  = Some v.
Proof.
  intros F K. rewrite matcher_seq. cbn [matcher].
  apply lazyStar_until.
  - apply forallb_forall. reflexivity.
  - intros a b E N. cbv beta. rewrite matcher_str_spec.
    rewrite (firstAfter_before body close rest F a b E N). reflexivity.
  - cbv beta. rewrite matcher_str_spec, startsWith_app.
    rewrite skipn_app, skipn_all, Nat.sub_diag.
    rewrite firstn_prefix. exact K.
Qed.

End Steps.

(** The leftmost match, when the pattern begins with a literal text that
    begins nowhere before. *)
Lemma search_after (w : jsstring) (r : regex) (pre s : jsstring) (m : rmatch) :
  firstAfter pre w -> startsWith s w = true ->
  matchAt (str w ;; r) s = Some m ->
  search (str w ;; r) (pre ++ s) = Some (pre, m).
Proof.
  intros F S M.
  assert (G : forall a1 a2, pre = a1 ++ a2 ->
                search (str w ;; r) (a2 ++ s) = Some (a2, m)).
  { intros a1 a2. revert a1. induction a2 as [|c a2 IH]; intros a1 E.
    - cbn [app]. destruct s; cbn [search]; rewrite M; reflexivity.
    - cbn [app search].
      assert (N : matchAt (str w ;; r) (c :: a2 ++ s) = None).
      { unfold matchAt. rewrite matcher_seq, matcher_str_spec.
        apply startsWith_split in S. rewrite S.
        change (c :: a2 ++ w ++ skipn (length w) s)
          with ((c :: a2) ++ w ++ skipn (length w) s).
        rewrite (firstAfter_before pre w _ F a1 (c :: a2) E) by discriminate.
        reflexivity. }
      rewrite N. rewrite (IH (a1 ++ [c])); [reflexivity|].
      rewrite E, <- app_assoc. reflexivity. }
  exact (G [] pre eq_refl).
Qed.

Lemma matchAt_scriptMatch (js rest : jsstring) :
  firstAfter js (lit "</script>") ->
  matchAt scriptMatch (scriptBlockOf js ++ rest)
  = Some (mkMatch (scriptBlockOf js) rest [(1%nat, js)]).
Proof.
  intros F. unfold matchAt, scriptMatch, scriptBlockOf, text.
  rewrite <- !app_assoc. rewrite matcher_seq, matcher_str.
  apply lazy_body_group; [exact F|].
  rewrite (app_assoc (lit "<script>")), (app_assoc _ (lit "</script>")).
  rewrite firstn_prefix, <- app_assoc. reflexivity.
Qed.

Lemma matchAt_scriptBlock (js rest : jsstring) :
  firstAfter js (lit "</script>") ->
  exists cs,
    matchAt scriptBlock (scriptBlockOf js ++ rest)
    = Some (mkMatch (scriptBlockOf js) rest cs).
Proof.
  intros F. exists []. unfold matchAt, scriptBlock, scriptBlockOf, text.
  rewrite <- !app_assoc. rewrite matcher_seq, matcher_str.
  apply lazy_body; [exact F|].
  rewrite (app_assoc (lit "<script>")), (app_assoc _ (lit "</script>")).
  rewrite firstn_prefix, <- app_assoc. reflexivity.
Qed.

Lemma matchAt_styleMatch (scoped : bool) (css rest : jsstring) :
  firstAfter css (lit "</style>") ->
  matchAt styleMatch (styleBlockOf scoped css ++ rest)
  = Some (mkMatch (styleBlockOf scoped css) rest
            (if scoped then [(2%nat, css); (1%nat, lit " scoped")]
             else [(2%nat, css)])).
Proof.
  intros F. unfold matchAt, styleMatch, styleBlockOf, styleOpener, text.
  set (tail := css ++ lit "</style>" ++ rest).
  destruct scoped.
  - assert (E : (lit "<style scoped>" ++ css ++ lit "</style>") ++ rest
                = lit "<style" ++ (lit " scoped") ++ lit ">" ++ tail).
    { subst tail. rewrite <- !app_assoc. reflexivity. }
    rewrite E. rewrite matcher_seq, matcher_str.
    rewrite matcher_seq, matcher_opt. unfold orElse.
    match goal with
    | |- match ?x with Some _ => _ | None => _ end = Some ?v =>
        assert (G : x = Some v); [|rewrite G; reflexivity]
    end.
    rewrite matcher_group, matcher_seq.
    change (lit " scoped" ++ lit ">" ++ tail)
      with (32 :: lit "scoped" ++ lit ">" ++ tail) at 1.
    rewrite plus_one by reflexivity. rewrite matcher_str. cbv beta.
    rewrite firstn_prefix.
    rewrite matcher_seq, matcher_str. subst tail.
    apply lazy_body_group; [exact F|].
    rewrite <- E. rewrite firstn_prefix. reflexivity.
  - assert (E : (lit "<style>" ++ css ++ lit "</style>") ++ rest
                = lit "<style" ++ lit ">" ++ tail).
    { subst tail. rewrite <- !app_assoc. reflexivity. }
    rewrite E. rewrite matcher_seq, matcher_str.
    rewrite matcher_seq, matcher_opt. unfold orElse.
    rewrite matcher_group, matcher_seq. unfold Plus at 1.
    rewrite matcher_seq.
    change (lit ">" ++ tail) with (62 :: tail) at 1.
    rewrite cls_fails by reflexivity.
    rewrite matcher_seq, matcher_str. subst tail.
    apply lazy_body_group; [exact F|].
    rewrite <- E. rewrite firstn_prefix. reflexivity.
Qed.

Lemma orStr_some (s : jsstring) : orStr (Some s) [] = s.
Proof. destruct s; reflexivity. Qed.

Lemma styleBlock_starts (scoped : bool) (css rest : jsstring) :
  startsWith (styleBlockOf scoped css ++ rest) (lit "<style") = true.
Proof. destruct scoped; reflexivity. Qed.

Lemma search_style (p : jsstring) (scoped : bool) (css rest : jsstring) :
  firstAfter p (lit "<style") -> firstAfter css (lit "</style>") ->
  search styleMatch (p ++ styleBlockOf scoped css ++ rest)
  = Some (p, mkMatch (styleBlockOf scoped css) rest
                (if scoped then [(2%nat, css); (1%nat, lit " scoped")]
                 else [(2%nat, css)])).
Proof.
  intros Fp Fc. apply (search_after (lit "<style")); [exact Fp | |].
  - apply styleBlock_starts.
  - apply matchAt_styleMatch, Fc.
Qed.

(** For a file laid out as text, a script block, text, a style block and
    text, where each opening and closing tag is the first of its kind, the
    extractor returns the script, the style, whether the style tag says
    [scoped], and the text around the blocks, trimmed, as the template. *)
Theorem sections_of_layout (pre js mid : jsstring) (scoped : bool)
  (css post : jsstring) :
  firstAfter pre (lit "<script>") ->
  firstAfter js (lit "</script>") ->
  firstAfter (pre ++ scriptBlockOf js ++ mid) (lit "<style") ->
  firstAfter (pre ++ mid) (lit "<style") ->
  firstAfter css (lit "</style>") ->
  let source := sfcSource pre js mid scoped css post in
  scriptContentOf source = js /\
  styleContentOf source = css /\
  isScopedOf source = scoped /\
  htmlContentOf source = trim (pre ++ mid ++ post).
Proof.
  intros F1 F2 F3 F4 F5 source.
  assert (S1 : search scriptMatch source
               = Some (pre, mkMatch (scriptBlockOf js)
                              (mid ++ styleBlockOf scoped css ++ post)
                              [(1%nat, js)])).
  { apply (search_after (lit "<script>")); [exact F1 | |].
    - unfold scriptBlockOf. rewrite <- !app_assoc. apply startsWith_app.
    - apply matchAt_scriptMatch, F2. }
  assert (S2 : search styleMatch source
               = Some (pre ++ scriptBlockOf js ++ mid,
                       mkMatch (styleBlockOf scoped css) post
                         (if scoped
                          then [(2%nat, css); (1%nat, lit " scoped")]
                          else [(2%nat, css)]))).
  { unfold source, sfcSource.
    replace (pre ++ scriptBlockOf js ++ mid ++ styleBlockOf scoped css ++ post)
      with ((pre ++ scriptBlockOf js ++ mid) ++ styleBlockOf scoped css ++ post)
      by (rewrite <- !app_assoc; reflexivity).
    apply search_style; assumption. }
  split; [|split; [|split]].
  - unfold scriptContentOf. rewrite S1. cbn [groups capture Nat.eqb].
    apply orStr_some.
  - unfold styleContentOf. rewrite S2. cbn [groups].
    destruct scoped; cbn [capture Nat.eqb]; apply orStr_some.
  - unfold isScopedOf. rewrite S2. cbn [groups].
    destruct scoped; reflexivity.
  - unfold htmlContentOf. f_equal.
    destruct (matchAt_scriptBlock js
                (mid ++ styleBlockOf scoped css ++ post) F2) as [cs M].
    assert (S3 : search scriptBlock source
                 = Some (pre, mkMatch (scriptBlockOf js)
                                (mid ++ styleBlockOf scoped css ++ post) cs)).
    { apply (search_after (lit "<script>")); [exact F1 | | exact M].
      unfold scriptBlockOf. rewrite <- !app_assoc. apply startsWith_app. }
    unfold replaceFirst at 2. rewrite S3. cbn [rest app].
    replace (pre ++ mid ++ styleBlockOf scoped css ++ post)
      with ((pre ++ mid) ++ styleBlockOf scoped css ++ post)
      by (rewrite <- !app_assoc; reflexivity).
    unfold replaceFirst. rewrite search_style by assumption.
    cbn [rest app]. rewrite <- app_assoc. reflexivity.
Qed.

Lemma sections_of_layout_witness :
  let pre := ln "<h1>Hi</h1>" in
  let js := lit "let n = 1;" in
  let css := lit "h1{color:blue}" in
  (firstAfter pre (lit "<script>") /\
   firstAfter js (lit "</script>") /\
   firstAfter (pre ++ scriptBlockOf js ++ nl) (lit "<style") /\
   firstAfter (pre ++ nl) (lit "<style") /\
   firstAfter css (lit "</style>")) /\
  scriptContentOf (sfcSource pre js nl true css nl) = js /\
  styleContentOf (sfcSource pre js nl true css nl) = css /\
  isScopedOf (sfcSource pre js nl true css nl) = true /\
  htmlContentOf (sfcSource pre js nl true css nl) = lit "<h1>Hi</h1>".
Proof.
  intros pre js css.
  assert (F1 : firstAfter pre (lit "<script>")) by (vm_compute; reflexivity).
  assert (F2 : firstAfter js (lit "</script>")) by (vm_compute; reflexivity).
  assert (F3 : firstAfter (pre ++ scriptBlockOf js ++ nl) (lit "<style"))
    by (vm_compute; reflexivity).
  assert (F4 : firstAfter (pre ++ nl) (lit "<style"))
    by (vm_compute; reflexivity).
  assert (F5 : firstAfter css (lit "</style>")) by (vm_compute; reflexivity).
  split; [repeat split; assumption|].
  destruct (sections_of_layout pre js nl true css nl F1 F2 F3 F4 F5)
    as [A [B [C D]]].
  split; [exact A|]. split; [exact B|]. split; [exact C|].
  etransitivity; [exact D|]. vm_compute. reflexivity.
Defined.

End SectionMore.

(** ** Component tags in the template *)

Module TagMore.
Import Sfc.
Import More.
Import StringMore.
Import RegexMore.
Import ImportTheory.
Import SectionMore.

Section Steps.
Context {A : Type}.
Implicit Types (k : jsstring -> captures -> option A) (v : A).

(** A greedy repetition first tries the longest run. *)
Lemma star_longest (p : Z -> bool) (k : jsstring -> option A) v :
  forall s, k (dropWhile p s) = Some v -> star p s k = Some v.
Proof.
  induction s as [|c s IH]; cbn [dropWhile star]; intros H; [exact H|].
  destruct (p c); [rewrite (IH H); reflexivity | exact H].
Qed.

Lemma dropWhile_stop (p : Z -> bool) (c : Z) (t : jsstring) :
  p c = false ->
  forall a, dropWhile p (a ++ c :: t) = dropWhile p a ++ c :: t.
Proof.
  intros H. induction a as [|d a IH]; cbn [app dropWhile].
  - rewrite H. reflexivity.
  - destruct (p d); [exact IH | reflexivity].
Qed.

Lemma dropWhile_all (p : Z -> bool) (c : Z) (t : jsstring) :
  p c = false ->
  forall a, forallb p a = true -> dropWhile p (a ++ c :: t) = c :: t.
Proof.
  intros H. induction a as [|d a IH]; cbn [app dropWhile forallb]; intros F.
  - rewrite H. reflexivity.
  - apply andb_prop in F. destruct F as [Pd F]. rewrite Pd. exact (IH F).
Qed.

Lemma forallb_dropWhile (p q : Z -> bool) (a : jsstring) :
  forallb q a = true -> forallb q (dropWhile p a) = true.
Proof.
  induction a as [|d a IH]; cbn [dropWhile forallb]; intros F; [reflexivity|].
  apply andb_prop in F. destruct F as [Qd F].
  destruct (p d); [exact (IH F)|]. cbn [forallb]. rewrite Qd, F. reflexivity.
Qed.

(** White space and then a run without [>], on attribute text followed
    by [>]. *)
Lemma attrs_run (c : Z) (a t : jsstring) cs k v :
  isWhiteSpace c = true -> forallb (notc 62) a = true ->
  k (62 :: t) cs = Some v ->
  matcher (Plus space ;; Star (notc 62)) (c :: a ++ 62 :: t) cs k = Some v.
Proof.
  intros W F K. rewrite matcher_seq. unfold Plus.
  rewrite matcher_seq, (matcher_cls space c) by exact W.
  cbn [matcher]. apply star_longest.
  rewrite dropWhile_stop by reflexivity.
  apply star_longest.
  rewrite dropWhile_all;
    [exact K | reflexivity | apply forallb_dropWhile, F].
Qed.

Lemma attrs_group (g : nat) (c : Z) (a t : jsstring) cs k v :
  isWhiteSpace c = true -> forallb (notc 62) (c :: a) = true ->
  k (62 :: t) ((g, c :: a) :: cs) = Some v ->
  matcher (Group g (Plus space ;; Star (notc 62))) ((c :: a) ++ 62 :: t) cs k
  = Some v.
Proof.
  intros W F K. cbn [forallb] in F. apply andb_prop in F.
  destruct F as [_ F].
  rewrite matcher_group. apply attrs_run; [exact W | exact F|].
  rewrite firstn_prefix. exact K.
Qed.

End Steps.

Lemma orStr_nonempty (c : Z) (s d : jsstring) : orStr (Some (c :: s)) d = c :: s.
Proof. reflexivity. Qed.

(** The tag pattern on a paired tag. *)
Lemma matchAt_paired (n attrs content post : jsstring) :
  isAttrs attrs -> isContent n content ->
  exists m,
    matchAt (componentTagRegex n) (pairedTag n attrs content ++ post) = Some m /\
    matched m = pairedTag n attrs content /\ rest m = post /\
    placeholder n m = placeholderFor n attrs content.
Proof.
  intros [W F] [D C].
  set (close := lit "</" ++ n ++ lit ">") in *.
  set (t := content ++ close ++ post).
  assert (E : pairedTag n attrs content ++ post
              = (lit "<" ++ n) ++ attrs ++ 62 :: t).
  { unfold pairedTag. subst t close. rewrite <- !app_assoc. reflexivity. }
  set (k0 := fun (s' : jsstring) (cs' : captures) =>
               Some (mkMatch
                       (firstn (length (pairedTag n attrs content ++ post)
                                - length s')
                          (pairedTag n attrs content ++ post)) s' cs')).
  assert (L : forall cs,
            matcher (text ">" ;; Group 2 (LazyStar dot) ;; str close)
              (62 :: t) cs k0
            = Some (mkMatch (pairedTag n attrs content) post
                      ((2%nat, content) :: cs))).
  { intros cs. rewrite matcher_seq.
    change (62 :: t) with (lit ">" ++ t). unfold text. rewrite matcher_str.
    subst t. rewrite matcher_seq, matcher_group.
    cbn [matcher]. apply lazyStar_until; [exact D | |].
    - intros a b Eb Nb. cbv beta. rewrite matcher_str_spec.
      rewrite (firstAfter_before content close post C a b Eb Nb).
      reflexivity.
    - cbv beta. rewrite matcher_str_spec, startsWith_app.
      rewrite skipn_app, skipn_all, Nat.sub_diag. cbn [app skipn].
      unfold k0. rewrite firstn_prefix, firstn_prefix. reflexivity. }
  unfold matchAt, componentTagRegex. fold k0.
  rewrite E, matcher_alt. unfold orElse.
  rewrite matcher_seq, matcher_str, matcher_seq, matcher_opt. unfold orElse.
  destruct attrs as [|c a].
  - eexists. split; [|split; [|split]].
    + cbn [app]. rewrite matcher_group, matcher_seq. unfold Plus at 1.
      rewrite matcher_seq, cls_fails by reflexivity.
      rewrite L. reflexivity.
    + reflexivity.
    + reflexivity.
    + unfold placeholder, placeholderFor. cbn [groups capture Nat.eqb].
      rewrite orStr_some. reflexivity.
  - eexists. split; [|split; [|split]].
    + rewrite attrs_group with (v := mkMatch (pairedTag n (c :: a) content) post
                                       [(2%nat, content); (1%nat, c :: a)]);
        [reflexivity | exact W | exact F |].
      apply L.
    + reflexivity.
    + reflexivity.
    + unfold placeholder, placeholderFor. cbn [groups capture Nat.eqb].
      rewrite orStr_nonempty, orStr_some. reflexivity.
Qed.

Lemma componentTag_nowhere_in (n html : jsstring) :
  includes html (lit "<" ++ n) = false ->
  forall a b, html = a ++ b -> matchAt (componentTagRegex n) b = None.
Proof.
  intros H a b E. unfold matchAt, componentTagRegex.
  cbn [matcher]. rewrite !matcher_str_spec.
  rewrite (includes_false _ _ H a b E). reflexivity.
Qed.

Section Scan.
Context {B : Type}.
Variables (r : regex) (onMatch : rmatch -> B) (onChar : Z -> B).

Lemma scan_before (pre s : jsstring) :
  (forall a1 a2, pre = a1 ++ a2 -> a2 <> [] -> matchAt r (a2 ++ s) = None) ->
  scanAll r onMatch onChar O (pre ++ s)
  = List.map onChar pre ++ scanAll r onMatch onChar O s.
Proof.
  assert (G : forall a2 a1, pre = a1 ++ a2 ->
              (forall b1 b2, pre = b1 ++ b2 -> b2 <> [] ->
                 matchAt r (b2 ++ s) = None) ->
              scanAll r onMatch onChar O (a2 ++ s)
              = List.map onChar a2 ++ scanAll r onMatch onChar O s).
  { induction a2 as [|c a2 IH]; intros a1 E H; [reflexivity|].
    cbn [app scanAll List.map].
    pose proof (H a1 (c :: a2) E ltac:(discriminate)) as N.
    cbn [app] in N. rewrite N. f_equal.
    apply (IH (a1 ++ [c])); [|exact H].
    rewrite E, <- app_assoc. reflexivity. }
  intros H. exact (G pre [] eq_refl H).
Qed.

Lemma scan_match (x y : jsstring) (m : rmatch) :
  matchAt r (x ++ y) = Some m -> matched m = x -> x <> [] ->
  scanAll r onMatch onChar O (x ++ y)
  = onMatch m :: scanAll r onMatch onChar O y.
Proof.
  intros M E N. destruct x as [|c x]; [contradiction|].
  cbn [app scanAll]. cbn [app] in M. rewrite M, E. cbn [length].
  rewrite scan_skip. reflexivity.
Qed.

End Scan.

Lemma replaceAll_once (r : regex) (f : rmatch -> jsstring)
  (pre x post : jsstring) (m : rmatch) :
  (forall a1 a2, pre = a1 ++ a2 -> a2 <> [] ->
     matchAt r (a2 ++ x ++ post) = None) ->
  matchAt r (x ++ post) = Some m -> matched m = x -> x <> [] ->
  (forall a b, post = a ++ b -> matchAt r b = None) ->
  replaceAll r f (pre ++ x ++ post) = pre ++ f m ++ post.
Proof.
  intros Hpre M E N Hpost. unfold replaceAll.
  rewrite scan_before by exact Hpre.
  rewrite (scan_match r f (fun c => [c]) x post m M E N).
  rewrite scanAll_nowhere by exact Hpost.
  rewrite concat_app. cbn [concat]. rewrite !concat_units. reflexivity.
Qed.

Lemma tag_not_before (n pre tail : jsstring) :
  firstAfter pre (lit "<" ++ n) ->
  forall a1 a2, pre = a1 ++ a2 -> a2 <> [] ->
    matchAt (componentTagRegex n) (a2 ++ (lit "<" ++ n) ++ tail) = None.
Proof.
  intros F a1 a2 E N. unfold matchAt, componentTagRegex.
  rewrite matcher_alt, !matcher_seq, !matcher_str_spec.
  rewrite (firstAfter_before pre (lit "<" ++ n) tail F a1 a2 E N).
  reflexivity.
Qed.

(** A paired tag of an imported component, with any attributes and any
    one-line content, becomes the placeholder with the component's name,
    the attributes and the content; the text around it stays. *)
Theorem paired_tag_rewritten (n p attrs content pre post : jsstring) :
  isName n -> isAttrs attrs -> isContent n content ->
  firstAfter pre (lit "<" ++ n) ->
  includes post (lit "<" ++ n) = false ->
  rewriteTemplate [mkImport n p] (pre ++ pairedTag n attrs content ++ post)
  = pre ++ placeholderFor n attrs content ++ post.
Proof.
  intros _ Ha Hc Fpre Fpost. unfold rewriteTemplate. cbn [fold_left name].
  destruct (matchAt_paired n attrs content post Ha Hc) as [m [M [E [R P]]]].
  rewrite (replaceAll_once _ _ pre (pairedTag n attrs content) post m).
  - rewrite P. reflexivity.
  - intros a1 a2 Ea Na.
    replace (pairedTag n attrs content ++ post)
      with ((lit "<" ++ n) ++
            attrs ++ lit ">" ++ content ++ lit "</" ++ n ++ lit ">" ++ post)
      by (unfold pairedTag; rewrite <- !app_assoc; reflexivity).
    apply (tag_not_before n pre _ Fpre a1 a2 Ea Na).
  - exact M.
  - exact E.
  - unfold pairedTag. discriminate.
  - apply componentTag_nowhere_in, Fpost.
Qed.

Lemma paired_tag_rewritten_witness :
  let n := lit "Card" in
  let attrs := lit " title=x" in
  let content := lit "Hi <b>you</b>" in
  let pre := lit "<main>" in
  let post := lit "</main>" in
  (isName n /\ isAttrs attrs /\ isContent n content /\
   firstAfter pre (lit "<" ++ n) /\
   includes post (lit "<" ++ n) = false) /\
  rewriteTemplate [mkImport n (lit "./Card.olova")]
    (lit "<main><Card title=x>Hi <b>you</b></Card></main>")
  = lit "<main><div data-component=" ++ dquote ++ lit "Card" ++ dquote ++
    lit "  title=x>Hi <b>you</b></div></main>".
Proof.
  intros n attrs content pre post.
  assert (N : isName n) by (split; [discriminate | vm_compute; reflexivity]).
  assert (A : isAttrs attrs) by (split; vm_compute; reflexivity).
  assert (C : isContent n content) by (split; vm_compute; reflexivity).
  assert (F : firstAfter pre (lit "<" ++ n)) by (vm_compute; reflexivity).
  assert (P : includes post (lit "<" ++ n) = false)
    by (vm_compute; reflexivity).
  split; [repeat split; try assumption; apply N || apply A || apply C|].
  etransitivity;
    [exact (paired_tag_rewritten n (lit "./Card.olova") attrs content
              pre post N A C F P)|].
  vm_compute. reflexivity.
Defined.

Section Backtrack.
Context {A : Type}.

(** A greedy repetition gives back one character when the longest run
    leads nowhere. *)
Lemma star_second (p : Z -> bool) (c : Z) (x s : jsstring)
  (k : jsstring -> option A) (v : A) :
  forallb p x = true -> p c = true -> stops p s ->
  k s = None -> k (c :: s) = Some v ->
  star p (x ++ c :: s) k = Some v.
Proof.
  intros F Pc S N K. induction x as [|d x IH].
  - cbn [app star]. rewrite Pc, (star_stops p s k S), N. exact K.
  - cbn [forallb] in F. apply andb_prop in F. destruct F as [Pd F].
    cbn [app star]. rewrite Pd, (IH F). reflexivity.
Qed.

End Backtrack.

(** The tag pattern on a self-closing tag that no closing tag follows. *)
Lemma matchAt_selfClosing (n attrs post : jsstring) :
  isAttrs attrs ->
  includes (selfClosingTag n attrs ++ post) (lit "</" ++ n ++ lit ">") = false ->
  exists m,
    matchAt (componentTagRegex n) (selfClosingTag n attrs ++ post) = Some m /\
    matched m = selfClosingTag n attrs /\ rest m = post /\
    placeholder n m = placeholderFor n attrs [].
Proof.
  intros [W F] C.
  assert (E : selfClosingTag n attrs ++ post
              = (lit "<" ++ n) ++ attrs ++ 47 :: 62 :: post).
  { unfold selfClosingTag. rewrite <- !app_assoc. reflexivity. }
  set (k0 := fun (s' : jsstring) (cs' : captures) =>
               Some (mkMatch
                       (firstn (length (selfClosingTag n attrs ++ post)
                                - length s')
                          (selfClosingTag n attrs ++ post)) s' cs')).
  assert (L : forall cs,
            matcher (text "/>") (47 :: 62 :: post) cs k0
            = Some (mkMatch (selfClosingTag n attrs) post cs)).
  { intros cs. change (47 :: 62 :: post) with (lit "/>" ++ post).
    unfold text. rewrite matcher_str. unfold k0.
    rewrite firstn_prefix. reflexivity. }
  unfold matchAt, componentTagRegex. fold k0.
  rewrite matcher_alt. unfold orElse.
  match goal with
  | |- exists m, match ?x with Some _ => _ | None => ?y end = _ /\ _ =>
      assert (N : x = None)
  end.
  { match goal with |- ?x = None => destruct x as [w|] eqn:M; [|reflexivity] end.
    exfalso. apply (needs_seq (lit "</" ++ n ++ lit ">")) in M.
    - rewrite M in C. discriminate.
    - do 3 apply needs_seq. apply needs_str_exact. }
  rewrite N, E.
  rewrite matcher_seq, matcher_str, matcher_seq, matcher_opt. unfold orElse.
  destruct attrs as [|c a].
  - eexists. split; [|split; [|split]].
    + cbn [app]. rewrite matcher_group, matcher_seq. unfold Plus at 1.
      rewrite matcher_seq, cls_fails by reflexivity.
      rewrite L. reflexivity.
    + reflexivity.
    + reflexivity.
    + reflexivity.
  - cbn [forallb] in F. apply andb_prop in F. destruct F as [Fc F].
    assert (G : matcher (Group 3 (Plus space ;; Star (notc 62)))
                  ((c :: a) ++ 47 :: 62 :: post) []
                  (fun s1 cs1 => matcher (text "/>") s1 cs1 k0)
                = Some (mkMatch (selfClosingTag n (c :: a)) post
                          [(3%nat, c :: a)])).
    { rewrite matcher_group, matcher_seq. unfold Plus.
      rewrite matcher_seq. cbn [app].
      rewrite (matcher_cls space c) by exact W.
      cbn [matcher]. apply star_longest.
      rewrite dropWhile_stop by reflexivity.
      apply star_second.
      - apply forallb_dropWhile, F.
      - reflexivity.
      - reflexivity.
      - reflexivity.
      - change (c :: a ++ 47 :: 62 :: post)
          with ((c :: a) ++ 47 :: 62 :: post).
        rewrite firstn_prefix. apply L. }
    eexists. split; [|split; [|split]].
    + rewrite G. reflexivity.
    + reflexivity.
    + reflexivity.
    + reflexivity.
Qed.

(** A self-closing tag of an imported component that no closing tag of the
    component follows becomes an empty placeholder with the component's
    name and the attributes; the text around it stays. *)
Theorem self_closing_tag_rewritten (n p attrs pre post : jsstring) :
  isName n -> isAttrs attrs ->
  firstAfter pre (lit "<" ++ n) ->
  includes post (lit "<" ++ n) = false ->
  includes (selfClosingTag n attrs ++ post) (lit "</" ++ n ++ lit ">") = false ->
  rewriteTemplate [mkImport n p] (pre ++ selfClosingTag n attrs ++ post)
  = pre ++ placeholderFor n attrs [] ++ post.
Proof.
  intros _ Ha Fpre Fpost C. unfold rewriteTemplate. cbn [fold_left name].
  destruct (matchAt_selfClosing n attrs post Ha C) as [m [M [E [R P]]]].
  rewrite (replaceAll_once _ _ pre (selfClosingTag n attrs) post m).
  - rewrite P. reflexivity.
  - intros a1 a2 Ea Na.
    replace (selfClosingTag n attrs ++ post)
      with ((lit "<" ++ n) ++ attrs ++ lit "/>" ++ post)
      by (unfold selfClosingTag; rewrite <- !app_assoc; reflexivity).
    apply (tag_not_before n pre _ Fpre a1 a2 Ea Na).
  - exact M.
  - exact E.
  - unfold selfClosingTag. discriminate.
  - apply componentTag_nowhere_in, Fpost.
Qed.

Lemma self_closing_tag_rewritten_witness :
  let n := lit "Card" in
  let attrs := lit " title=x " in
  let pre := lit "<main>" in
  let post := lit "</main>" in
  (isName n /\ isAttrs attrs /\
   firstAfter pre (lit "<" ++ n) /\
   includes post (lit "<" ++ n) = false /\
   includes (selfClosingTag n attrs ++ post) (lit "</" ++ n ++ lit ">")
   = false) /\
  rewriteTemplate [mkImport n (lit "./Card.olova")]
    (lit "<main><Card title=x /></main>")
  = lit "<main><div data-component=" ++ dquote ++ lit "Card" ++ dquote ++
    lit "  title=x ></div></main>".
Proof.
  intros n attrs pre post.
  assert (N : isName n) by (split; [discriminate | vm_compute; reflexivity]).
  assert (A : isAttrs attrs) by (split; vm_compute; reflexivity).
  assert (F : firstAfter pre (lit "<" ++ n)) by (vm_compute; reflexivity).
  assert (P : includes post (lit "<" ++ n) = false)
    by (vm_compute; reflexivity).
  assert (Q : includes (selfClosingTag n attrs ++ post)
                (lit "</" ++ n ++ lit ">") = false)
    by (vm_compute; reflexivity).
  split; [repeat split; try assumption; apply N || apply A|].
  etransitivity;
    [exact (self_closing_tag_rewritten n (lit "./Card.olova") attrs
              pre post N A F P Q)|].
  vm_compute. reflexivity.
Defined.

End TagMore.

(** ** The scoper on whole stylesheets *)

Module CssMore.
Import Css.
Import More.
Import CssTheory.

Lemma split_join (ls : list jsstring) :
  ls <> [] -> Forall oneLine ls -> split 10 (join nl ls) = ls.
Proof.
  intros N F. induction F as [|l ls Hl F IH]; [contradiction|].
  destruct ls as [|l2 ls].
  - cbn [join]. apply split_whole, Hl.
  - change (join nl (l :: l2 :: ls)) with (l ++ nl ++ join nl (l2 :: ls)).
    unfold nl at 1. cbn [app]. rewrite split_first by exact Hl.
    rewrite IH by discriminate. reflexivity.
Qed.

Lemma includes_nil (w : jsstring) : w <> [] -> includes [] w = false.
Proof. destruct w; [contradiction | reflexivity]. Qed.

(** A line outside a rule without an opening brace, or inside a rule
    without a closing brace, is copied trimmed and changes no flag. *)
Lemma scopeLine_copy (scopeId : jsstring) (st : scoper) (line : jsstring) :
  (if inRule st then includes (trim line) (lit "}")
   else includes (trim line) (lit "{")) = false ->
  scopeLine scopeId st line
  = mkScoper (processedCss st ++ emitLine line) (inRule st)
      (currentSelectors st).
Proof.
  intros H. unfold scopeLine, emitLine. cbv zeta.
  destruct (trim line) as [|c r] eqn:E; [reflexivity|].
  destruct (inRule st).
  - rewrite H. rewrite andb_false_r. cbn [andb].
    destruct (startsWith (c :: r) (lit "@") && includes (c :: r) (lit "{"));
      reflexivity.
  - rewrite H. cbn [andb]. rewrite andb_false_r.
    destruct (startsWith (c :: r) (lit "@") && false); reflexivity.
Qed.

Lemma body_copied (scopeId : jsstring) (body : list jsstring) :
  Forall (fun l => oneLine l /\ includes (trim l) (lit "}") = false) body ->
  forall st, inRule st = true ->
    fold_left (scopeLine scopeId) body st
    = mkScoper (processedCss st ++ concat (List.map emitLine body)) true
        (currentSelectors st).
Proof.
  intros F. induction F as [|l body [_ Hl] F IH]; intros st R.
  - cbn [fold_left List.map concat]. rewrite app_nil_r.
    destruct st. cbn in R. subst. reflexivity.
  - cbn [fold_left List.map concat].
    rewrite scopeLine_copy by (rewrite R; exact Hl).
    rewrite IH by (cbn [inRule]; exact R).
    cbn [processedCss currentSelectors]. rewrite <- app_assoc. reflexivity.
Qed.

Lemma piece_scanned (scopeId : jsstring) (p : piece) :
  wellPiece p ->
  forall st, inRule st = false ->
    exists sels,
      fold_left (scopeLine scopeId) (pieceLines p) st
      = mkScoper (processedCss st ++ pieceOut scopeId p) false sels.
Proof.
  intros W st R. destruct p as [header body closer | line].
  - destruct W as [_ [Hh [Hb [_ Hc]]]].
    assert (Nh : trim header <> []).
    { intros E. rewrite E in Hh. discriminate Hh. }
    assert (Nc : trim closer <> []).
    { intros E. rewrite E in Hc. discriminate Hc. }
    exists []. cbn [pieceLines fold_left].
    rewrite scopeLine_open by assumption.
    rewrite fold_left_app. rewrite (body_copied scopeId body Hb) by reflexivity.
    cbn [fold_left]. rewrite scopeLine_close by (assumption || reflexivity).
    cbn [processedCss pieceOut]. unfold emitLine.
    rewrite <- !app_assoc. reflexivity.
  - destruct W as [_ Hl]. exists (currentSelectors st).
    cbn [pieceLines fold_left]. rewrite scopeLine_copy by (rewrite R; exact Hl).
    rewrite R. reflexivity.
Qed.

Lemma pieces_scanned (scopeId : jsstring) (ps : list piece) :
  Forall wellPiece ps ->
  forall st, inRule st = false ->
    exists sels,
      fold_left (scopeLine scopeId) (flat_map pieceLines ps) st
      = mkScoper (processedCss st ++ concat (List.map (pieceOut scopeId) ps))
          false sels.
Proof.
  intros F. induction F as [|p ps W F IH]; intros st R.
  - exists (currentSelectors st). cbn. rewrite app_nil_r.
    destruct st. cbn in R. subst. reflexivity.
  - cbn [flat_map List.map concat]. rewrite fold_left_app.
    destruct (piece_scanned scopeId p W st R) as [sels E]. rewrite E.
    destruct (IH (mkScoper (processedCss st ++ pieceOut scopeId p) false sels)
                eq_refl) as [sels' E'].
    exists sels'. rewrite E'. cbn [processedCss].
    rewrite <- app_assoc. reflexivity.
Qed.

Lemma pieceLines_oneLine (p : piece) :
  wellPiece p -> Forall oneLine (pieceLines p).
Proof.
  destruct p as [header body closer | line]; cbn [wellPiece pieceLines].
  - intros [Hh [_ [Hb [Hc _]]]]. constructor; [exact Hh|].
    apply Forall_app. split.
    + apply Forall_forall. intros l I. rewrite Forall_forall in Hb.
      apply (Hb l I).
    + constructor; [exact Hc | constructor].
  - intros [Hl _]. constructor; [exact Hl | constructor].
Qed.

Lemma sheet_lines (ps : list piece) :
  ps <> [] -> Forall wellPiece ps ->
  split 10 (sheetOf ps) = flat_map pieceLines ps.
Proof.
  intros N F. apply split_join.
  - destruct ps as [|p ps]; [contradiction|].
    destruct p; discriminate.
  - induction F as [|p ps W F IH]; [constructor|].
    cbn [flat_map]. apply Forall_app. split.
    + apply pieceLines_oneLine, W.
    + destruct ps as [|q ps]; [constructor|]. apply IH. discriminate.
Qed.

Lemma notLineFeed_oneLine (line : jsstring) :
  forallb (fun c => negb (c =? 10)) line = true -> oneLine line.
Proof.
  intros H I. rewrite forallb_forall in H. specialize (H 10 I).
  discriminate H.
Qed.

Lemma without_unit (c : Z) (s : jsstring) :
  forallb (fun d => negb (d =? c)) s = true -> ~ In c s.
Proof.
  intros H I. rewrite forallb_forall in H. specialize (H c I).
  rewrite Z.eqb_refl in H. discriminate H.
Qed.

(** On a stylesheet of rules that open on one line and close on a later
    one, with any lines between the rules, the header of every rule gets
    its selectors transformed and every other line is copied trimmed. *)
Theorem scoped_pieces (scopeId : jsstring) (ps : list piece) :
  ps <> [] -> Forall wellPiece ps ->
  transformScopedCss (sheetOf ps) scopeId
  = concat (List.map (pieceOut scopeId) ps).
Proof.
  intros N F. unfold transformScopedCss, scopeLines.
  rewrite sheet_lines by assumption.
  destruct (pieces_scanned scopeId ps F initial eq_refl) as [sels E].
  rewrite E. reflexivity.
Qed.

Lemma scoped_pieces_witness :
  let scopeId := lit "data-v-1" in
  let ps :=
    [Plain (lit "/* card */");
     Rule (lit ".a, .b {") [lit "  color: red;"; lit "  margin: 0;"] (lit "}");
     Plain []] in
  (ps <> [] /\ Forall wellPiece ps) /\
  transformScopedCss (sheetOf ps) scopeId
  = ln "/* card */" ++ ln "[data-v-1] .a, [data-v-1] .b {" ++
    ln "color: red;" ++ ln "margin: 0;" ++ ln "}" ++ nl.
Proof.
  intros scopeId ps.
  assert (N : ps <> []) by discriminate.
  assert (W : Forall wellPiece ps).
  { repeat first
      [ apply Forall_cons | apply Forall_nil | apply conj
      | (vm_compute; reflexivity) | apply notLineFeed_oneLine ];
      vm_compute; reflexivity. }
  split; [split; assumption|].
  etransitivity; [exact (scoped_pieces scopeId ps N W)|].
  vm_compute. reflexivity.
Defined.




(** The header [@media screen, print {] is split at its comma like a
    selector list, and its second part is prefixed. *)
Lemma media_list_second_part_prefixed (scopeId : jsstring) :
  ruleStart scopeId (lit "@media screen, print {")
  = lit "@media screen, [" ++ scopeId ++ lit "] print {" ++ nl.
Proof.
  unfold ruleStart. cbv zeta.
  assert (S : selectorsOf (lit "@media screen, print {")
              = [lit "@media screen"; lit "print"])
    by (vm_compute; reflexivity).
  assert (R : substringFrom (lit "@media screen, print {")
                (indexOf (lit "@media screen, print {") (lit "{") + 1) = [])
    by (vm_compute; reflexivity).
  rewrite S, R. cbn [List.map].
  assert (A : transformSelector scopeId (lit "@media screen")
              = lit "@media screen") by reflexivity.
  assert (B : transformSelector scopeId (lit "print")
              = lit "[" ++ scopeId ++ lit "] " ++ lit "print") by reflexivity.
  rewrite A, B. cbn [join]. rewrite <- !app_assoc. reflexivity.
Qed.

(** *** Selector lists *)

Lemma dropWhile_head (p : Z -> bool) (s : jsstring) (d : Z) :
  p d = true -> p (hd d s) = false -> dropWhile p s = s.
Proof.
  intros Pd H. destruct s as [|c s]; [reflexivity|].
  cbn [hd] in H. cbn [dropWhile]. rewrite H. reflexivity.
Qed.

Lemma hd_rev (s : jsstring) (d : Z) : hd d (rev s) = last s d.
Proof.
  induction s as [|c s IH] using rev_ind; [reflexivity|].
  rewrite rev_app_distr, last_last. reflexivity.
Qed.

Lemma trim_plain (s : jsstring) :
  isWhiteSpace (hd 32 s) = false -> isWhiteSpace (last s 32) = false ->
  trim s = s.
Proof.
  intros H L. unfold trim, trimStart, trimEnd.
  rewrite (dropWhile_head isWhiteSpace s 32) by (reflexivity || exact H).
  rewrite (dropWhile_head isWhiteSpace (rev s) 32);
    [apply rev_involutive | reflexivity | rewrite hd_rev; exact L].
Qed.

Lemma trim_after_space (s : jsstring) :
  isWhiteSpace (hd 32 s) = false -> isWhiteSpace (last s 32) = false ->
  trim (32 :: s) = s.
Proof.
  intros H L. unfold trim, trimStart. cbn [dropWhile].
  change (isWhiteSpace 32) with true. cbv iota.
  exact (trim_plain s H L).
Qed.

Lemma trimEnd_space (s : jsstring) :
  isWhiteSpace (last s 32) = false -> trimEnd (s ++ [32]) = s.
Proof.
  intros L. unfold trimEnd. rewrite rev_app_distr. cbn [rev app dropWhile].
  change (isWhiteSpace 32) with true. cbv iota.
  rewrite (dropWhile_head isWhiteSpace (rev s) 32);
    [apply rev_involutive | reflexivity | rewrite hd_rev; exact L].
Qed.

Lemma indexFrom_unit (c : Z) (rest : jsstring) :
  forall h i, ~ In c h -> indexFrom i (h ++ c :: rest) [c] = i + len h.
Proof.
  induction h as [|d h IH]; intros i N.
  - cbn [app indexFrom startsWith]. rewrite Z.eqb_refl.
    rewrite StringMore.startsWith_nil. unfold len. cbn. lia.
  - cbn [app indexFrom startsWith].
    destruct (Z.eqb_spec c d) as [->|_]; [exfalso; apply N; left; reflexivity|].
    cbn [andb]. rewrite IH by (intros I; apply N; right; exact I).
    unfold len. cbn [length]. lia.
Qed.

Lemma last_append (a b : jsstring) (d : Z) :
  b <> [] -> last (a ++ b) d = last b d.
Proof.
  intros N. induction a as [|c a IH]; [reflexivity|].
  cbn [app]. change (last (c :: a ++ b) d)
    with (match a ++ b with [] => c | _ :: _ => last (a ++ b) d end).
  destruct (a ++ b) eqn:E; [|exact IH].
  apply app_eq_nil in E. destruct E as [_ E]. contradiction.
Qed.

Lemma join_hd_last (sep : jsstring) (s : jsstring) (ss : list jsstring) :
  Forall (fun x => isWhiteSpace (hd 32 x) = false /\
                   isWhiteSpace (last x 32) = false) (s :: ss) ->
  isWhiteSpace (hd 32 (join sep (s :: ss))) = false /\
  isWhiteSpace (last (join sep (s :: ss)) 32) = false.
Proof.
  revert s. induction ss as [|s2 ss IH]; intros s F.
  - inversion F; subst. assumption.
  - inversion F as [|x l [Hs Ls] F']; subst.
    destruct (IH s2 F') as [_ L2].
    change (join sep (s :: s2 :: ss)) with (s ++ sep ++ join sep (s2 :: ss)).
    assert (Ns : s <> []).
    { intros ->. cbn in Hs. discriminate Hs. }
    assert (Nj : join sep (s2 :: ss) <> []).
    { intros E. rewrite E in L2. cbn in L2. discriminate L2. }
    split.
    + destruct s; [contradiction | exact Hs].
    + rewrite app_assoc. rewrite last_append by exact Nj. exact L2.
Qed.

Lemma split_join_comma (ss : list jsstring) :
  forall pfx s,
    ~ In 44 pfx -> Forall (fun x => ~ In 44 x) (s :: ss) ->
    split 44 (pfx ++ join (lit ", ") (s :: ss))
    = (pfx ++ s) :: List.map (cons 32) ss.
Proof.
  induction ss as [|s2 ss IH]; intros pfx s Np F.
  - cbn [join List.map]. apply split_whole.
    inversion F; subst. intros I. apply in_app_or in I. tauto.
  - inversion F as [|x l Hs F']; subst.
    change (join (lit ", ") (s :: s2 :: ss))
      with (s ++ 44 :: [32] ++ join (lit ", ") (s2 :: ss)).
    rewrite app_assoc, split_first.
    + rewrite (IH [32] s2); [reflexivity | | exact F'].
      intros [I|[]]. discriminate I.
    + intros I. apply in_app_or in I. tauto.
Qed.

Lemma join_no_unit (c : Z) (ss : list jsstring) :
  c <> 44 -> c <> 32 -> Forall (fun x => ~ In c x) ss ->
  ~ In c (join (lit ", ") ss).
Proof.
  intros N1 N2 F. induction F as [|s ss Hs F IH]; [intros []|].
  destruct ss as [|s2 ss]; [exact Hs|].
  change (join (lit ", ") (s :: s2 :: ss))
    with (s ++ [44; 32] ++ join (lit ", ") (s2 :: ss)).
  intros I. apply in_app_or in I. destruct I as [I|I]; [contradiction|].
  apply in_app_or in I. destruct I as [I|I]; [|contradiction].
  cbn in I. intuition congruence.
Qed.

(** A rule header with a list of plain selectors separated by a comma and
    a space: every selector is prefixed with the bracketed scope id, and
    what follows the brace on the line is kept. *)
Theorem ruleStart_selector_list (scopeId : jsstring) (s : jsstring)
  (ss : list jsstring) (rest : jsstring) :
  Forall plainSelector (s :: ss) ->
  ruleStart scopeId (join (lit ", ") (s :: ss) ++ lit " {" ++ rest)
  = join (lit ", ") (List.map (prefixed scopeId) (s :: ss)) ++
    lit " {" ++ rest ++ nl.
Proof.
  intros P. set (J := join (lit ", ") (s :: ss)).
  assert (HL : isWhiteSpace (hd 32 J) = false /\
               isWhiteSpace (last J 32) = false).
  { apply join_hd_last. apply Forall_forall. intros x I.
    rewrite Forall_forall in P. destruct (P x I) as [A [B _]]. auto. }
  destruct HL as [HJ LJ].
  assert (NB : ~ In 123 (J ++ [32])).
  { intros I. apply in_app_or in I. destruct I as [I|[I|[]]]; [|discriminate I].
    revert I. apply join_no_unit; [discriminate | discriminate|].
    apply Forall_forall. intros x I. rewrite Forall_forall in P.
    destruct (P x I) as [_ [_ [_ [B _]]]]. exact B. }
  assert (E : J ++ lit " {" ++ rest = (J ++ [32]) ++ 123 :: rest).
  { rewrite <- app_assoc. reflexivity. }
  assert (I : indexOf (J ++ lit " {" ++ rest) (lit "{") = len (J ++ [32])).
  { rewrite E. unfold indexOf. change (lit "{") with [123].
    rewrite indexFrom_unit by exact NB. lia. }
  assert (S : selectorsOf (J ++ lit " {" ++ rest) = s :: ss).
  { unfold selectorsOf. cbv zeta. rewrite I, E, StringMore.substring_prefix.
    assert (T : trim (J ++ [32]) = J).
    { unfold trim, trimStart.
      rewrite (dropWhile_head isWhiteSpace (J ++ [32]) 32).
      - apply trimEnd_space, LJ.
      - reflexivity.
      - destruct J; [cbn in HJ; discriminate HJ | exact HJ]. }
    rewrite T. unfold J.
    change (join (lit ", ") (s :: ss))
      with ([] ++ join (lit ", ") (s :: ss)).
    rewrite (split_join_comma ss [] s); [| intros [] |].
    - cbn [app List.map]. inversion P as [|x l Ps Pss]; subst.
      destruct Ps as [A [B _]]. rewrite (trim_plain s A B). f_equal.
      rewrite map_map. rewrite <- (map_id ss) at 2.
      apply map_ext_in. intros x Ix. rewrite Forall_forall in Pss.
      destruct (Pss x Ix) as [A' [B' _]]. apply trim_after_space; assumption.
    - apply Forall_forall. intros x Ix. rewrite Forall_forall in P.
      destruct (P x Ix) as [_ [_ [C _]]]. exact C. }
  unfold ruleStart. cbv zeta. rewrite S, I.
  replace (len (J ++ [32]) + 1) with (len ((J ++ [32]) ++ [123]))
    by (unfold len; rewrite !length_app; cbn [length]; lia).
  replace (J ++ lit " {" ++ rest) with (((J ++ [32]) ++ [123]) ++ rest)
    by (rewrite <- !app_assoc; reflexivity).
  rewrite StringMore.substringFrom_suffix.
  f_equal. f_equal. apply map_ext_in. intros x Ix.
  rewrite Forall_forall in P. destruct (P x Ix) as [_ [_ [_ [_ [A R]]]]].
  unfold transformSelector, prefixed. rewrite A, R. reflexivity.
Qed.

Lemma ruleStart_selector_list_witness :
  let scopeId := lit "data-v-1" in
  let s := lit ".a" in
  let ss := [lit "h1 > p"; lit ".b:hover"] in
  Forall plainSelector (s :: ss) /\
  ruleStart scopeId (lit ".a, h1 > p, .b:hover { color: red;")
  = ln "[data-v-1] .a, [data-v-1] h1 > p, [data-v-1] .b:hover { color: red;".
Proof.
  intros scopeId s ss.
  assert (P : Forall plainSelector (s :: ss)).
  { repeat first
      [ apply Forall_cons | apply Forall_nil | apply conj
      | (vm_compute; reflexivity) | apply without_unit ];
      vm_compute; reflexivity. }
  split; [exact P|].
  etransitivity;
    [exact (ruleStart_selector_list scopeId s ss (lit " color: red;") P)|].
  vm_compute. reflexivity.
Defined.

End CssMore.

(** ** Text handling in the hooks *)

Module TextMore.
Import Sfc.
Import Plugin.
Import More.

Lemma matchAt_chr (c d : Z) (s : jsstring) :
  matchAt (Chr c) (d :: s)
  = if d =? c then Some (mkMatch [d] s []) else None.
Proof.
  unfold matchAt. cbn [matcher]. destruct (d =? c); [|reflexivity].
  cbn [length]. replace (S (length s) - length s)%nat with 1%nat by lia.
  reflexivity.
Qed.

(** Escaping puts a backslash before every backtick and changes nothing
    else: a dollar sign and a brace stay as they are. *)
Theorem escapeBackticks_units (htmlContent : jsstring) :
  escapeBackticks htmlContent = flat_map escapeUnit htmlContent.
Proof.
  unfold escapeBackticks, replaceAll.
  induction htmlContent as [|c s IH]; [reflexivity|].
  cbn [scanAll flat_map]. rewrite matchAt_chr. unfold escapeUnit at 1.
  destruct (c =? 96).
  - cbn [matched length concat]. rewrite IH. reflexivity.
  - cbn [concat]. rewrite IH. reflexivity.
Qed.

(** *** Texts the patterns do not touch *)

(** A template in which no tag of an imported component begins is left as
    it is by the rewriter. *)
Theorem rewriteTemplate_untouched (imports : list importRecord)
  (htmlContent : jsstring) :
  (forall imp, In imp imports ->
     includes htmlContent (lit "<" ++ name imp) = false) ->
  rewriteTemplate imports htmlContent = htmlContent.
Proof.
  unfold rewriteTemplate. induction imports as [|imp imports IH]; intros H.
  - reflexivity.
  - cbn [fold_left].
    rewrite RegexMore.replaceAll_nowhere.
    + apply IH. intros i I. apply H. right. exact I.
    + apply TagMore.componentTag_nowhere_in, H. left. reflexivity.
Qed.

Lemma rewriteTemplate_untouched_witness :
  let imports := [mkImport (lit "Card") (lit "./Card.olova")] in
  let htmlContent := lit "<h1>Card</h1><p>$1</p>" in
  (forall imp, In imp imports ->
     includes htmlContent (lit "<" ++ name imp) = false) /\
  rewriteTemplate imports htmlContent = htmlContent.
Proof.
  intros imports htmlContent.
  assert (H : forall imp, In imp imports ->
                includes htmlContent (lit "<" ++ name imp) = false).
  { intros imp [<-|[]]. vm_compute. reflexivity. }
  split; [exact H|].
  exact (rewriteTemplate_untouched imports htmlContent H).
Defined.

Section Needs.
Context {A : Type}.
Implicit Types (k : jsstring -> captures -> option A) (v : A).

Lemma importRegex_needs_olova s cs k v :
  matcher importRegex s cs k = Some v -> includes s (lit ".olova") = true.
Proof.
  unfold importRegex. do 8 apply RegexMore.needs_seq.
  apply (RegexMore.needs_str_seq (lit ".olova") []).
Qed.

Lemma setPropsCall_needs s cs k v :
  matcher setPropsCall s cs k = Some v -> includes s (lit "setProps") = true.
Proof.
  unfold setPropsCall.
  apply (RegexMore.needs_str_seq (lit "setProps") (lit "(")).
Qed.

Lemma setPropsImport_needs s cs k v :
  matcher setPropsImport s cs k = Some v ->
  includes s (lit "setProps") = true.
Proof.
  unfold setPropsImport. do 4 apply RegexMore.needs_seq.
  apply (RegexMore.needs_str_seq (lit "setProps") []).
Qed.

Lemma propsDeclaration_needs s cs k v :
  matcher propsDeclaration s cs k = Some v ->
  includes s (lit "setProps") = true.
Proof.
  unfold propsDeclaration. do 6 apply RegexMore.needs_seq.
  exact setPropsCall_needs.
Qed.

Lemma setPropsAssignment_needs s cs k v :
  matcher setPropsAssignment s cs k = Some v ->
  includes s (lit "setProps") = true.
Proof.
  unfold setPropsAssignment. do 4 apply RegexMore.needs_seq.
  exact setPropsCall_needs.
Qed.

Lemma setPropsFunction_needs s cs k v :
  matcher setPropsFunction s cs k = Some v ->
  includes s (lit "setProps") = true.
Proof.
  unfold setPropsFunction. do 2 apply RegexMore.needs_seq.
  apply (RegexMore.needs_str_seq (lit "setProps") []).
Qed.

End Needs.

(** A script that holds neither [.olova] nor [setProps] gives no import
    record and goes into the module as it is: imports of other modules
    are neither tracked nor removed. *)
Theorem plain_script_untouched (scriptContent : jsstring) :
  includes scriptContent (lit ".olova") = false ->
  includes scriptContent (lit "setProps") = false ->
  resolveImports scriptContent = [] /\
  cleanScript scriptContent = scriptContent.
Proof.
  intros O S. split.
  - unfold resolveImports. rewrite RegexMore.execAll_nowhere; [reflexivity|].
    apply (RegexMore.nowhere_without _ (lit ".olova")); [|exact O].
    intros t cs k v. apply importRegex_needs_olova.
  - unfold cleanScript, erase.
    rewrite (RegexMore.replaceAll_nowhere importRegex).
    2:{ apply (RegexMore.nowhere_without _ (lit ".olova")); [|exact O].
        intros t cs k v. apply importRegex_needs_olova. }
    rewrite (RegexMore.replaceAll_nowhere setPropsImport).
    2:{ apply (RegexMore.nowhere_without _ (lit "setProps")); [|exact S].
        intros t cs k v. apply setPropsImport_needs. }
    rewrite (RegexMore.replaceAll_nowhere propsDeclaration).
    2:{ apply (RegexMore.nowhere_without _ (lit "setProps")); [|exact S].
        intros t cs k v. apply propsDeclaration_needs. }
    rewrite (RegexMore.replaceAll_nowhere setPropsCall).
    2:{ apply (RegexMore.nowhere_without _ (lit "setProps")); [|exact S].
        intros t cs k v. apply setPropsCall_needs. }
    rewrite (RegexMore.replaceAll_nowhere setPropsAssignment).
    2:{ apply (RegexMore.nowhere_without _ (lit "setProps")); [|exact S].
        intros t cs k v. apply setPropsAssignment_needs. }
    apply RegexMore.replaceAll_nowhere.
    apply (RegexMore.nowhere_without _ (lit "setProps")); [|exact S].
    intros t cs k v. apply setPropsFunction_needs.
Qed.

Lemma plain_script_untouched_witness :
  let scriptContent := lit "import x from './x.js'; let n = x + 1;" in
  (includes scriptContent (lit ".olova") = false /\
   includes scriptContent (lit "setProps") = false) /\
  resolveImports scriptContent = [] /\
  cleanScript scriptContent = scriptContent.
Proof.
  intros scriptContent.
  assert (A : includes scriptContent (lit ".olova") = false)
    by (vm_compute; reflexivity).
  assert (B : includes scriptContent (lit "setProps") = false)
    by (vm_compute; reflexivity).
  split; [split; assumption|].
  exact (plain_script_untouched scriptContent A B).
Defined.

Lemma erase_script (items : list item) :
  wellFormed items ->
  erase importRegex (scriptOf items) = remainder items.
Proof.
  unfold erase, replaceAll.
  induction items as [|[[n p] after] items IH]; intros W; [reflexivity|].
  destruct W as [N [P [F W]]]. cbn [scriptOf].
  rewrite ImportTheory.scan_statement by assumption.
  rewrite ImportTheory.scan_between by exact F.
  cbn [concat app]. rewrite concat_app, RegexMore.concat_units, (IH W).
  reflexivity.
Qed.

(** From a script of component import statements the cleaner takes every
    statement out and leaves the text that followed it, a semicolon after
    the closing quote included; where that text does not mention
    [setProps], nothing else is removed. *)
Theorem component_imports_erased (before : jsstring) (items : list item) :
  wellFormed items ->
  noImportAhead before (scriptOf items) = true ->
  includes (before ++ remainder items) (lit "setProps") = false ->
  cleanScript (before ++ scriptOf items) = before ++ remainder items.
Proof.
  intros W F S.
  assert (E : erase importRegex (before ++ scriptOf items)
              = before ++ remainder items).
  { unfold erase, replaceAll.
    rewrite ImportTheory.scan_between by exact F.
    rewrite concat_app, RegexMore.concat_units. f_equal.
    exact (erase_script items W). }
  unfold cleanScript. rewrite E. unfold erase.
  rewrite (RegexMore.replaceAll_nowhere setPropsImport).
  2:{ apply (RegexMore.nowhere_without _ (lit "setProps")); [|exact S].
      intros t cs k v. apply setPropsImport_needs. }
  rewrite (RegexMore.replaceAll_nowhere propsDeclaration).
  2:{ apply (RegexMore.nowhere_without _ (lit "setProps")); [|exact S].
      intros t cs k v. apply propsDeclaration_needs. }
  rewrite (RegexMore.replaceAll_nowhere setPropsCall).
  2:{ apply (RegexMore.nowhere_without _ (lit "setProps")); [|exact S].
      intros t cs k v. apply setPropsCall_needs. }
  rewrite (RegexMore.replaceAll_nowhere setPropsAssignment).
  2:{ apply (RegexMore.nowhere_without _ (lit "setProps")); [|exact S].
      intros t cs k v. apply setPropsAssignment_needs. }
  apply RegexMore.replaceAll_nowhere.
  apply (RegexMore.nowhere_without _ (lit "setProps")); [|exact S].
  intros t cs k v. apply setPropsFunction_needs.
Qed.

Lemma component_imports_erased_witness :
  let items :=
    [(lit "Card", lit "./Card", lit ";" ++ nl);
     (lit "Row_2", lit "../rows/Row", nl ++ lit "let n = 1;")] in
  let before := lit "// parts" ++ nl in
  (wellFormed items /\ noImportAhead before (scriptOf items) = true /\
   includes (before ++ remainder items) (lit "setProps") = false) /\
  cleanScript
    (ln "// parts" ++ ln "import Card from './Card.olova';" ++
     ln "import Row_2 from '../rows/Row.olova'" ++ lit "let n = 1;")
  = ln "// parts" ++ ln ";" ++ nl ++ lit "let n = 1;".
Proof.
  intros items before.
  assert (W : wellFormed items).
  { cbn [wellFormed items]. unfold isName, isPath.
    repeat split; try discriminate; vm_compute; reflexivity. }
  assert (F : noImportAhead before (scriptOf items) = true)
    by (vm_compute; reflexivity).
  assert (S : includes (before ++ remainder items) (lit "setProps") = false)
    by (vm_compute; reflexivity).
  split; [split; [exact W | split; [exact F | exact S]]|].
  etransitivity; [|etransitivity;
    [exact (component_imports_erased before items W F S)|]];
    vm_compute; reflexivity.
Defined.

(** [transformIndexHtml] puts the stylesheet link before the first
    [</head>] when the build is a production build with styles, and
    returns the document as it is in every other case: no styles, a
    development build, or no [</head>] in the document. *)
Theorem transformIndexHtml_cases (st : plugin) (html : jsstring) :
  (allCssContent st = [] \/ isProd st = false ->
   transformIndexHtml st html = html) /\
  (includes html (lit "</head>") = false ->
   transformIndexHtml st html = html) /\
  (forall a b,
     allCssContent st <> [] -> isProd st = true ->
     html = a ++ lit "</head>" ++ b ->
     indexOf html (lit "</head>") = len a ->
     transformIndexHtml st html
     = a ++ stylesheetLink ++ lit "</head>" ++ b).
Proof.
  unfold transformIndexHtml. split; [|split].
  - intros [E|E]; rewrite E; [reflexivity|].
    destruct (allCssContent st); reflexivity.
  - intros H. destruct (allCssContent st); [reflexivity|].
    destruct (isProd st); [|reflexivity].
    apply StringMore.replaceString_absent, H.
  - intros a b N P E I. destruct (allCssContent st); [contradiction|].
    rewrite P. subst html.
    rewrite StringMore.replaceString_at; [| exact I |].
    + unfold stylesheetLink. rewrite <- !app_assoc. reflexivity.
    + vm_compute. intuition discriminate.
Qed.

Lemma transformIndexHtml_cases_witness :
  let st := mkPlugin [(lit "Card", lit "h1{}")] true in
  let dev := mkPlugin [(lit "Card", lit "h1{}")] false in
  let a := lit "<html><head><title>t</title>" in
  let b := lit "<body></body></html>" in
  let html := a ++ lit "</head>" ++ b in
  ((allCssContent dev = [] \/ isProd dev = false) /\
   includes b (lit "</head>") = false /\
   allCssContent st <> [] /\ isProd st = true /\
   indexOf html (lit "</head>") = len a) /\
  transformIndexHtml dev html = html /\
  transformIndexHtml st b = b /\
  transformIndexHtml st html = a ++ stylesheetLink ++ lit "</head>" ++ b.
Proof.
  intros st dev a b html.
  assert (D : allCssContent dev = [] \/ isProd dev = false)
    by (right; reflexivity).
  assert (B : includes b (lit "</head>") = false) by (vm_compute; reflexivity).
  assert (N : allCssContent st <> []) by discriminate.
  assert (P : isProd st = true) by reflexivity.
  assert (X : indexOf html (lit "</head>") = len a)
    by (vm_compute; reflexivity).
  split; [repeat split; assumption|].
  split; [exact (proj1 (transformIndexHtml_cases dev html) D)|].
  split; [exact (proj1 (proj2 (transformIndexHtml_cases st b)) B)|].
  exact (proj2 (proj2 (transformIndexHtml_cases st html)) a b N P eq_refl X).
Defined.

End TextMore.
